(** * jan-api-gateway: provider registry, model cache and completion relay

    A shallow embedding of the Go code of the gateway, followed by the
    properties of its specification.  The embedding has one module per
    package:

    - [GoStrings]: the few functions of Go's [strings] package the code uses;
    - [InferenceModelRegistry]: [inference_model_registry.go], the model
      cache kept in Redis;
    - [ProviderRegistry]: the [ProviderRegistryService] of package [model],
      with the stores it persists to;
    - [CompletionAPI]: the chat completion route;
    - [ProvidersAPI]: the provider listing route;
    - [Base64], [Cache] and [RegistryKeys]: the texts of the cache keys;
    - [DataInitializer]: the setup of the built-in provider at start-up;
    - [ModelProviderRoute]: the provider administration routes.

    The properties of the specification follow in [CacheProperties],
    [RegistryProperties] and [RouteProperties]; further properties of the
    code in [KeyProperties], [CacheBehaviour], [HelperProperties],
    [ServiceProperties], [RelayProperties], [InitializerProperties] and
    [AdminRouteProperties].

    Go strings are byte strings: they are Rocq [string]s, whose characters
    are bytes, and [String.length] is Go's [len].  Stateful code passes its
    state explicitly: the cache for the model registry, the three tables for
    the provider registry. *)

From Stdlib Require Import Ascii NArith ZArith Sorting.Sorted Floats.SpecFloat.
From stdpp Require Import prelude strings pretty gmap.

(** ** Package [strings] *)

Module GoStrings.

(** The white space of [strings.TrimSpace] in the ASCII range: tab, line
    feed, vertical tab, form feed, carriage return and space.  (The
    multi-byte Unicode spaces that Go also trims are outside this
    byte-level embedding.) *)
Definition isSpace (c : ascii) : bool :=
  let n := N_of_ascii c in
  ((9 <=? n) && (n <=? 13) || (n =? 32))%N.

Definition isEmpty (s : string) : bool :=
  match s with EmptyString => true | String _ _ => false end.

Fixpoint TrimLeftSpace (s : string) : string :=
  match s with
  | EmptyString => EmptyString
  | String c s' => if isSpace c then TrimLeftSpace s' else s
  end.

Fixpoint TrimRightSpace (s : string) : string :=
  match s with
  | EmptyString => EmptyString
  | String c s' =>
      let t := TrimRightSpace s' in
      if isSpace c && isEmpty t then EmptyString else String c t
  end.

Definition TrimSpace (s : string) : string := TrimRightSpace (TrimLeftSpace s).

Definition toLowerByte (c : ascii) : ascii :=
  let n := N_of_ascii c in
  if ((65 <=? n) && (n <=? 90))%N then ascii_of_N (n + 32) else c.

Fixpoint ToLower (s : string) : string :=
  match s with
  | EmptyString => EmptyString
  | String c s' => String (toLowerByte c) (ToLower s')
  end.

(** [strings.TrimRight(s, "/")] and [strings.Trim(s, "-")] for a one-byte
    cutset. *)
Fixpoint TrimRightByte (b : ascii) (s : string) : string :=
  match s with
  | EmptyString => EmptyString
  | String c s' =>
      let t := TrimRightByte b s' in
      if bool_decide (c = b) && isEmpty t then EmptyString else String c t
  end.

Fixpoint TrimLeftByte (b : ascii) (s : string) : string :=
  match s with
  | EmptyString => EmptyString
  | String c s' => if bool_decide (c = b) then TrimLeftByte b s' else s
  end.

Definition TrimByte (b : ascii) (s : string) : string :=
  TrimRightByte b (TrimLeftByte b s).

(** [s[n:]] for [n <= len(s)]. *)
Fixpoint drop (n : nat) (s : string) : string :=
  match n, s with
  | O, _ => s
  | S n', String _ s' => drop n' s'
  | S _, EmptyString => EmptyString
  end.

End GoStrings.

(** ** Package [inferencemodelregistry] *)

Module InferenceModelRegistry.
Import GoStrings.

(** [inferencemodel.Model]. *)
Record Model := mkModel {
  ID : string;
  Object : string;
  Created : Z;
  OwnedBy : string
}.

(** The text of a cache entry.  The registry stores JSON only, so an entry
    is given by the Go value its text decodes to: an array of model
    objects, an array of strings, an object of string arrays, [null], or
    any other text (among them the empty string).  [JModels []] and
    [JStrings []] both stand for the text of the empty array.  Strings are
    taken to survive [json.Marshal] and [json.Unmarshal] unchanged, as
    model identifiers and base URLs read from JSON or the environment
    do. *)
Inductive JSONText :=
| JModels (ms : list Model)
| JStrings (ids : list string)
| JEndpoints (m : gmap string (list string))
| JNull
| JOther (raw : string).

(** [json.Unmarshal] into a [[]inferencemodel.Model], a [[]string] and a
    [map[string][]string]; [None] is a decoding error. *)
Definition unmarshalModels (t : JSONText) : option (list Model) :=
  match t with
  | JModels ms => Some ms
  | JStrings [] => Some []
  | JNull => Some []
  | _ => None
  end.

Definition unmarshalStrings (t : JSONText) : option (list string) :=
  match t with
  | JStrings ids => Some ids
  | JModels [] => Some []
  | JNull => Some []
  | _ => None
  end.

Definition unmarshalEndpoints (t : JSONText) : option (gmap string (list string)) :=
  match t with
  | JEndpoints m => Some m
  | JNull => Some ∅
  | _ => None
  end.

Definition isEmptyText (t : JSONText) : bool :=
  match t with JOther raw => isEmpty raw | _ => false end.

(** [json.Marshal] of a slice that is [nil] when nothing was appended. *)
Definition marshalNilableModels (ms : list Model) : JSONText :=
  match ms with [] => JNull | _ => JModels ms end.

(** The keys of package [cache] that the registry uses.  The third one is
    [RegistryEndpointModelsKey + ":" + sanitizeKeyPart(serviceName)]:
    [sanitizeKeyPart] is the unpadded URL-safe base64 encoding, which is
    injective and free of glob characters, so that these keys are indexed
    by the service name and are exactly the keys matching the pattern
    [RegistryEndpointModelsKey + ":*"]. *)
Inductive Key :=
| ModelsCacheKey
| RegistryModelEndpointsKey
| RegistryEndpointModelsKey (serviceName : string).

Inductive CacheOp :=
| OpGet (k : Key)
| OpSet (k : Key) (v : JSONText)
| OpUnlink (k : Key)
| OpDeletePattern.

Definition isWrite (op : CacheOp) : bool :=
  match op with OpGet _ => false | _ => true end.

(** Modelled from the spec: [cache.RedisCacheService] is not among the
    sources.  The spec describes a shared key-value store with atomic
    single-key operations, in which an absent key is a miss.  ([Set_] is
    its [Set], a reserved word here.)  The store
    keeps one text per key; [Get] fails exactly on an absent key, [Set],
    [Unlink] and [DeletePattern] succeed.  Expiry is not modelled: the
    properties are about calls that follow one another immediately.
    [calls] records every operation issued, oldest first. *)
Record RedisCacheService := mkCache {
  modelsList : option JSONText;
  modelEndpoints : option JSONText;
  endpointModels : gmap string JSONText;
  calls : list CacheOp
}.

Inductive error :=
| ErrorString (msg : string)
| RedisNil
| UnmarshalError.

Definition emptyCache : RedisCacheService := mkCache None None ∅ [].

(** The writes and deletions issued so far. *)
Definition writes (c : RedisCacheService) : list CacheOp :=
  filter (λ op, isWrite op = true) (calls c).

Definition entry (k : Key) (c : RedisCacheService) : option JSONText :=
  match k with
  | ModelsCacheKey => modelsList c
  | RegistryModelEndpointsKey => modelEndpoints c
  | RegistryEndpointModelsKey s => endpointModels c !! s
  end.

Definition record (op : CacheOp) (c : RedisCacheService) : RedisCacheService :=
  mkCache (modelsList c) (modelEndpoints c) (endpointModels c) (calls c ++ [op]).

(** Modelled from the spec: reads a key; [None] is the error of a miss. *)
Definition Get (k : Key) (c : RedisCacheService) : option JSONText * RedisCacheService :=
  (entry k c, record (OpGet k) c).

(** Modelled from the spec: writes a key (the time to live is not kept). *)
Definition Set_ (k : Key) (v : JSONText) (c : RedisCacheService)
  : option error * RedisCacheService :=
  let c := record (OpSet k v) c in
  (None,
   match k with
   | ModelsCacheKey => mkCache (Some v) (modelEndpoints c) (endpointModels c) (calls c)
   | RegistryModelEndpointsKey => mkCache (modelsList c) (Some v) (endpointModels c) (calls c)
   | RegistryEndpointModelsKey s =>
       mkCache (modelsList c) (modelEndpoints c) (<[s := v]> (endpointModels c)) (calls c)
   end).

(** Modelled from the spec: deletes a key. *)
Definition Unlink (k : Key) (c : RedisCacheService) : option error * RedisCacheService :=
  let c := record (OpUnlink k) c in
  (None,
   match k with
   | ModelsCacheKey => mkCache None (modelEndpoints c) (endpointModels c) (calls c)
   | RegistryModelEndpointsKey => mkCache (modelsList c) None (endpointModels c) (calls c)
   | RegistryEndpointModelsKey s =>
       mkCache (modelsList c) (modelEndpoints c) (delete s (endpointModels c)) (calls c)
   end).

(** Modelled from the spec: [DeletePattern] on the pattern
    [RegistryEndpointModelsKey + ":*"], which deletes the per-service keys. *)
Definition DeletePattern (c : RedisCacheService) : option error * RedisCacheService :=
  let c := record OpDeletePattern c in
  (None, mkCache (modelsList c) (modelEndpoints c) ∅ (calls c)).

(** [inference.InferenceProvider]: the interface value carries the outcome
    of its discovery call, [None] for an error. *)
Record InferenceProvider := { GetModels : option (list Model) }.

Record InferenceModelRegistry := mkRegistry {
  provider : option InferenceProvider;
  serviceBaseURL : string
}.

(** [NewInferenceModelRegistry]; [chatClient] is the base URL of the chat
    client, [None] for a nil client. *)
Definition NewInferenceModelRegistry (provider : option InferenceProvider)
    (chatClient : option string) : InferenceModelRegistry :=
  let baseURL := match chatClient with Some u => TrimSpace u | None => "" end in
  mkRegistry provider baseURL.

(** The reverse map after [modelToEndpoints[id] = append(modelToEndpoints[id], url)]. *)
Definition appendEndpoint (id url : string) (m : gmap string (list string))
  : gmap string (list string) :=
  <[id := default [] (m !! id) ++ [url]]> m.

Section Registry.

(** What [json.Unmarshal] leaves in a [[]inferencemodel.Model] when it
    reports an error; [RemoveServiceModels] ignores that error. *)
Variable partialModels : JSONText → list Model.

Variable r : InferenceModelRegistry.

Definition rebuildModelsFromProvider (c : RedisCacheService)
  : list Model * RedisCacheService :=
  match provider r with
  | None => ([], c)
  | Some p =>
      if isEmpty (TrimSpace (serviceBaseURL r)) then ([], c)
      else match GetModels p with
           | None => ([], c)
           | Some models =>
               match models with
               | [] => (models, c)
               | _ =>
                   let '(_, c) := Set_ ModelsCacheKey (JModels models) c in
                   let serviceCacheKey := RegistryEndpointModelsKey (serviceBaseURL r) in
                   let modelIDs := map ID models in
                   let '(_, c) := Set_ serviceCacheKey (JStrings modelIDs) c in
                   let modelToEndpoints :=
                     foldl (λ m model, appendEndpoint (ID model) (serviceBaseURL r) m)
                           ∅ models in
                   let '(_, c) := Set_ RegistryModelEndpointsKey (JEndpoints modelToEndpoints) c in
                   (models, c)
               end
           end
  end.

Definition ListModels (c : RedisCacheService) : list Model * RedisCacheService :=
  let '(cached, c) := Get ModelsCacheKey c in
  match cached with
  | Some cachedModelsJSON =>
      if isEmptyText cachedModelsJSON then rebuildModelsFromProvider c
      else match unmarshalModels cachedModelsJSON with
           | Some models => (models, c)
           | None => rebuildModelsFromProvider c
           end
  | None => rebuildModelsFromProvider c
  end.

Definition hasModelsChanged (serviceName : string) (newModels : list Model)
    (c : RedisCacheService) : bool * RedisCacheService :=
  let cacheKey := RegistryEndpointModelsKey serviceName in
  let '(cached, c) := Get cacheKey c in
  match cached with
  | None => (true, c)
  | Some cachedIDsJSON =>
      match unmarshalStrings cachedIDsJSON with
      | None => (true, c)
      | Some cachedIDs =>
          if negb (length cachedIDs =? length newModels) then (true, c)
          else
            let newIDs := map ID newModels in
            let idSet : gset string := list_to_set cachedIDs in
            (existsb (λ id, negb (bool_decide (id ∈ idSet))) newIDs, c)
      end
  end.

Definition rebuildModelToEndpointsMapping (c : RedisCacheService)
  : option error * RedisCacheService :=
  let '(cached, c) := Get ModelsCacheKey c in
  match cached with
  | None => (Some RedisNil, c)
  | Some allModelsJSON =>
      match unmarshalModels allModelsJSON with
      | None => (Some UnmarshalError, c)
      | Some allModels =>
          let modelToEndpoints :=
            foldl (λ m model,
                     if negb (isEmpty (TrimSpace (serviceBaseURL r)))
                     then appendEndpoint (ID model) (serviceBaseURL r) m
                     else m)
                  ∅ allModels in
          Set_ RegistryModelEndpointsKey (JEndpoints modelToEndpoints) c
      end
  end.

Definition SetModels (serviceName : string) (models : list Model)
    (c : RedisCacheService) : option error * RedisCacheService :=
  if isEmpty (TrimSpace serviceName)
  then (Some (ErrorString "service name cannot be empty"), c)
  else
    let '(changed, c) := hasModelsChanged serviceName models c in
    if negb changed then (None, c)
    else
      let '(_, c) := Unlink RegistryModelEndpointsKey c in
      let '(_, c) := Unlink ModelsCacheKey c in
      let '(_, c) := DeletePattern c in
      let serviceCacheKey := RegistryEndpointModelsKey serviceName in
      let modelIDs := map ID models in
      let modelIDsJSON := JStrings modelIDs in
      let modelsJSON := JModels models in
      match Set_ serviceCacheKey modelIDsJSON c with
      | (Some err, c) => (Some err, c)
      | (None, c) =>
          match Set_ ModelsCacheKey modelsJSON c with
          | (Some err, c) => (Some err, c)
          | (None, c) => rebuildModelToEndpointsMapping c
          end
      end.

Definition RemoveServiceModels (serviceName : string) (c : RedisCacheService)
  : option error * RedisCacheService :=
  if isEmpty (TrimSpace serviceName)
  then (Some (ErrorString "service name cannot be empty"), c)
  else
    let serviceCacheKey := RegistryEndpointModelsKey serviceName in
    let '(cached, c) := Get serviceCacheKey c in
    match cached with
    | None => (None, c)
    | Some serviceModelIDsJSON =>
        match unmarshalStrings serviceModelIDsJSON with
        | None => (None, c)
        | Some serviceModelIDs =>
            let serviceModelSet : gset string := list_to_set serviceModelIDs in
            match Unlink serviceCacheKey c with
            | (Some err, c) => (Some err, c)
            | (None, c) =>
                let '(existingJSON, c) := Get ModelsCacheKey c in
                let existing :=
                  match existingJSON with
                  | None => []
                  | Some t =>
                      if isEmptyText t then []
                      else match unmarshalModels t with
                           | Some ms => ms
                           | None => partialModels t
                           end
                  end in
                let filtered :=
                  filter (λ m, ID m ∉ serviceModelSet) existing in
                let filteredJSON := marshalNilableModels filtered in
                match Set_ ModelsCacheKey filteredJSON c with
                | (Some err, c) => (Some err, c)
                | (None, c) => rebuildModelToEndpointsMapping c
                end
            end
        end
    end.

Definition GetEndpointToModels (serviceName : string) (c : RedisCacheService)
  : (list string * bool) * RedisCacheService :=
  let cacheKey := RegistryEndpointModelsKey serviceName in
  let '(cached, c) := Get cacheKey c in
  match cached with
  | None => (([], false), c)
  | Some modelsJSON =>
      match unmarshalStrings modelsJSON with
      | None => (([], false), c)
      | Some models => ((models, bool_decide (0 < length models)), c)
      end
  end.

Definition GetModelToEndpoints (c : RedisCacheService)
  : gmap string (list string) * RedisCacheService :=
  let '(cached, c) := Get RegistryModelEndpointsKey c in
  let '(cached, c) :=
    match cached with
    | Some t => (Some t, c)
    | None =>
        let '(_, c) := rebuildModelsFromProvider c in
        Get RegistryModelEndpointsKey c
    end in
  match cached with
  | None => (∅, c)
  | Some modelToEndpointsJSON =>
      match unmarshalEndpoints modelToEndpointsJSON with
      | None => (∅, c)
      | Some modelToEndpoints => (modelToEndpoints, c)
      end
  end.

(** [CheckInferenceModels], the cron entry point. *)
Definition CheckInferenceModels (c : RedisCacheService) : RedisCacheService :=
  match provider r with
  | None => c
  | Some p =>
      if isEmpty (TrimSpace (serviceBaseURL r)) then c
      else match GetModels p with
           | None => snd (RemoveServiceModels (serviceBaseURL r) c)
           | Some models => snd (SetModels (serviceBaseURL r) models c)
           end
  end.

End Registry.

(** *** Notions used to state the properties *)

(** Every entry of [m] is keyed by one of [ids] and lists [url] only. *)
Definition attributed (url : string) (ids : list string)
    (m : gmap string (list string)) : Prop :=
  ∀ M urls, m !! M = Some urls → M ∈ ids ∧ ∀ u, u ∈ urls → u = url.

(** [hasModelsChanged] reads one entry and decides from it alone. *)
Definition changedFrom (cached : option JSONText) (newModels : list Model) : bool :=
  match cached with
  | None => true
  | Some cachedIDsJSON =>
      match unmarshalStrings cachedIDsJSON with
      | None => true
      | Some cachedIDs =>
          if negb (length cachedIDs =? length newModels) then true
          else existsb (λ id, negb (bool_decide (id ∈ (list_to_set cachedIDs : gset string))))
                       (map ID newModels)
      end
  end.

End InferenceModelRegistry.

(** ** Package [model]: the provider registry *)

Module ProviderRegistry.
Import GoStrings.

(** *** Data model *)

(** [ProviderKind], a string type with these constants.  Modelled from the
    spec: [ProviderJan], the built-in platform-default kind of the spec, is
    used by the service but declared outside the sources at hand; its string
    is taken to be the scope label ["jan"] of the listing route. *)
Inductive ProviderKind :=
| ProviderJan
| ProviderOpenAI
| ProviderOpenRouter
| ProviderAnthropic
| ProviderGemini
| ProviderMistral
| ProviderGroq
| ProviderCohere
| ProviderOllama
| ProviderReplicate
| ProviderAzureOpenAI
| ProviderAWSBedrock
| ProviderPerplexity
| ProviderTogetherAI
| ProviderHuggingFace
| ProviderVercelAI
| ProviderDeepInfra
| ProviderCustom.

#[global] Instance ProviderKind_eq_dec : EqDecision ProviderKind.
Proof. solve_decision. Defined.

Definition kindString (k : ProviderKind) : string :=
  match k with
  | ProviderJan => "jan"
  | ProviderOpenAI => "openai"
  | ProviderOpenRouter => "openrouter"
  | ProviderAnthropic => "anthropic"
  | ProviderGemini => "gemini"
  | ProviderMistral => "mistral"
  | ProviderGroq => "groq"
  | ProviderCohere => "cohere"
  | ProviderOllama => "ollama"
  | ProviderReplicate => "replicate"
  | ProviderAzureOpenAI => "azure_openai"
  | ProviderAWSBedrock => "aws_bedrock"
  | ProviderPerplexity => "perplexity"
  | ProviderTogetherAI => "togetherai"
  | ProviderHuggingFace => "huggingface"
  | ProviderVercelAI => "vercel_ai"
  | ProviderDeepInfra => "deepinfra"
  | ProviderCustom => "custom"
  end.

(** Instants of [time.Time].  (A [uint] identifier is an [N].) *)
Definition Time := Z.

(** A [float64] (and a [float32], each of which is a [float64] too) is an
    IEEE 754 value. *)
Definition float := SpecFloat.spec_float.

(** [decimal.Decimal]: [coefficient * 10 ^ exponent]. *)
Record Decimal := mkDecimal { coefficient : Z; exponent : Z }.

(** A Go value of type [any], for the dynamic types the code inspects.  A
    [map[string]any] is the list of its entries, looked up by key. *)
#[local] Unset Elimination Schemes.
Inductive any :=
| AnyNil
| AnyBool (b : bool)
| AnyString (s : string)
| AnyInt (n : Z)
| AnyInt64 (n : Z)
| AnyFloat64 (f : float)
| AnyFloat32 (f : float)
| AnySlice (l : list any)
| AnyStrings (l : list string)
| AnyMap (m : list (string * any)).
#[local] Set Elimination Schemes.

Definition RawMap := list (string * any).

Fixpoint mapGet {V} (key : string) (m : list (string * V)) : option V :=
  match m with
  | [] => None
  | (k, v) :: m' => if bool_decide (k = key) then Some v else mapGet key m'
  end.

(** [m[key] = v]. *)
Fixpoint mapSet {V} (key : string) (v : V) (m : list (string * V)) : list (string * V) :=
  match m with
  | [] => [(key, v)]
  | (k, w) :: m' => if bool_decide (k = key) then (k, v) :: m' else (k, w) :: mapSet key v m'
  end.

(** [Provider], the aggregate root.  Modelled from the spec: the declaration
    at hand predates the optional owning project, which the spec lists among
    the attributes of a provider, and the metadata; the service and the
    routes read both as [ProjectID] and [Metadata]. *)
Module Provider.
Record t := mk {
  ID : N;
  PublicID : string;
  Slug : string;
  OrganizationID : option N;
  ProjectID : option N;
  DisplayName : string;
  Kind : ProviderKind;
  BaseURL : string;
  EncryptedAPIKey : string;
  APIKeyHint : option string;
  IsModerated : bool;
  Active : bool;
  Metadata : list (string * string);
  LastSyncedAt : option Time;
  CreatedAt : Time;
  UpdatedAt : Time
}.

Definition withID (id : N) (p : t) : t :=
  mk id (PublicID p) (Slug p) (OrganizationID p) (ProjectID p) (DisplayName p) (Kind p)
     (BaseURL p) (EncryptedAPIKey p) (APIKeyHint p) (IsModerated p) (Active p)
     (Metadata p) (LastSyncedAt p) (CreatedAt p) (UpdatedAt p).

Definition withDisplayName (name : string) (p : t) : t :=
  mk (ID p) (PublicID p) (Slug p) (OrganizationID p) (ProjectID p) name (Kind p)
     (BaseURL p) (EncryptedAPIKey p) (APIKeyHint p) (IsModerated p) (Active p)
     (Metadata p) (LastSyncedAt p) (CreatedAt p) (UpdatedAt p).

Definition withBaseURL (url : string) (p : t) : t :=
  mk (ID p) (PublicID p) (Slug p) (OrganizationID p) (ProjectID p) (DisplayName p) (Kind p)
     url (EncryptedAPIKey p) (APIKeyHint p) (IsModerated p) (Active p)
     (Metadata p) (LastSyncedAt p) (CreatedAt p) (UpdatedAt p).

Definition withAPIKey (cipher : string) (hint : option string) (p : t) : t :=
  mk (ID p) (PublicID p) (Slug p) (OrganizationID p) (ProjectID p) (DisplayName p) (Kind p)
     (BaseURL p) cipher hint (IsModerated p) (Active p)
     (Metadata p) (LastSyncedAt p) (CreatedAt p) (UpdatedAt p).

Definition withMetadata (meta : list (string * string)) (p : t) : t :=
  mk (ID p) (PublicID p) (Slug p) (OrganizationID p) (ProjectID p) (DisplayName p) (Kind p)
     (BaseURL p) (EncryptedAPIKey p) (APIKeyHint p) (IsModerated p) (Active p)
     meta (LastSyncedAt p) (CreatedAt p) (UpdatedAt p).

Definition withActive (active : bool) (p : t) : t :=
  mk (ID p) (PublicID p) (Slug p) (OrganizationID p) (ProjectID p) (DisplayName p) (Kind p)
     (BaseURL p) (EncryptedAPIKey p) (APIKeyHint p) (IsModerated p) active
     (Metadata p) (LastSyncedAt p) (CreatedAt p) (UpdatedAt p).

Definition withLastSyncedAt (at_ : option Time) (p : t) : t :=
  mk (ID p) (PublicID p) (Slug p) (OrganizationID p) (ProjectID p) (DisplayName p) (Kind p)
     (BaseURL p) (EncryptedAPIKey p) (APIKeyHint p) (IsModerated p) (Active p)
     (Metadata p) at_ (CreatedAt p) (UpdatedAt p).
End Provider.

(** [ProviderFilter].  Modelled from the spec: besides the fields of the
    declaration at hand the service sets [ProjectID], [ProjectIDs] and
    [WithoutProject], the three ways to select providers by project scope. *)
Module ProviderFilter.
Record t := mk {
  IDs : option (list N);
  PublicID : option string;
  Slug : option string;
  OrganizationID : option N;
  ProjectID : option N;
  ProjectIDs : option (list N);
  WithoutProject : option bool;
  Kind : option ProviderKind;
  Active : option bool;
  IsModerated : option bool
}.
Definition zero : t := mk None None None None None None None None None None.
End ProviderFilter.

(** Modelled from the spec: the status of a catalog entry, declared outside
    the sources at hand; the spec has it run through [init], [filled] and
    [updated]. *)
Inductive ModelCatalogStatus :=
| ModelCatalogStatusInit
| ModelCatalogStatusFilled
| ModelCatalogStatusUpdated.

#[global] Instance ModelCatalogStatus_eq_dec : EqDecision ModelCatalogStatus.
Proof. solve_decision. Defined.

(** Modelled from the spec: [SupportedParameters], [Architecture] and
    [ModelCatalog] are declared outside the sources at hand.  Their fields
    are those [buildModelCatalogFromModel] and [upsertCatalog] set, which
    are the attributes the spec lists for a catalog entry. *)
Record SupportedParameters := mkSupportedParameters {
  Names : list string;
  Default : list (string * option Decimal)
}.

Record Architecture := mkArchitecture {
  Modality : string;
  InputModalities : list string;
  OutputModalities : list string;
  Tokenizer : string;
  InstructType : option string
}.

Module ModelCatalog.
Record t := mk {
  ID : N;
  PublicID : string;
  SupportedParameters_ : SupportedParameters;
  Architecture_ : Architecture;
  Notes : option string;
  IsModerated : option bool;
  Extras : RawMap;
  Status : ModelCatalogStatus;
  LastSyncedAt : option Time;
  CreatedAt : Time
}.

Definition withID (id : N) (c : t) : t :=
  mk id (PublicID c) (SupportedParameters_ c) (Architecture_ c) (Notes c) (IsModerated c)
     (Extras c) (Status c) (LastSyncedAt c) (CreatedAt c).

Definition withPublicID (publicID : string) (c : t) : t :=
  mk (ID c) publicID (SupportedParameters_ c) (Architecture_ c) (Notes c) (IsModerated c)
     (Extras c) (Status c) (LastSyncedAt c) (CreatedAt c).

Definition withStatus (status : ModelCatalogStatus) (c : t) : t :=
  mk (ID c) (PublicID c) (SupportedParameters_ c) (Architecture_ c) (Notes c) (IsModerated c)
     (Extras c) status (LastSyncedAt c) (CreatedAt c).

Definition withLastSyncedAt (at_ : option Time) (c : t) : t :=
  mk (ID c) (PublicID c) (SupportedParameters_ c) (Architecture_ c) (Notes c) (IsModerated c)
     (Extras c) (Status c) at_ (CreatedAt c).

Definition withCreatedAt (at_ : Time) (c : t) : t :=
  mk (ID c) (PublicID c) (SupportedParameters_ c) (Architecture_ c) (Notes c) (IsModerated c)
     (Extras c) (Status c) (LastSyncedAt c) at_.
End ModelCatalog.

(** Modelled from the spec: the pricing and token-limit types and
    [ProviderModel] with its filter are declared outside the sources at
    hand.  Their fields are those the service sets; the spec lists them for
    the link between a provider and a catalog entry. *)
Inductive PriceUnit :=
| Per1KPromptTokens
| Per1KCompletionTokens
| PerRequest
| PerImage
| PerWebSearch
| PerInternalReasoning.

(** [MicroUSD] is an integer amount. *)
Record PriceLine := mkPriceLine { Unit_ : PriceUnit; Amount : Z; Currency : string }.

Record Pricing := mkPricing { Lines : list PriceLine }.

Record TokenLimits := mkTokenLimits { ContextLength : Z; MaxCompletionTokens : Z }.

Module ProviderModel.
Record t := mk {
  ID : N;
  PublicID : string;
  ProviderID : N;
  ModelCatalogID : option N;
  ModelKey : string;
  DisplayName : string;
  Pricing_ : Pricing;
  TokenLimits_ : option TokenLimits;
  Family : option string;
  SupportsImages : bool;
  SupportsEmbeddings : bool;
  SupportsReasoning : bool;
  Active : bool
}.

Definition withID (id : N) (pm : t) : t :=
  mk id (PublicID pm) (ProviderID pm) (ModelCatalogID pm) (ModelKey pm) (DisplayName pm)
     (Pricing_ pm) (TokenLimits_ pm) (Family pm) (SupportsImages pm)
     (SupportsEmbeddings pm) (SupportsReasoning pm) (Active pm).

Definition withPublicID (publicID : string) (pm : t) : t :=
  mk (ID pm) publicID (ProviderID pm) (ModelCatalogID pm) (ModelKey pm) (DisplayName pm)
     (Pricing_ pm) (TokenLimits_ pm) (Family pm) (SupportsImages pm)
     (SupportsEmbeddings pm) (SupportsReasoning pm) (Active pm).
End ProviderModel.

Module ProviderModelFilter.
Record t := mk {
  ProviderID : option N;
  ProviderIDs : option (list N);
  ModelKey : option string;
  Active : option bool
}.
Definition zero : t := mk None None None None.
End ProviderModelFilter.

(** [chatclient.Model] as the registry reads it.  Modelled from the spec:
    the declaration at hand has the four OpenAI fields only; the spec has a
    discovered model carry vendor-specific extra fields, which the service
    reads as [CanonicalSlug], [DisplayName] and the raw fields [Raw]. *)
Module ChatModel.
Record t := mk {
  ID : string;
  CanonicalSlug : string;
  DisplayName : string;
  Raw : RawMap
}.
End ChatModel.

(** *** Errors and results *)

(** Go's [error] values, and [common.Error], an error with a stable code. *)
Inductive error := errorString (msg : string).

Record CommonError := mkCommonError { GetError : error; GetCode : string }.

Definition NewError (err : error) (code : string) : CommonError := mkCommonError err code.

Definition NewErrorWithMessage (msg code : string) : CommonError :=
  mkCommonError (errorString msg) code.

(** The outcome of a call: a value, an error, a run-time panic, or a loop
    that the bounded unfolding below could not finish. *)
Inductive Outcome (E A : Type) :=
| Ok (a : A)
| Err (e : E)
| Panic
| OutOfFuel.
Arguments Ok {E A} a.
Arguments Err {E A} e.
Arguments Panic {E A}.
Arguments OutOfFuel {E A}.

(** *** The stores *)

(** The three tables, rows in insertion order, and the number of secure
    identifiers drawn so far (the state of the random source). *)
Record Store := mkStore {
  providers : list Provider.t;
  providerModels : list ProviderModel.t;
  modelCatalogs : list ModelCatalog.t;
  drawn : N
}.

Definition emptyStore : Store := mkStore [] [] [] 0.

(** A computation on the stores.  An error leaves the stores as they are at
    that point: nothing is rolled back. *)
Definition M (E A : Type) : Type := Store → Outcome E A * Store.

Definition ret {E A} (a : A) : M E A := λ s, (Ok a, s).

Definition fail {E A} (e : E) : M E A := λ s, (Err e, s).

Definition bind {E A B} (m : M E A) (k : A → M E B) : M E B :=
  λ s, match m s with
       | (Ok a, s') => k a s'
       | (Err e, s') => (Err e, s')
       | (Panic, s') => (Panic, s')
       | (OutOfFuel, s') => (OutOfFuel, s')
       end.

(** [if err != nil { return nil, common.NewError(err, code) }]. *)
Definition orError {A} (code : string) (m : M error A) : M CommonError A :=
  λ s, match m s with
       | (Ok a, s') => (Ok a, s')
       | (Err e, s') => (Err (NewError e code), s')
       | (Panic, s') => (Panic, s')
       | (OutOfFuel, s') => (OutOfFuel, s')
       end.

Notation "'let!' x ':=' m 'in' k" := (bind m (λ x, k))
  (at level 10, x name, m at level 100, k at level 200, only parsing).

Definition maxID (ids : list N) : N := foldr N.max 0%N ids.

(** Modelled from the spec: the repository implementations are not among
    the sources, only their interfaces and the schema of the providers
    table.  The spec has the Provider Store persist provider rows and
    provider-model rows and the Model Catalog Store persist one row per
    catalog identifier.  A table is the list of its rows; [Create] assigns
    the next primary key and appends, and on the providers table refuses a
    public identifier or slug already present (both carry a unique index);
    [Update] rewrites the row with the same primary key; a query returns
    the matching rows in table order.  A store operation fails in no other
    way. *)
Module providerRepo.

(** Modelled from the spec: the condition of a filter on a provider row,
    the conjunction of one condition per field that is set. *)
Definition matches (f : ProviderFilter.t) (p : Provider.t) : bool :=
  match ProviderFilter.IDs f with
  | Some ids => bool_decide (Provider.ID p ∈ ids) | None => true end
  && match ProviderFilter.PublicID f with
     | Some x => bool_decide (Provider.PublicID p = x) | None => true end
  && match ProviderFilter.Slug f with
     | Some x => bool_decide (Provider.Slug p = x) | None => true end
  && match ProviderFilter.OrganizationID f with
     | Some x => bool_decide (Provider.OrganizationID p = Some x) | None => true end
  && match ProviderFilter.ProjectID f with
     | Some x => bool_decide (Provider.ProjectID p = Some x) | None => true end
  && match ProviderFilter.ProjectIDs f with
     | Some xs => match Provider.ProjectID p with
                  | Some x => bool_decide (x ∈ xs) | None => false end
     | None => true end
  && match ProviderFilter.WithoutProject f with
     | Some true => bool_decide (Provider.ProjectID p = None) | _ => true end
  && match ProviderFilter.Kind f with
     | Some x => bool_decide (Provider.Kind p = x) | None => true end
  && match ProviderFilter.Active f with
     | Some x => bool_decide (Provider.Active p = x) | None => true end
  && match ProviderFilter.IsModerated f with
     | Some x => bool_decide (Provider.IsModerated p = x) | None => true end.

(** Modelled from the spec: [query.Pagination] with its [Limit], when one
    is given. *)
Definition limited {A} (limit : option nat) (rows : list A) : list A :=
  match limit with Some n => take n rows | None => rows end.

(** Modelled from the spec: the matching providers, in table order. *)
Definition FindByFilter (f : ProviderFilter.t) (limit : option nat)
  : M error (list Provider.t) :=
  λ s, (Ok (limited limit (filter (λ p, matches f p = true) (providers s))), s).

(** Modelled from the spec: the number of matching providers. *)
Definition Count (f : ProviderFilter.t) : M error N :=
  λ s, (Ok (N.of_nat (length (filter (λ p, matches f p = true) (providers s)))), s).

(** Modelled from the spec: persists a new provider under the next primary
    key, unless its public identifier or slug is taken. *)
Definition Create (p : Provider.t) : M error Provider.t :=
  λ s,
    if existsb (λ q, bool_decide (Provider.PublicID q = Provider.PublicID p)
                     || bool_decide (Provider.Slug q = Provider.Slug p)) (providers s)
    then (Err (errorString "duplicated key not allowed"), s)
    else
      let row := Provider.withID (N.succ (maxID (Provider.ID <$> providers s))) p in
      (Ok row, mkStore (providers s ++ [row]) (providerModels s) (modelCatalogs s) (drawn s)).

(** Modelled from the spec: rewrites the provider stored under the primary
    key of [p]. *)
Definition Update (p : Provider.t) : M error () :=
  λ s,
    let rows := (λ q, if bool_decide (Provider.ID q = Provider.ID p) then p else q)
                  <$> providers s in
    (Ok (), mkStore rows (providerModels s) (modelCatalogs s) (drawn s)).

End providerRepo.

Module providerModelRepo.

(** Modelled from the spec: the condition of a filter on a provider-model
    row. *)
Definition matches (f : ProviderModelFilter.t) (pm : ProviderModel.t) : bool :=
  match ProviderModelFilter.ProviderID f with
  | Some x => bool_decide (ProviderModel.ProviderID pm = x) | None => true end
  && match ProviderModelFilter.ProviderIDs f with
     | Some xs => bool_decide (ProviderModel.ProviderID pm ∈ xs) | None => true end
  && match ProviderModelFilter.ModelKey f with
     | Some x => bool_decide (ProviderModel.ModelKey pm = x) | None => true end
  && match ProviderModelFilter.Active f with
     | Some x => bool_decide (ProviderModel.Active pm = x) | None => true end.

(** Modelled from the spec: the matching provider-model rows, in table
    order. *)
Definition FindByFilter (f : ProviderModelFilter.t) (limit : option nat)
  : M error (list ProviderModel.t) :=
  λ s, (Ok (providerRepo.limited limit
              (filter (λ pm, matches f pm = true) (providerModels s))), s).

(** Modelled from the spec: persists a new provider-model row. *)
Definition Create (pm : ProviderModel.t) : M error ProviderModel.t :=
  λ s,
    let row := ProviderModel.withID
                 (N.succ (maxID (ProviderModel.ID <$> providerModels s))) pm in
    (Ok row, mkStore (providers s) (providerModels s ++ [row]) (modelCatalogs s) (drawn s)).

(** Modelled from the spec: rewrites the row stored under the primary key
    of [pm]. *)
Definition Update (pm : ProviderModel.t) : M error () :=
  λ s,
    let rows := (λ q, if bool_decide (ProviderModel.ID q = ProviderModel.ID pm)
                      then pm else q) <$> providerModels s in
    (Ok (), mkStore (providers s) rows (modelCatalogs s) (drawn s)).

End providerModelRepo.

Module modelCatalogRepo.

(** Modelled from the spec: the catalog entry with this public identifier.
    As [upsertCatalog] expects, the result is [nil] without an error when
    there is none. *)
Definition FindByPublicID (publicID : string) : M error (option ModelCatalog.t) :=
  λ s, (Ok (head (filter (λ c, ModelCatalog.PublicID c = publicID) (modelCatalogs s))), s).

(** Modelled from the spec: persists a new catalog entry. *)
Definition Create (c : ModelCatalog.t) : M error ModelCatalog.t :=
  λ s,
    let row := ModelCatalog.withID
                 (N.succ (maxID (ModelCatalog.ID <$> modelCatalogs s))) c in
    (Ok row, mkStore (providers s) (providerModels s) (modelCatalogs s ++ [row]) (drawn s)).

(** Modelled from the spec: rewrites the entry stored under the primary key
    of [c]. *)
Definition Update (c : ModelCatalog.t) : M error () :=
  λ s,
    let rows := (λ q, if bool_decide (ModelCatalog.ID q = ModelCatalog.ID c)
                      then c else q) <$> modelCatalogs s in
    (Ok (), mkStore (providers s) (providerModels s) rows (drawn s)).

End modelCatalogRepo.

(** *** Pure helpers of the service *)

Definition isSlugByte (c : ascii) : bool :=
  let n := N_of_ascii c in
  ((97 <=? n) && (n <=? 122) || (48 <=? n) && (n <=? 57))%N.

(** [slugRegex.ReplaceAllString(s, "-")] for [slugRegex = [^a-z0-9]+]: every
    maximal run of other bytes becomes one dash. *)
Fixpoint replaceRuns (inRun : bool) (s : string) : string :=
  match s with
  | EmptyString => EmptyString
  | String c s' =>
      if isSlugByte c then String c (replaceRuns false s')
      else if inRun then replaceRuns true s'
      else String "-" (replaceRuns true s')
  end.

Definition slugify (input : string) : string :=
  TrimByte "-" (replaceRuns false (ToLower (TrimSpace input))).

Definition slugCandidate (kind : ProviderKind) (name : string) : string :=
  kindString kind +:+ "-" +:+ name.

Definition normalizeURL (baseURL : string) : string :=
  TrimRightByte "/" (TrimSpace baseURL).

(** Go ranges over the map in an unspecified order; here in list order. *)
Definition sanitizeMetadata (meta : list (string * string)) : list (string * string) :=
  foldl (λ cleaned kv,
           let key := TrimSpace kv.1 in
           let value := TrimSpace kv.2 in
           if isEmpty key then cleaned else mapSet key value cleaned)
        [] meta.

Definition providerKindFromVendor (vendor : string) : ProviderKind :=
  let v := ToLower (TrimSpace vendor) in
  if bool_decide (v = "openrouter") then ProviderOpenRouter
  else if bool_decide (v = "openai") then ProviderOpenAI
  else if bool_decide (v = "anthropic") then ProviderAnthropic
  else if bool_decide (v = "gemini") || bool_decide (v = "google")
          || bool_decide (v = "googleai") then ProviderGemini
  else if bool_decide (v = "mistral") then ProviderMistral
  else if bool_decide (v = "groq") then ProviderGroq
  else if bool_decide (v = "cohere") then ProviderCohere
  else if bool_decide (v = "ollama") then ProviderOllama
  else if bool_decide (v = "replicate") then ProviderReplicate
  else if bool_decide (v = "azure_openai") || bool_decide (v = "azure-openai")
       then ProviderAzureOpenAI
  else if bool_decide (v = "aws_bedrock") || bool_decide (v = "bedrock")
       then ProviderAWSBedrock
  else if bool_decide (v = "perplexity") then ProviderPerplexity
  else if bool_decide (v = "togetherai") || bool_decide (v = "together")
       then ProviderTogetherAI
  else if bool_decide (v = "huggingface") then ProviderHuggingFace
  else if bool_decide (v = "vercel_ai") || bool_decide (v = "vercel-ai")
          || bool_decide (v = "vercel") then ProviderVercelAI
  else if bool_decide (v = "deepinfra") then ProviderDeepInfra
  else ProviderCustom.

Definition apiKeyHint (apiKey : string) : option string :=
  let key := TrimSpace apiKey in
  if String.length key <? 4 then None
  else Some (drop (String.length key - 4) key).

Definition catalogPublicID (model : ChatModel.t) : string :=
  let slug := slugify (ChatModel.CanonicalSlug model) in
  if negb (isEmpty slug) then slug else slugify (ChatModel.ID model).

Definition getString (raw : RawMap) (key : string) : string * bool :=
  match mapGet key raw with
  | Some (AnyString str) => (TrimSpace str, true)
  | _ => ("", false)
  end.

Definition extractStringSlice (value : option any) : list string :=
  match value with
  | Some (AnySlice arr) =>
      omap (λ item, match item with AnyString str => Some (TrimSpace str) | _ => None end) arr
  | Some (AnyStrings arr) => TrimSpace <$> arr
  | _ => []
  end.

Definition extractStringSliceFromMap (raw : RawMap) (k1 k2 : string) : list string :=
  match mapGet k1 raw with
  | Some (AnyMap m) => extractStringSlice (mapGet k2 m)
  | _ => []
  end.

Fixpoint hasPrefix (pre s : string) : bool :=
  match pre, s with
  | EmptyString, _ => true
  | String a pre', String b s' => bool_decide (a = b) && hasPrefix pre' s'
  | String _ _, EmptyString => false
  end.

(** [strings.Contains]. *)
Fixpoint Contains (s sub : string) : bool :=
  hasPrefix sub s
  || match s with
     | EmptyString => false
     | String _ s' => Contains s' sub
     end.

(** The part of [s] before the first [sep]: [strings.Split(s, sep)[0]]. *)
Fixpoint beforeByte (sep : ascii) (s : string) : string :=
  match s with
  | EmptyString => EmptyString
  | String c s' => if bool_decide (c = sep) then EmptyString else String c (beforeByte sep s')
  end.

Definition extractFamily (modelID : string) : option string :=
  if isEmpty modelID then None
  else if Contains modelID "/" then Some (beforeByte "/" modelID)
  else None.

Definition containsString (list_ : list string) (target : string) : bool :=
  let target := ToLower target in
  existsb (λ item, bool_decide (ToLower item = target)) list_.

Definition copyMap (source : RawMap) : RawMap := source.

(** The numeric libraries and the platform around the service: the decimal
    and conversion functions, [url.ParseRequestURI], [idgen], [crypto], the
    environment variables, the default organization and the clock. *)
Record Externals := mkExternals {
  NewFromString : string → option Decimal;
  NewFromFloat : float → Decimal;
  NewFromFloat32 : float → Decimal;
  NewFromInt : Z → Decimal;
  Mul : Decimal → Decimal → Decimal;
  IntPart : Decimal → Z;
  intOfFloat : float → Z;
  ParseRequestURI : string → option error;
  GenerateSecureID : string → nat → N → error + string;
  EncryptString : string → string → error + string;
  MODEL_PROVIDER_SECRET : string;
  JAN_INFERENCE_MODEL_URL : string;
  DEFAULT_ORGANIZATION : option N;
  now : Time
}.

Section Service.

Variable X : Externals.

Definition decimalToMicroUSD (d : Decimal) : Z :=
  IntPart X (Mul X d (NewFromInt X 1000000)).

Definition microUSDFromAny (value : any) : error + Z :=
  match value with
  | AnyString v =>
      if isEmpty (TrimSpace v) then inl (errorString "empty string")
      else match NewFromString X v with
           | None => inl (errorString "can't convert to decimal")
           | Some d => inr (decimalToMicroUSD d)
           end
  | AnyFloat64 v => inr (decimalToMicroUSD (NewFromFloat X v))
  | AnyFloat32 v => inr (decimalToMicroUSD (NewFromFloat32 X v))
  | _ => inl (errorString "unsupported pricing type")
  end.

Definition priceMappings : list (string * PriceUnit) :=
  [("prompt", Per1KPromptTokens); ("completion", Per1KCompletionTokens);
   ("request", PerRequest); ("image", PerImage); ("web_search", PerWebSearch);
   ("internal_reasoning", PerInternalReasoning)].

Definition extractPricing (value : option any) : Pricing :=
  match value with
  | Some (AnyMap pricingMap) =>
      mkPricing
        (omap (λ mapping : string * PriceUnit,
                 match mapGet mapping.1 pricingMap with
                 | Some amount =>
                     match microUSDFromAny amount with
                     | inr micro => Some (mkPriceLine mapping.2 micro "USD")
                     | inl _ => None
                     end
                 | None => None
                 end) priceMappings)
  | _ => mkPricing []
  end.

Definition intFromAny (value : option any) : Z :=
  match value with
  | Some (AnyInt v) => v
  | Some (AnyInt64 v) => v
  | Some (AnyFloat64 v) => intOfFloat X v
  | Some (AnyFloat32 v) => intOfFloat X v
  | Some (AnyString v) =>
      if isEmpty (TrimSpace v) then 0%Z
      else match NewFromString X v with
           | Some parsed => IntPart X parsed
           | None => 0%Z
           end
  | _ => 0%Z
  end.

Definition extractTokenLimits (raw : RawMap) : option TokenLimits :=
  let '(contextLength, completionLength) :=
    match mapGet "top_provider" raw with
    | Some (AnyMap topProvider) =>
        (intFromAny (mapGet "context_length" topProvider),
         intFromAny (mapGet "max_completion_tokens" topProvider))
    | _ => (0%Z, 0%Z)
    end in
  let contextLength :=
    if bool_decide (contextLength = 0%Z) then intFromAny (mapGet "context_length" raw)
    else contextLength in
  let completionLength :=
    if bool_decide (completionLength = 0%Z)
    then intFromAny (mapGet "max_completion_tokens" raw)
    else completionLength in
  if bool_decide (contextLength = 0%Z) && bool_decide (completionLength = 0%Z) then None
  else Some (mkTokenLimits contextLength completionLength).

Definition extractDefaultParameters (value : option any) : list (string * option Decimal) :=
  match value with
  | Some (AnyMap params) =>
      foldl (λ result kv,
               match kv.2 with
               | AnyNil => mapSet kv.1 None result
               | AnyString v =>
                   if isEmpty (TrimSpace v) then mapSet kv.1 None result
                   else match NewFromString X v with
                        | Some d => mapSet kv.1 (Some d) result
                        | None => result
                        end
               | AnyFloat64 v => mapSet kv.1 (Some (NewFromFloat X v)) result
               | AnyFloat32 v => mapSet kv.1 (Some (NewFromFloat32 X v)) result
               | _ => result
               end)
            [] params
  | _ => []
  end.

Definition buildModelCatalogFromModel (kind : ProviderKind) (model : ChatModel.t)
  : ModelCatalog.t :=
  let status :=
    if bool_decide (kind = ProviderOpenRouter) then ModelCatalogStatusFilled
    else ModelCatalogStatusInit in
  let raw := ChatModel.Raw model in
  let notes :=
    match getString raw "description" with
    | (desc, true) => if isEmpty desc then None else Some desc
    | _ => None
    end in
  let supportedParameters :=
    mkSupportedParameters (extractStringSlice (mapGet "supported_parameters" raw))
                          (extractDefaultParameters (mapGet "default_parameters" raw)) in
  let architecture :=
    match mapGet "architecture" raw with
    | Some (AnyMap archMap) =>
        mkArchitecture
          (getString archMap "modality").1
          (extractStringSlice (mapGet "input_modalities" archMap))
          (extractStringSlice (mapGet "output_modalities" archMap))
          (getString archMap "tokenizer").1
          match getString archMap "instruct_type" with
          | (instructType, true) => if isEmpty instructType then None else Some instructType
          | _ => None
          end
    | _ => mkArchitecture "" [] [] "" None
    end in
  let isModerated :=
    match mapGet "top_provider" raw with
    | Some (AnyMap topProvider) =>
        match mapGet "is_moderated" topProvider with
        | Some (AnyBool moderated) => Some moderated
        | _ => None
        end
    | _ => None
    end in
  let extras := copyMap raw in
  ModelCatalog.mk 0 "" supportedParameters architecture notes isModerated extras status
                  None 0%Z.

Definition buildProviderModelFromRaw (provider : Provider.t) (catalogID : option N)
    (model : ChatModel.t) : ProviderModel.t :=
  let raw := ChatModel.Raw model in
  let pricing := extractPricing (mapGet "pricing" raw) in
  let tokenLimits := extractTokenLimits raw in
  let family := extractFamily (ChatModel.ID model) in
  let supportsImages :=
    containsString (extractStringSliceFromMap raw "architecture" "input_modalities")
                   "image" in
  let supportsReasoning :=
    containsString (extractStringSlice (mapGet "supported_parameters" raw))
                   "include_reasoning" in
  let displayName :=
    if isEmpty (ChatModel.DisplayName model) then ChatModel.ID model
    else ChatModel.DisplayName model in
  ProviderModel.mk 0 "" (Provider.ID provider) catalogID (ChatModel.ID model) displayName
                   pricing tokenLimits family supportsImages
                   (Contains (ToLower (ChatModel.ID model)) "embed")
                   supportsReasoning (Provider.Active provider).

(** [updateProviderModelFromRaw] writes through its pointer; it yields the
    updated row. *)
Definition updateProviderModelFromRaw (pm : ProviderModel.t) (provider : Provider.t)
    (catalogID : option N) (model : ChatModel.t) : ProviderModel.t :=
  let raw := ChatModel.Raw model in
  let displayName :=
    if isEmpty (ChatModel.DisplayName model) then ChatModel.ID model
    else ChatModel.DisplayName model in
  ProviderModel.mk (ProviderModel.ID pm) (ProviderModel.PublicID pm)
                   (ProviderModel.ProviderID pm) catalogID (ProviderModel.ModelKey pm)
                   displayName
                   (extractPricing (mapGet "pricing" raw))
                   (extractTokenLimits raw)
                   (extractFamily (ChatModel.ID model))
                   (containsString
                      (extractStringSliceFromMap raw "architecture" "input_modalities")
                      "image")
                   (Contains (ToLower (ChatModel.ID model)) "embed")
                   (containsString
                      (extractStringSlice (mapGet "supported_parameters" raw))
                      "include_reasoning")
                   (Provider.Active provider).

End Service.

(** *** The service *)

Module RegisterProviderInput.
Record t := mk {
  OrganizationID : N;
  ProjectID : N;
  Name : string;
  Vendor : string;
  BaseURL : string;
  APIKey : string;
  Metadata : list (string * string);
  Active : bool
}.
End RegisterProviderInput.

Module UpdateProviderInput.
Record t := mk {
  Name : option string;
  BaseURL : option string;
  APIKey : option string;
  Metadata : option (list (string * string));
  Active : option bool
}.
End UpdateProviderInput.

Record ProviderModelSyncResult := mkSyncResult {
  SyncedProviderModel : ProviderModel.t;
  SyncedCatalog : ModelCatalog.t
}.

Record ProviderRegistrationResult := mkRegistrationResult {
  RegisteredProvider : Provider.t;
  RegisteredModels : list ProviderModelSyncResult
}.

Section Registry.

Variable X : Externals.

(** [idgen.GenerateSecureID]: one draw from the random source. *)
Definition secureID (prefix : string) (n : nat) : M error string :=
  λ s,
    let s' := mkStore (providers s) (providerModels s) (modelCatalogs s) (N.succ (drawn s)) in
    match GenerateSecureID X prefix n (drawn s) with
    | inr id => (Ok id, s')
    | inl err => (Err err, s')
    end.

(** The loop of [generateUniqueSlug], unfolded at most [fuel] times. *)
Fixpoint generateUniqueSlugLoop (fuel : nat) (candidate slug : string) (counter : N)
  : M error string :=
  match fuel with
  | O => λ s, (OutOfFuel, s)
  | S fuel' =>
      let filter :=
        ProviderFilter.mk None None (Some slug) None None None None None None None in
      let! result := providerRepo.FindByFilter filter (Some 1) in
      if bool_decide (length result = 0) then ret slug
      else
        let counter := (counter + 1)%N in
        generateUniqueSlugLoop fuel' candidate (candidate +:+ "-" +:+ pretty counter) counter
  end.

(** Among the base slug and the slugs numbered 2, 3, ... one more than there
    are providers suffices. *)
Definition generateUniqueSlug (base : string) : M error string :=
  λ s,
    let candidate := if isEmpty (slugify base) then "provider" else slugify base in
    generateUniqueSlugLoop (S (length (providers s))) candidate candidate 1 s.

Definition RegisterProvider (input : RegisterProviderInput.t)
  : M CommonError ProviderRegistrationResult :=
  let name := TrimSpace (RegisterProviderInput.Name input) in
  if isEmpty name then
    fail (NewErrorWithMessage "provider name is required"
                              "64f1d0d7-4a41-49e9-a4f5-61226c0b83c5")
  else
  let baseURL := TrimSpace (RegisterProviderInput.BaseURL input) in
  if isEmpty baseURL then
    fail (NewErrorWithMessage "base_url is required" "9f0f7d62-4bbd-4d61-980e-dfc4d67a45f1")
  else
  match ParseRequestURI X baseURL with
  | Some err => fail (NewError err "6c04d2f8-c39a-41a4-8d4a-0c2787b6ee2f")
  | None =>
  let kind := providerKindFromVendor (RegisterProviderInput.Vendor input) in
  match DEFAULT_ORGANIZATION X with
  | None => λ s, (Panic, s)
  | Some defaultOrganizationID =>
  let orgIDValue :=
    if bool_decide (RegisterProviderInput.OrganizationID input ≠ 0%N)
    then RegisterProviderInput.OrganizationID input
    else defaultOrganizationID in
  let organizationID := Some orgIDValue in
  let projectID :=
    if bool_decide (RegisterProviderInput.ProjectID input ≠ 0%N)
    then Some (RegisterProviderInput.ProjectID input)
    else None in
  let! _ :=
    if bool_decide (kind ≠ ProviderCustom) then
      let filter :=
        match projectID with
        | Some _ =>
            ProviderFilter.mk None None None organizationID projectID None None
                              (Some kind) None None
        | None =>
            ProviderFilter.mk None None None organizationID None None (Some true)
                              (Some kind) None None
        end in
      let! count :=
        orError "5dc6de3c-d6df-410c-9329-48a306d0e4f7" (providerRepo.Count filter) in
      if (0 <? count)%N then
        fail (NewErrorWithMessage "provider kind already exists"
                                  "323d2e23-4a8a-4f89-b090-4d49a0b0ca12")
      else ret ()
    else ret () in
  let! slug :=
    orError "6df1386c-5aa0-4105-9366-74ad8637bd1a"
            (generateUniqueSlug (slugCandidate kind name)) in
  let! publicID :=
    orError "2d3d6c9a-5f36-4de2-8f5f-77f8401d5dd4" (secureID "prov" 24) in
  let plainAPIKey := TrimSpace (RegisterProviderInput.APIKey input) in
  let apiKeyHint_ := apiKeyHint plainAPIKey in
  let! encryptedAPIKey :=
    if negb (isEmpty plainAPIKey) then
      let secret := TrimSpace (MODEL_PROVIDER_SECRET X) in
      if isEmpty secret then
        fail (NewErrorWithMessage "model provider secret is not configured"
                                  "2f2a5cf4-5f2d-49ca-9e60-dfb09efc3a9e")
      else
        match EncryptString X secret plainAPIKey with
        | inl err => fail (NewError err "5d0d8f02-bf6f-4e1f-9f04-2a4dd21f4c81")
        | inr cipher => ret cipher
        end
    else ret "" in
  let metadata := sanitizeMetadata (RegisterProviderInput.Metadata input) in
  let provider :=
    Provider.mk 0 publicID slug organizationID projectID name kind (normalizeURL baseURL)
                encryptedAPIKey apiKeyHint_ false (RegisterProviderInput.Active input)
                metadata None 0%Z 0%Z in
  let! provider :=
    orError "5c1db208-0f8c-4c2b-90d9-5112e9cf2a47" (providerRepo.Create provider) in
  ret (mkRegistrationResult provider [])
  end
  end.

Definition upsertCatalog (kind : ProviderKind) (model : ChatModel.t)
  : M CommonError ModelCatalog.t :=
  let publicID := catalogPublicID model in
  let! existing :=
    orError "35248ec0-0c17-4b73-b2ff-67955ad9b671"
            (modelCatalogRepo.FindByPublicID publicID) in
  let catalog := buildModelCatalogFromModel X kind model in
  let catalog := ModelCatalog.withPublicID publicID catalog in
  let catalog := ModelCatalog.withLastSyncedAt (Some (now X)) catalog in
  match existing with
  | Some existing =>
      let catalog := ModelCatalog.withID (ModelCatalog.ID existing) catalog in
      let catalog := ModelCatalog.withCreatedAt (ModelCatalog.CreatedAt existing) catalog in
      if bool_decide (ModelCatalog.Status existing = ModelCatalogStatusFilled)
         || bool_decide (ModelCatalog.Status existing = ModelCatalogStatusUpdated)
      then ret existing
      else
        let catalog :=
          if bool_decide (ModelCatalog.Status catalog = ModelCatalogStatusFilled)
             && bool_decide (ModelCatalog.Status existing = ModelCatalogStatusUpdated)
          then ModelCatalog.withStatus (ModelCatalog.Status existing) catalog
          else catalog in
        let! _ :=
          orError "9f5f9694-1a35-4cb4-b01e-0d531831df6e" (modelCatalogRepo.Update catalog) in
        ret catalog
  | None =>
      let! catalog :=
        orError "b3a1c6aa-0db5-4ef8-9f68-bebc56a149d9" (modelCatalogRepo.Create catalog) in
      ret catalog
  end.

Definition upsertProviderModel (provider : Provider.t) (catalog : option ModelCatalog.t)
    (model : ChatModel.t) : M CommonError ProviderModel.t :=
  let modelKey := TrimSpace (ChatModel.ID model) in
  if isEmpty modelKey then
    fail (NewErrorWithMessage "model identifier missing"
                              "1c5c6609-6df1-41b0-8fd9-2fa337eb0050")
  else
  let filter :=
    ProviderModelFilter.mk (Some (Provider.ID provider)) None (Some modelKey) None in
  let! existing :=
    orError "5bcbced8-1a07-48cf-8b96-2d216af7ff58"
            (providerModelRepo.FindByFilter filter (Some 1)) in
  let catalogID := ModelCatalog.ID <$> catalog in
  match existing with
  | pm :: _ =>
      let pm := updateProviderModelFromRaw X pm provider catalogID model in
      let! _ :=
        orError "19a79680-ae69-4b71-9be3-daa13cbbef16" (providerModelRepo.Update pm) in
      ret pm
  | [] =>
      let! publicID :=
        orError "62e9b0fb-a7f6-435c-9436-955f57843c73" (secureID "pmdl" 32) in
      let pm := buildProviderModelFromRaw X provider catalogID model in
      let pm := ProviderModel.withPublicID publicID pm in
      let! pm :=
        orError "2f0d0864-d0b0-4f4c-90c5-5e4eb2c451e5" (providerModelRepo.Create pm) in
      ret pm
  end.

(** The loop of [syncModels]: [results] holds the pairs appended so far. *)
Fixpoint syncLoop (provider : Provider.t) (results : list ProviderModelSyncResult)
    (models : list ChatModel.t) : M CommonError (list ProviderModelSyncResult) :=
  match models with
  | [] => ret results
  | model :: rest =>
      let! catalog := upsertCatalog (Provider.Kind provider) model in
      let! providerModel := upsertProviderModel provider (Some catalog) model in
      syncLoop provider (results ++ [mkSyncResult providerModel catalog]) rest
  end.

Definition syncModels (provider : Provider.t) (models : list ChatModel.t)
  : M CommonError (list ProviderModelSyncResult) :=
  syncLoop provider [] models.

Definition SyncProviderModels (provider : option Provider.t) (models : list ChatModel.t)
  : M CommonError (list ProviderModelSyncResult) :=
  match provider with
  | None =>
      fail (NewErrorWithMessage "provider is required"
                                "8c278cf1-43a9-4f45-bf3c-28769b12f3fd")
  | Some provider =>
      let! syncResults := syncModels provider models in
      let provider := Provider.withLastSyncedAt (Some (now X)) provider in
      let! _ :=
        orError "7fce47f4-67dd-47a3-93d6-3569b9d6d4f3" (providerRepo.Update provider) in
      ret syncResults
  end.

(** [UpdateProvider] mutates the provider it is given, also when it fails
    later on; the value returned on success is that provider. *)
Definition UpdateProvider (provider : Provider.t) (input : UpdateProviderInput.t)
  : M CommonError Provider.t :=
  let! provider :=
    match UpdateProviderInput.Name input with
    | Some n =>
        let name := TrimSpace n in
        if isEmpty name then
          fail (NewErrorWithMessage "provider name is required"
                                    "f65f5ec0-d9de-42da-8ae8-91f7f16c470a")
        else ret (Provider.withDisplayName name provider)
    | None => ret provider
    end in
  let! provider :=
    match UpdateProviderInput.BaseURL input with
    | Some u =>
        let baseURL := TrimSpace u in
        if isEmpty baseURL then
          fail (NewErrorWithMessage "base_url is required"
                                    "6eaf9ef7-281b-45f7-9b8d-668f6d2f5d8e")
        else
          match ParseRequestURI X baseURL with
          | Some err => fail (NewError err "1fbfba8e-4fa9-4e06-8132-8d6754d88d5f")
          | None => ret (Provider.withBaseURL (normalizeURL baseURL) provider)
          end
    | None => ret provider
    end in
  let! provider :=
    match UpdateProviderInput.APIKey input with
    | Some k =>
        let key := TrimSpace k in
        if isEmpty key then ret (Provider.withAPIKey "" None provider)
        else
          let secret := TrimSpace (MODEL_PROVIDER_SECRET X) in
          if isEmpty secret then
            fail (NewErrorWithMessage "model provider secret is not configured"
                                      "ae950cb5-2f5a-4415-bc15-eec48c92610a")
          else
            match EncryptString X secret key with
            | inl err => fail (NewError err "b5bd5d1c-7811-4dd3-9f3c-43f0cb14e1f4")
            | inr cipher => ret (Provider.withAPIKey cipher (apiKeyHint key) provider)
            end
    | None => ret provider
    end in
  let provider :=
    match UpdateProviderInput.Metadata input with
    | Some meta => Provider.withMetadata (sanitizeMetadata meta) provider
    | None => provider
    end in
  let provider :=
    match UpdateProviderInput.Active input with
    | Some active => Provider.withActive active provider
    | None => provider
    end in
  let! _ :=
    orError "3f3a055d-a4d7-4dd2-8795-2b5e9b6d7677" (providerRepo.Update provider) in
  ret provider.

(** The closure [appendUnique] of [ListAccessibleProviders], on the pair of
    [result] and [seen].  (The repositories return no nil provider, so the
    nil checks of the source have no case here.) *)
Definition appendUnique (items : list Provider.t) (acc : list Provider.t * gset N)
  : list Provider.t * gset N :=
  foldl (λ acc provider,
           if bool_decide (Provider.ID provider ∈ acc.2) then acc
           else (acc.1 ++ [provider], {[Provider.ID provider]} ∪ acc.2))
        acc items.

Definition ListAccessibleProviders (organizationID : N) (projectIDs : list N)
  : M error (list Provider.t) :=
  let orgID := Some organizationID in
  let! acc :=
    if bool_decide (0 < length projectIDs) then
      let! projectProviders :=
        providerRepo.FindByFilter
          (ProviderFilter.mk None None None orgID None (Some projectIDs) None None None None)
          None in
      ret (appendUnique projectProviders ([], ∅))
    else ret ([], ∅) in
  let! orgProviders :=
    providerRepo.FindByFilter
      (ProviderFilter.mk None None None orgID None None (Some true) None None None) None in
  let acc := appendUnique orgProviders acc in
  match DEFAULT_ORGANIZATION X with
  | Some defaultOrganizationID =>
      let! globalProviders :=
        providerRepo.FindByFilter
          (ProviderFilter.mk None None None (Some defaultOrganizationID) None None
                             (Some true) None None None) None in
      ret (appendUnique globalProviders acc).1
  | None => ret acc.1
  end.

Definition ListProviderModels (providerIDs : list N) : M error (list ProviderModel.t) :=
  if bool_decide (length providerIDs = 0) then ret []
  else
    providerModelRepo.FindByFilter
      (ProviderModelFilter.mk None (Some providerIDs) None (Some true)) None.

Definition GetProviderForModel (modelKey : string) (organizationID : N)
    (projectIDs : list N) : M error Provider.t :=
  if isEmpty (TrimSpace modelKey) then fail (errorString "model key is required")
  else
  let! providers_ := ListAccessibleProviders organizationID projectIDs in
  if bool_decide (length providers_ = 0)
  then fail (errorString "no accessible providers found")
  else
  let providerIDs := Provider.ID <$> providers_ in
  if bool_decide (length providerIDs = 0)
  then fail (errorString "no accessible providers found")
  else
  let! providerModels_ :=
    providerModelRepo.FindByFilter
      (ProviderModelFilter.mk None (Some providerIDs) (Some modelKey) (Some true)) None in
  if bool_decide (length providerModels_ = 0)
  then fail (errorString ("model '" +:+ modelKey +:+ "' not found in accessible providers"))
  else
  let hasModel : gset N := list_to_set (ProviderModel.ProviderID <$> providerModels_) in
  match find (λ provider, bool_decide (Provider.ID provider ∈ hasModel)) providers_ with
  | Some provider => ret provider
  | None => fail (errorString ("no valid provider found for model '" +:+ modelKey +:+ "'"))
  end.

Definition DefaultProvider : Provider.t :=
  Provider.mk 0 "" "" None None "Jan" ProviderJan (JAN_INFERENCE_MODEL_URL X) "" None
              false true [] None 0%Z 0%Z.

(** The result is the provider, the flag and the error, as in the source. *)
Definition GetProviderForModelOrDefault (modelKey : string) (organizationID : N)
    (projectIDs : list N) : M error (Provider.t * bool * option error) :=
  λ s,
    match GetProviderForModel modelKey organizationID projectIDs s with
    | (Ok provider, s') => (Ok (provider, false, None), s')
    | (Err err, s') => (Ok (DefaultProvider, true, Some err), s')
    | (Panic, s') => (Panic, s')
    | (OutOfFuel, s') => (OutOfFuel, s')
    end.

End Registry.

(** *** Notions used to state the properties *)

(** The provider [p] has an active provider-model row for [modelKey]. *)
Definition serves (s : Store) (p : Provider.t) (modelKey : string) : Prop :=
  ∃ pm, pm ∈ providerModels s
        ∧ ProviderModel.ProviderID pm = Provider.ID p
        ∧ ProviderModel.ModelKey pm = modelKey
        ∧ ProviderModel.Active pm = true.

(** The providers [ListAccessibleProviders] returns, in its order. *)
Definition accessibleProviders (X : Externals) (organizationID : N)
    (projectIDs : list N) (s : Store) : list Provider.t :=
  match ListAccessibleProviders X organizationID projectIDs s with
  | (Ok providers_, _) => providers_
  | _ => []
  end.

(** [p] belongs to the organization and to one of the projects. *)
Definition projectScoped (organizationID : N) (projectIDs : list N)
    (p : Provider.t) : Prop :=
  Provider.OrganizationID p = Some organizationID
  ∧ ∃ j, Provider.ProjectID p = Some j ∧ j ∈ projectIDs.






(** One turn of the loop of [syncModels]. *)
Definition syncStep (X : Externals) (provider : Provider.t) (model : ChatModel.t)
  : M CommonError ProviderModelSyncResult :=
  let! catalog := upsertCatalog X (Provider.Kind provider) model in
  let! providerModel := upsertProviderModel X provider (Some catalog) model in
  ret (mkSyncResult providerModel catalog).

Definition missingKeyCode : string := "1c5c6609-6df1-41b0-8fd9-2fa337eb0050".

(** A sync that ends with an error other than a missing model key has
    nevertheless given every model of the batch its catalog entry. *)
Definition abortsOnlyOnMissingKey (X : Externals) (provider : Provider.t)
    (models : list ChatModel.t) (s : Store) : Prop :=
  ∀ e s', syncModels X provider models s = (Err e, s') →
          GetCode e ≠ missingKeyCode →
          ∀ m, m ∈ models →
               ∃ c, c ∈ modelCatalogs s' ∧ ModelCatalog.PublicID c = catalogPublicID m.


End ProviderRegistry.

(** ** Package [chat]: the completion route *)

Module CompletionAPI.
Import GoStrings ProviderRegistry.

Record ChatCompletionMessage := mkMessage { Role : string; Content : string }.

(** [openai.ChatCompletionRequest]: the fields the route reads; the sampling
    parameters travel to the backend untouched. *)
Record ChatCompletionRequest := mkRequest {
  Model : string;
  Messages : list ChatCompletionMessage;
  Stream : bool
}.

Record ErrorResponse := mkErrorResponse {
  Code : string;
  Error : string;
  ErrorInstance : option error
}.

Record User := mkUser { UserID : N }.

Record Project := mkProject { ProjectID : N; ProjectPublicID : string }.

(** What the handler needs from the request context and its collaborators:
    the user set by the authentication middleware, the outcome of
    [projectService.Find], and the backend behind
    [inferenceProvider.GetChatCompletionClient] with its two calls. *)
Section Handler.

Variable Response : Type.
Variable X : Externals.

Record Collaborators := mkCollaborators {
  GetUserFromContext : option User;
  FindProjects : N → N → error + list Project;
  GetChatCompletionClient : Provider.t → option error;
  CreateChatCompletion : Provider.t → ChatCompletionRequest → error + Response;
  StreamChatCompletionToContext : Provider.t → ChatCompletionRequest → option error
}.

(** The calls that leave the handler, in order. *)
Inductive Call :=
| CallFindProjects
| CallGetProviderForModelOrDefault (modelKey : string)
| CallGetChatCompletionClient (provider : Provider.t)
| CallCreateChatCompletion (provider : Provider.t)
| CallStreamChatCompletionToContext (provider : Provider.t).

Definition isBackendCall (c : Call) : bool :=
  match c with
  | CallGetChatCompletionClient _
  | CallCreateChatCompletion _
  | CallStreamChatCompletionToContext _ => true
  | _ => false
  end.

(** What the handler writes to the client. *)
Inductive Written :=
| AbortWithStatusJSON (status : nat) (body : ErrorResponse)
| JSON (status : nat) (body : Response)
| Streamed.

Variable C : Collaborators.

(** [getProviderForModel]: the provider and the calls made.  It returns no
    error on any path. *)
Definition getProviderForModel (modelKey : string) (s : Store)
  : Outcome CommonError Provider.t * list Call :=
  match GetUserFromContext C with
  | None => (Ok (DefaultProvider X), [])
  | Some user =>
      match DEFAULT_ORGANIZATION X with
      | None => (Panic, [])
      | Some orgID =>
          let memberID := UserID user in
          match FindProjects C orgID memberID with
          | inl _ => (Ok (DefaultProvider X), [CallFindProjects])
          | inr projects =>
              let projectIDs := ProjectID <$> projects in
              match GetProviderForModelOrDefault X modelKey orgID projectIDs s with
              | (Ok (provider, _, _), _) =>
                  (Ok provider,
                   [CallFindProjects; CallGetProviderForModelOrDefault modelKey])
              | (Err _, _) | (OutOfFuel, _) | (Panic, _) =>
                  (Panic, [CallFindProjects; CallGetProviderForModelOrDefault modelKey])
              end
          end
      end
  end.

Definition CallCompletionAndGetRestResponse (provider : Provider.t)
    (request : ChatCompletionRequest) : (CommonError + Response) * list Call :=
  match GetChatCompletionClient C provider with
  | Some err =>
      (inl (NewError err "0199600c-3b65-7618-83ca-443a583d91c8"),
       [CallGetChatCompletionClient provider])
  | None =>
      match CreateChatCompletion C provider request with
      | inl err =>
          (inl (NewError err "0199600c-3b65-7618-83ca-443a583d91c9"),
           [CallGetChatCompletionClient provider; CallCreateChatCompletion provider])
      | inr response =>
          (inr response,
           [CallGetChatCompletionClient provider; CallCreateChatCompletion provider])
      end
  end.

Definition StreamCompletionResponse (provider : Provider.t)
    (request : ChatCompletionRequest) : option CommonError * list Call :=
  match GetChatCompletionClient C provider with
  | Some err =>
      (Some (NewError err "bc82d69c-685b-4556-9d1f-2a4a80ae8ca3"),
       [CallGetChatCompletionClient provider])
  | None =>
      match StreamChatCompletionToContext C provider request with
      | Some err =>
          (Some (NewError err "bc82d69c-685b-4556-9d1f-2a4a80ae8ca4"),
           [CallGetChatCompletionClient provider;
            CallStreamChatCompletionToContext provider])
      | None =>
          (None,
           [CallGetChatCompletionClient provider;
            CallStreamChatCompletionToContext provider])
      end
  end.

(** [PostCompletion]; [bound] is the outcome of [ShouldBindJSON].  [None]
    for what is written stands for a handler that panicked. *)
Definition PostCompletion (bound : error + ChatCompletionRequest) (s : Store)
  : option Written * list Call :=
  match bound with
  | inl err =>
      (Some (AbortWithStatusJSON 400
               (mkErrorResponse "0199600b-86d3-7339-8402-8ef1c7840475" "" (Some err))),
       [])
  | inr request =>
      if bool_decide (length (Messages request) = 0) then
        (Some (AbortWithStatusJSON 400
                 (mkErrorResponse "0199600f-2cbe-7518-be5c-9989cce59472"
                                  "messages cannot be empty" None)),
         [])
      else
        match getProviderForModel (Model request) s with
        | (Err providerErr, calls) =>
            (Some (AbortWithStatusJSON 400
                     (mkErrorResponse (GetCode providerErr) ""
                                      (Some (GetError providerErr)))),
             calls)
        | (Panic, calls) | (OutOfFuel, calls) => (None, calls)
        | (Ok provider, calls) =>
            if Stream request then
              match StreamCompletionResponse provider request with
              | (Some err, calls') =>
                  (Some (AbortWithStatusJSON 400
                           (mkErrorResponse (GetCode err) "" (Some (GetError err)))),
                   calls ++ calls')
              | (None, calls') => (Some Streamed, calls ++ calls')
              end
            else
              match CallCompletionAndGetRestResponse provider request with
              | (inl err, calls') =>
                  (Some (AbortWithStatusJSON 400
                           (mkErrorResponse (GetCode err) "" (Some (GetError err)))),
                   calls ++ calls')
              | (inr response, calls') => (Some (JSON 200 response), calls ++ calls')
              end
        end
  end.

End Handler.

End CompletionAPI.

(** ** Package [modelroute]: the provider listing route *)

Module ProvidersAPI.
Import GoStrings ProviderRegistry.

Record providerSummary := mkSummary {
  ID : string;
  Slug : string;
  Name : string;
  Vendor : string;
  BaseURL : string;
  Active : bool;
  Metadata : list (string * string);
  Scope : string;
  ProjectID : option string
}.

Definition scopeOrder : list (string * nat) :=
  [("jan", 0); ("organization", 1); ("project", 2)].

Definition getScopeOrder (scope : string) : nat :=
  match mapGet scope scopeOrder with
  | Some order => order
  | None => length scopeOrder
  end.

(** The comparison handed to [sort.Slice]; [<] on Go strings compares byte
    by byte. *)
Definition less (a b : providerSummary) : bool :=
  if bool_decide (Scope a = Scope b) then String.ltb (Name a) (Name b)
  else getScopeOrder (Scope a) <? getScopeOrder (Scope b).

(** [sort.Slice] sorts by [less] and promises no order among elements that
    [less] does not separate.  It is embedded as an insertion sort; the
    properties below are those of every sort by [less]. *)
Fixpoint insertBy {A} (lt : A → A → bool) (x : A) (l : list A) : list A :=
  match l with
  | [] => [x]
  | y :: l' => if lt x y then x :: y :: l' else y :: insertBy lt x l'
  end.

Definition sortSlice {A} (lt : A → A → bool) (l : list A) : list A :=
  foldr (insertBy lt) [] l.

(** The scope label of the current route: a provider without organization
    is the built-in one. *)
Definition scopeOf (provider : Provider.t) : string :=
  match Provider.ProjectID provider with
  | Some _ => "project"
  | None =>
      match Provider.OrganizationID provider with
      | None => "jan"
      | Some _ => "organization"
      end
  end.

(** The scope label of the earlier route, which reads the default
    organization; [orgID] is the organization of the caller. *)
Definition scopeOfV1 (defaultOrganization : option N) (orgID : N)
    (provider : Provider.t) : string :=
  match Provider.ProjectID provider with
  | Some _ => "project"
  | None =>
      match Provider.OrganizationID provider with
      | Some organizationID =>
          match defaultOrganization with
          | Some defaultID =>
              if bool_decide (organizationID = defaultID)
                 && bool_decide (defaultID ≠ orgID)
              then "jan" else "organization"
          | None => "organization"
          end
      | None => "jan"
      end
  end.

Definition summarize (scope : Provider.t → string) (projectPublicIDs : gmap N string)
    (provider : Provider.t) : providerSummary :=
  let projectID :=
    match Provider.ProjectID provider with
    | Some id => projectPublicIDs !! id
    | None => None
    end in
  mkSummary (Provider.PublicID provider) (Provider.Slug provider)
            (Provider.DisplayName provider)
            (ToLower (kindString (Provider.Kind provider)))
            (Provider.BaseURL provider) (Provider.Active provider)
            (Provider.Metadata provider) (scope provider) projectID.

Inductive Written :=
| AbortWithStatusJSON (status : nat) (code : string) (message : string)
| JSON (status : nat) (object : string) (data : list providerSummary).

(** [listProviders] of the current route.  [resolved] is what
    [ResolveAccessibleProviders] hands over: the public identifiers of the
    caller's projects and the accessible providers, or [None] when it has
    answered the request itself. *)
Definition listProviders (resolved : option (gmap N string * list Provider.t))
  : option Written :=
  match resolved with
  | None => None
  | Some (projectPublicIDs, providers_) =>
      let data := summarize scopeOf projectPublicIDs <$> providers_ in
      Some (JSON 200 "list" (sortSlice less data))
  end.

(** [listProviders] of the earlier route, which resolves the providers
    itself.  [None] stands for a handler that panicked. *)
Definition listProvidersV1 (X : Externals) (user : option CompletionAPI.User)
    (findProjects : N → N → error + list CompletionAPI.Project) (s : Store)
  : option Written :=
  match user with
  | None =>
      Some (AbortWithStatusJSON 401 "b1ef40e7-9db9-477d-bb59-f3783585195d" "user not found")
  | Some user =>
      match DEFAULT_ORGANIZATION X with
      | None => None
      | Some orgID =>
          match findProjects orgID (CompletionAPI.UserID user) with
          | inl (errorString msg) =>
              Some (AbortWithStatusJSON 500 "d22f5fb5-7d09-4f61-8180-803f21722200" msg)
          | inr projects =>
              let projectIDs := CompletionAPI.ProjectID <$> projects in
              let projectPublicIDs : gmap N string :=
                foldl (λ m proj, <[CompletionAPI.ProjectID proj :=
                                     CompletionAPI.ProjectPublicID proj]> m)
                      ∅ projects in
              match ListAccessibleProviders X orgID projectIDs s with
              | (Ok providers_, _) =>
                  let data :=
                    summarize (scopeOfV1 (DEFAULT_ORGANIZATION X) orgID) projectPublicIDs
                      <$> providers_ in
                  Some (JSON 200 "list" (sortSlice less data))
              | (Err (errorString msg), _) =>
                  Some (AbortWithStatusJSON 500 "7c88a4d8-d244-4f0d-8199-9851bc9f2df7" msg)
              | (Panic, _) | (OutOfFuel, _) => None
              end
          end
      end
  end.

(** *** Notions used to state the properties *)

(** The order of the listing: by the rank of the scope, then by name. *)
Definition scopeNameLe (a b : providerSummary) : Prop :=
  getScopeOrder (Scope a) < getScopeOrder (Scope b)
  ∨ (getScopeOrder (Scope a) = getScopeOrder (Scope b) ∧ String.le (Name a) (Name b)).

Definition scopeLabels : list string := ["project"; "organization"; "jan"].

(** Entries are listed by increasing rank of their scope, that is the
    built-in one, then [organization], then [project], and by name within
    a scope. *)
Definition listedByRankThenName (data : list providerSummary) : Prop :=
  ∀ i j a b, i < j → data !! i = Some a → data !! j = Some b →
             getScopeOrder (Scope a) ≤ getScopeOrder (Scope b)
             ∧ (Scope a = Scope b → String.le (Name a) (Name b)).

(** [data] lists the providers [providers_], each once, tagged by [scope]
    with one of the three labels, in the order above. *)
Definition listing (scope : Provider.t → string) (projectPublicIDs : gmap N string)
    (providers_ : list Provider.t) (data : list providerSummary) : Prop :=
  data ≡ₚ summarize scope projectPublicIDs <$> providers_
  ∧ Forall (λ d, Scope d ∈ scopeLabels) data
  ∧ listedByRankThenName data.

(** Every project-scoped entry of the listing comes before every
    organization-scoped one. *)
Definition projectScopedFirst (data : list providerSummary) : Prop :=
  ∀ i j a b, data !! i = Some a → data !! j = Some b →
             Scope a = "project" → Scope b = "organization" → i < j.

(** What the specification asks of a listing. *)
Definition listedByScopePriority : Prop :=
  ∀ projectPublicIDs providers_ status object data,
    listProviders (Some (projectPublicIDs, providers_)) = Some (JSON status object data) →
    projectScopedFirst data.

End ProvidersAPI.

(** ** Package [encoding/base64] *)

Module Base64.

(** [encodeURL], the alphabet of [base64.URLEncoding]. *)
Definition encodeURL : string :=
  "ABCDEFGHIJKLMNOPQRSTUVWXYZabcdefghijklmnopqrstuvwxyz0123456789-_".

(** [enc.encode[i]] for [i < 64]. *)
Definition encode (i : N) : ascii :=
  default "A"%char (String.get (N.to_nat i) encodeURL).

(** [RawURLEncoding.EncodeToString]: three bytes give four characters, a
    rest of two bytes gives three and a rest of one byte two; there is no
    padding. *)
Fixpoint EncodeToString (src : string) : string :=
  match src with
  | String a (String b (String c rest)) =>
      let val := N.lor (N.lor (N.shiftl (N_of_ascii a) 16) (N.shiftl (N_of_ascii b) 8))
                       (N_of_ascii c) in
      String (encode (N.land (N.shiftr val 18) 63))
        (String (encode (N.land (N.shiftr val 12) 63))
           (String (encode (N.land (N.shiftr val 6) 63))
              (String (encode (N.land val 63)) (EncodeToString rest))))
  | String a (String b EmptyString) =>
      let val := N.lor (N.shiftl (N_of_ascii a) 16) (N.shiftl (N_of_ascii b) 8) in
      String (encode (N.land (N.shiftr val 18) 63))
        (String (encode (N.land (N.shiftr val 12) 63))
           (String (encode (N.land (N.shiftr val 6) 63)) EmptyString))
  | String a EmptyString =>
      let val := N.shiftl (N_of_ascii a) 16 in
      String (encode (N.land (N.shiftr val 18) 63))
        (String (encode (N.land (N.shiftr val 12) 63)) EmptyString)
  | EmptyString => EmptyString
  end.

End Base64.

(** ** Package [cache]: the keys *)

Module Cache.

Definition CacheVersion : string := "v1".
Definition ModelsCacheKey : string := CacheVersion +:+ ":models:list".
Definition JanModelsCacheKey : string := CacheVersion +:+ ":models:jan".
Definition OrganizationModelsCacheKeyPattern : string :=
  CacheVersion +:+ ":models:organization:%d".
Definition ProjectModelsCacheKeyPattern : string := CacheVersion +:+ ":models:project:%d".
Definition UserByPublicIDKey : string := CacheVersion +:+ ":user:public_id:%s".
Definition RegistryEndpointModelsKey : string := CacheVersion +:+ ":registry:endpoint_models".
Definition RegistryModelEndpointsKey : string := CacheVersion +:+ ":registry:model_endpoints".

End Cache.

Module RegistryKeys.
Import InferenceModelRegistry.

(** [sanitizeKeyPart] encodes dynamic key parts to be Redis-key safe. *)
Definition sanitizeKeyPart (s : string) : string := Base64.EncodeToString s.

(** The text of a key of the registry, as the registry builds it. *)
Definition keyString (k : Key) : string :=
  match k with
  | ModelsCacheKey => Cache.ModelsCacheKey
  | RegistryModelEndpointsKey => Cache.RegistryModelEndpointsKey
  | RegistryEndpointModelsKey serviceName =>
      Cache.RegistryEndpointModelsKey +:+ ":" +:+ sanitizeKeyPart serviceName
  end.

(** The pattern [SetModels] hands to [DeletePattern], without its final
    star: a key matches when it starts with this text. *)
Definition endpointModelsPrefix : string := Cache.RegistryEndpointModelsKey +:+ ":".

End RegistryKeys.

(** ** Package [main]: the data initializer *)

Module DataInitializer.
Import GoStrings ProviderRegistry.

(** The errors of [setupJanProvider].  Each is an [error] that [fmt.Errorf]
    builds from a fixed text and, but for the first two, from the error of
    the step that failed; the error of the listing is returned as it
    is. *)
Inductive SetupError :=
| defaultOrganizationNotInitialized
| listingFailed (err : error)
| registerProviderFailed (regErr : CommonError)
| discoverModelsFailed (err : error)
| syncModelsFailed (syncErr : CommonError).

(** [if err != nil { return wrap(err) }]. *)
Definition orSetupError {E A} (wrap : E → SetupError) (m : M E A) : M SetupError A :=
  λ s, match m s with
       | (Ok a, s') => (Ok a, s')
       | (Err e, s') => (Err (wrap e), s')
       | (Panic, s') => (Panic, s')
       | (OutOfFuel, s') => (OutOfFuel, s')
       end.

Section Initializer.

Variable X : Externals.

(** [inferenceProvider.ListModels]: the models the backend of a provider
    announces. *)
Variable ListModels : Provider.t → error + list ChatModel.t.

(** The registration [setupJanProvider] asks for. *)
Definition janProviderInput (organizationID : N) : RegisterProviderInput.t :=
  RegisterProviderInput.mk organizationID 0 "Jan Shared Key" (kindString ProviderJan)
    (JAN_INFERENCE_MODEL_URL X) "none"
    [("description", "Default organization access to Jan Provider")] true.

(** [setupJanProvider].  (The providers listed are stored rows, none of
    them [nil].) *)
Definition setupJanProvider : M SetupError () :=
  match DEFAULT_ORGANIZATION X with
  | None => fail defaultOrganizationNotInitialized
  | Some defaultOrganizationID =>
      let! providers_ :=
        orSetupError listingFailed (ListAccessibleProviders X defaultOrganizationID []) in
      if existsb (λ p, bool_decide (Provider.Kind p = ProviderJan)
                       && bool_decide (Provider.ProjectID p = None)) providers_
      then ret ()
      else
        let! result :=
          orSetupError registerProviderFailed
            (RegisterProvider X (janProviderInput defaultOrganizationID)) in
        match ListModels (RegisteredProvider result) with
        | inl err => fail (discoverModelsFailed err)
        | inr models =>
            let! _ :=
              orSetupError syncModelsFailed
                (SyncProviderModels X (Some (RegisteredProvider result)) models) in
            ret ()
        end
  end.

End Initializer.

End DataInitializer.

(** ** Package [organization]: the provider administration routes *)

Module ModelProviderRoute.
Import GoStrings ProviderRegistry.

(** Go compares [error] values; here they are compared by their text. *)
#[global] Instance error_eq_dec : EqDecision error.
Proof. solve_decision. Defined.

(** Modelled from the spec: [gorm.ErrRecordNotFound], the error of a lookup
    that finds no row, is declared outside the sources. *)
Definition ErrRecordNotFound : error := errorString "record not found".

(** Modelled from the spec: [GetMessage] of a [common.Error], which is
    declared outside the sources, is the message that the structured error
    of a failed registration or update shows: the text of the error. *)
Definition GetMessage (e : CommonError) : string :=
  match GetError e with errorString msg => msg end.

Module providerRepo.

(** Modelled from the spec: the repository implementation is not among
    the sources.  [FindByPublicID] returns the provider stored under the
    public identifier, and [gorm.ErrRecordNotFound] when there is none. *)
Definition FindByPublicID (publicID : string) : M error Provider.t :=
  λ s, match head (filter (λ p, Provider.PublicID p = publicID) (providers s)) with
       | Some provider => (Ok provider, s)
       | None => (Err ErrRecordNotFound, s)
       end.

End providerRepo.

(** [ProviderRegistryService.FindByPublicID]. *)
Definition FindByPublicID (publicID : string) : M CommonError Provider.t :=
  λ s, match providerRepo.FindByPublicID publicID s with
       | (Ok provider, s') => (Ok provider, s')
       | (Err err, s') =>
           if bool_decide (err = ErrRecordNotFound) then
             (Err (NewErrorWithMessage "provider not found"
                                       "d16271bf-54f5-4b25-bbd2-2353f1d5265c"), s')
           else (Err (NewError err "1fcd6ba6-2c8e-4cca-bef7-799a1cf1c5d2"), s')
       | (Panic, s') => (Panic, s')
       | (OutOfFuel, s') => (OutOfFuel, s')
       end.

Module registerProviderRequest.
Record t := mk {
  Name : string;
  Vendor : string;
  BaseURL : string;
  APIKey : string;
  Metadata : list (string * string);
  Active : option bool
}.
End registerProviderRequest.

Module registerProviderModelSummary.
Record t := mk {
  ID : string;
  ModelKey : string;
  DisplayName : string;
  CatalogID : option string;
  CatalogStatus : option ModelCatalogStatus
}.
End registerProviderModelSummary.

Module registerProviderResponse.
Record t := mk {
  ID : string;
  Slug : string;
  Name : string;
  Vendor : string;
  BaseURL : string;
  Active : bool;
  Metadata : list (string * string);
  Models : list registerProviderModelSummary.t
}.
End registerProviderResponse.

Module updateProviderRequest.
Record t := mk {
  Name : option string;
  BaseURL : option string;
  APIKey : option string;
  Metadata : option (list (string * string));
  Active : option bool
}.
End updateProviderRequest.

Module providerDetailResponse.
Record t := mk {
  ID : string;
  Slug : string;
  Name : string;
  Vendor : string;
  BaseURL : string;
  Active : bool;
  Metadata : list (string * string)
}.
End providerDetailResponse.

(** What a handler does with the request: it aborts with a status and an
    error, answers with a status and a body, returns without writing, or
    does not finish because the service panicked. *)
Inductive Reply (Body : Type) :=
| AbortWithStatusJSON (status : nat) (body : CompletionAPI.ErrorResponse)
| JSON (status : nat) (body : Body)
| NoReply
| Unfinished.
Arguments AbortWithStatusJSON {Body} status body.
Arguments JSON {Body} status body.
Arguments NoReply {Body}.
Arguments Unfinished {Body}.

(** [toRegisterProviderResponse].  (The catalog of a sync result is never
    [nil].) *)
Definition toRegisterProviderResponse (result : ProviderRegistrationResult)
  : registerProviderResponse.t :=
  let provider := RegisteredProvider result in
  registerProviderResponse.mk
    (Provider.PublicID provider) (Provider.Slug provider) (Provider.DisplayName provider)
    (ToLower (kindString (Provider.Kind provider)))
    (Provider.BaseURL provider) (Provider.Active provider) (Provider.Metadata provider)
    ((λ model,
        registerProviderModelSummary.mk
          (ProviderModel.PublicID (SyncedProviderModel model))
          (ProviderModel.ModelKey (SyncedProviderModel model))
          (ProviderModel.DisplayName (SyncedProviderModel model))
          (Some (ModelCatalog.PublicID (SyncedCatalog model)))
          (Some (ModelCatalog.Status (SyncedCatalog model))))
       <$> RegisteredModels result).


Section Route.

Variable X : Externals.

(** [inferenceProvider.ListModels]: the models the backend of a provider
    announces. *)
Variable ListModels : Provider.t → error + list ChatModel.t.

(** [registerProvider].  [orgEntity] is the organization that
    [GetAdminOrganizationFromContext] finds, [bound] the outcome of
    [ShouldBindJSON].  [SyncProviderModels] stamps the provider of the
    result through its pointer. *)
Definition registerProvider (orgEntity : option N)
    (bound : error + registerProviderRequest.t)
  : Store → Reply registerProviderResponse.t * Store :=
  λ s,
    match orgEntity with
    | None => (NoReply, s)
    | Some orgEntityID =>
        match bound with
        | inl err =>
            (AbortWithStatusJSON 400
               (CompletionAPI.mkErrorResponse "4dfe7980-9d40-47fb-8cf1-1864dfd1e3eb" ""
                                              (Some err)), s)
        | inr request =>
            let active :=
              match registerProviderRequest.Active request with
              | Some active => active
              | None => true
              end in
            match RegisterProvider X
                    (RegisterProviderInput.mk orgEntityID 0
                       (registerProviderRequest.Name request)
                       (registerProviderRequest.Vendor request)
                       (registerProviderRequest.BaseURL request)
                       (registerProviderRequest.APIKey request)
                       (registerProviderRequest.Metadata request) active) s with
            | (Err err, s1) =>
                (AbortWithStatusJSON 400
                   (CompletionAPI.mkErrorResponse (GetCode err) (GetMessage err) None), s1)
            | (Panic, s1) | (OutOfFuel, s1) => (Unfinished, s1)
            | (Ok result, s1) =>
                match ListModels (RegisteredProvider result) with
                | inl fetchErr =>
                    (AbortWithStatusJSON 502
                       (CompletionAPI.mkErrorResponse
                          "cbe9fb03-a434-4d57-8a59-7b1e6830f9e5" "" (Some fetchErr)), s1)
                | inr models =>
                    match SyncProviderModels X (Some (RegisteredProvider result)) models s1
                    with
                    | (Err syncErr, s2) =>
                        (AbortWithStatusJSON 500
                           (CompletionAPI.mkErrorResponse (GetCode syncErr)
                                                          (GetMessage syncErr) None), s2)
                    | (Panic, s2) | (OutOfFuel, s2) => (Unfinished, s2)
                    | (Ok syncResults, s2) =>
                        let result :=
                          mkRegistrationResult
                            (Provider.withLastSyncedAt (Some (now X))
                                                       (RegisteredProvider result))
                            syncResults in
                        (JSON 200 (toRegisterProviderResponse result), s2)
                    end
                end
            end
        end
    end.


End Route.

End ModelProviderRoute.

(** * Properties *)

Module GoStringsFacts.
Import GoStrings.

Lemma isEmpty_spec s : isEmpty s = true ↔ s = "".
Proof. destruct s; simpl; split; congruence. Qed.



Lemma TrimLeftSpace_head s :
  TrimLeftSpace s = "" ∨ ∃ c t, TrimLeftSpace s = String c t ∧ isSpace c = false.
Proof.
  induction s as [|c s IH]; simpl; [by left|].
  destruct (isSpace c) eqn:Hc; [done|]. right. by exists c, s.
Qed.

Lemma TrimRightSpace_idemp s : TrimRightSpace (TrimRightSpace s) = TrimRightSpace s.
Proof.
  induction s as [|c s IH]; simpl; [done|].
  destruct (isSpace c && isEmpty (TrimRightSpace s)) eqn:E; simpl; [done|].
  by rewrite IH, E.
Qed.

Lemma TrimSpace_idemp s : TrimSpace (TrimSpace s) = TrimSpace s.
Proof.
  unfold TrimSpace.
  destruct (TrimLeftSpace_head s) as [->|(c & t & -> & Hc)]; [done|].
  assert (TrimRightSpace (String c t) = String c (TrimRightSpace t)) as Hr
    by (simpl; by rewrite Hc).
  rewrite Hr. simpl TrimLeftSpace. rewrite Hc, <- Hr. apply TrimRightSpace_idemp.
Qed.

End GoStringsFacts.

Module CacheProperties.
Import GoStrings InferenceModelRegistry.

Lemma attributed_empty url ids : attributed url ids ∅.
Proof. intros M urls H. by rewrite lookup_empty in H. Qed.

Lemma attributed_weaken url ids ids' m :
  attributed url ids m → (∀ M, M ∈ ids → M ∈ ids') → attributed url ids' m.
Proof. intros H Hsub M urls HM. destruct (H M urls HM). auto. Qed.

Lemma attributed_append url ids id m :
  attributed url ids m → attributed url (ids ++ [id]) (appendEndpoint id url m).
Proof.
  intros H M urls. unfold appendEndpoint. rewrite lookup_insert.
  case_decide as Hid.
  - intros [= <-]. subst M. split; [set_solver|].
    intros u Hu. apply elem_of_app in Hu. destruct Hu as [Hold|Hnew]; [|by apply list_elem_of_singleton in Hnew].
    destruct (m !! id) as [old|] eqn:E; simpl in Hold; [|set_solver].
    by apply (H id old).
  - intros HM. destruct (H M urls HM). split; [set_solver|done].
Qed.

Lemma attributed_foldl url (cond : bool) models ids m :
  attributed url ids m →
  attributed url (ids ++ map ID models)
    (foldl (λ m model, if cond then appendEndpoint (ID model) url m else m) m models).
Proof.
  revert ids m. induction models as [|x models IH]; intros ids m H; simpl.
  - by rewrite app_nil_r.
  - replace (ids ++ ID x :: map ID models) with ((ids ++ [ID x]) ++ map ID models)
      by by rewrite <- app_assoc.
    apply IH. destruct cond.
    + by apply attributed_append.
    + eapply attributed_weaken; [done|set_solver].
Qed.

Lemma hasModelsChanged_eq S L c :
  hasModelsChanged S L c
  = (changedFrom (endpointModels c !! S) L, record (OpGet (RegistryEndpointModelsKey S)) c).
Proof.
  unfold hasModelsChanged, changedFrom, Get; simpl.
  destruct (endpointModels c !! S) as [t|]; [|done].
  destruct (unmarshalStrings t) as [ids|]; [|done].
  by destruct (negb _).
Qed.

Lemma changedFrom_same L : changedFrom (Some (JStrings (map ID L))) L = false.
Proof.
  unfold changedFrom; simpl. rewrite length_map, Nat.eqb_refl; simpl.
  apply not_true_is_false. intros (id & Hin & Hid)%existsb_exists.
  apply negb_true_iff, bool_decide_eq_false in Hid.
  apply Hid, elem_of_list_to_set, list_elem_of_In, Hin.
Qed.

Lemma rebuildModelToEndpointsMapping_keeps r c e c' :
  rebuildModelToEndpointsMapping r c = (e, c') →
  endpointModels c' = endpointModels c ∧ modelsList c' = modelsList c.
Proof.
  unfold rebuildModelToEndpointsMapping, Get; simpl.
  destruct (modelsList c) as [t|] eqn:E; [|intros [= <- <-]; simpl; auto].
  destruct (unmarshalModels t); intros [= <- <-]; simpl; auto.
Qed.

Lemma rebuildModelToEndpointsMapping_hit r c ms :
  modelsList c = Some (marshalNilableModels ms) →
  ∃ c' m, rebuildModelToEndpointsMapping r c = (None, c')
          ∧ modelEndpoints c' = Some (JEndpoints m)
          ∧ attributed (serviceBaseURL r) (map ID ms) m.
Proof.
  intros Hms. unfold rebuildModelToEndpointsMapping, Get; simpl. rewrite Hms.
  replace (unmarshalModels (marshalNilableModels ms)) with (Some ms)
    by by destruct ms.
  eexists _, _. split; [done|]. split; [done|].
  apply (attributed_foldl _ _ ms []), attributed_empty.
Qed.

(** The path of [RemoveServiceModels] that does remove: the service has a
    decodable entry. *)
Lemma RemoveServiceModels_present partialModels r S c v ids :
  isEmpty (TrimSpace S) = false →
  endpointModels c !! S = Some v →
  unmarshalStrings v = Some ids →
  ∃ c1 m kept,
    RemoveServiceModels partialModels r S c = (None, c1)
    ∧ endpointModels c1 !! S = None
    ∧ modelEndpoints c1 = Some (JEndpoints m)
    ∧ attributed (serviceBaseURL r) (map ID kept) m
    ∧ ∀ M, M ∈ map ID kept → M ∉ ids.
Proof.
  intros HS Hv Hids. unfold RemoveServiceModels. rewrite HS.
  unfold Get at 1; simpl. rewrite Hv, Hids; simpl.
  match goal with
  | |- context [filter ?P ?l] => set (kept := filter P l)
  end.
  match goal with
  | |- context [rebuildModelToEndpointsMapping r ?c0] =>
      destruct (rebuildModelToEndpointsMapping_hit r c0 kept) as (c1 & m & Hr & Hm & Hatt);
      [done|]; pose proof (rebuildModelToEndpointsMapping_keeps r c0 _ _ Hr) as [Hk _]
  end.
  exists c1, m, kept. rewrite Hr. split; [done|]. split.
  { rewrite Hk; simpl. apply lookup_delete_eq. }
  split; [done|]. split; [done|].
  intros M (x & -> & Hx)%list_elem_of_fmap.
  apply list_elem_of_filter in Hx as [Hx _].
  by rewrite elem_of_list_to_set in Hx.
Qed.

Lemma GetModelToEndpoints_hit r c m :
  modelEndpoints c = Some (JEndpoints m) →
  fst (GetModelToEndpoints r c) = m.
Proof. intros H. unfold GetModelToEndpoints, Get; simpl. by rewrite H. Qed.

(** The property of the specification, for one registry, service name and
    cache: after a successful removal of [S], the reverse map that is read
    next lists [S] for no model. *)
Definition removedBackendAbsent partialModels (r : InferenceModelRegistry)
    (S : string) (c : RedisCacheService) : Prop :=
  ∀ c1, RemoveServiceModels partialModels r S c = (None, c1) →
    ∀ M urls, fst (GetModelToEndpoints r c1) !! M = Some urls → S ∉ urls.

Definition janModel : Model := mkModel "jan-v1" "model" 0 "jan".

Definition janRegistry : InferenceModelRegistry :=
  NewInferenceModelRegistry (Some {| GetModels := Some [janModel] |})
                            (Some "http://jan-inference:8101/v1").

(** C1, as stated, fails.  On a cold cache the removal of the configured
    backend finds no entry and returns [nil] at once; the read that
    follows misses, rebuilds from the provider and attributes the
    discovered model to that very backend. *)
Lemma RemoveServiceModels_then_GetModelToEndpoints_counterexample :
  ¬ (∀ partialModels r S c, removedBackendAbsent partialModels r S c).
Proof.
  intros H.
  apply (H (λ _, []) janRegistry "http://jan-inference:8101/v1" emptyCache
           (record (OpGet (RegistryEndpointModelsKey "http://jan-inference:8101/v1"))
                   emptyCache)
           eq_refl "jan-v1" ["http://jan-inference:8101/v1"]).
  - by vm_compute.
  - apply list_elem_of_here.
Qed.

(** C1, amended: when the service [S] has a per-service entry at the time
    of the call (otherwise the removal does nothing) and
    [RemoveServiceModels S] succeeds, the [GetModelToEndpoints] that
    follows lists [S] for no model that was in the removed entry, and for
    no model at all unless [S] is the configured base URL. *)
Theorem RemoveServiceModels_then_GetModelToEndpoints
    partialModels r S c v ids c1 M urls :
  endpointModels c !! S = Some v →
  unmarshalStrings v = Some ids →
  RemoveServiceModels partialModels r S c = (None, c1) →
  fst (GetModelToEndpoints r c1) !! M = Some urls →
  S ∈ urls →
  S = serviceBaseURL r ∧ M ∉ ids.
Proof.
  intros Hv Hids Hrm HM HS.
  destruct (isEmpty (TrimSpace S)) eqn:Hblank.
  { unfold RemoveServiceModels in Hrm. by rewrite Hblank in Hrm. }
  destruct (RemoveServiceModels_present partialModels r S c v ids Hblank Hv Hids)
    as (c1' & m & kept & Hrm' & _ & Hm & Hatt & Hkept).
  rewrite Hrm in Hrm'. injection Hrm' as <-.
  rewrite (GetModelToEndpoints_hit r c1 m Hm) in HM.
  destruct (Hatt M urls HM) as [HMk Hu]. split; [by apply Hu|by apply Hkept].
Qed.

Definition otherModel : Model := mkModel "other-v1" "model" 0 "jan".

(** A cache whose aggregate list is newer than the entry of the service. *)
Definition staleCache : RedisCacheService :=
  mkCache (Some (JModels [janModel; otherModel])) None
          {[ "http://jan-inference:8101/v1" := JStrings ["jan-v1"] ]} [].

Definition staleCacheRemoved : RedisCacheService :=
  snd (RemoveServiceModels (λ _, []) janRegistry "http://jan-inference:8101/v1"
                           staleCache).

Lemma RemoveServiceModels_then_GetModelToEndpoints_witness :
  endpointModels staleCache !! "http://jan-inference:8101/v1"
    = Some (JStrings ["jan-v1"])
  ∧ RemoveServiceModels (λ _, []) janRegistry "http://jan-inference:8101/v1" staleCache
    = (None, staleCacheRemoved)
  ∧ fst (GetModelToEndpoints janRegistry staleCacheRemoved) !! "other-v1"
    = Some ["http://jan-inference:8101/v1"]
  ∧ "http://jan-inference:8101/v1" = serviceBaseURL janRegistry
  ∧ "other-v1" ∉ ["jan-v1"].
Proof.
  assert (endpointModels staleCache !! "http://jan-inference:8101/v1"
          = Some (JStrings ["jan-v1"])) as H1 by (by vm_compute).
  assert (RemoveServiceModels (λ _, []) janRegistry "http://jan-inference:8101/v1"
            staleCache = (None, staleCacheRemoved)) as H2 by (by vm_compute).
  assert (fst (GetModelToEndpoints janRegistry staleCacheRemoved) !! "other-v1"
          = Some ["http://jan-inference:8101/v1"]) as H3 by (by vm_compute).
  split; [exact H1|]. split; [exact H2|]. split; [exact H3|].
  exact (RemoveServiceModels_then_GetModelToEndpoints (λ _, []) janRegistry
           "http://jan-inference:8101/v1" staleCache (JStrings ["jan-v1"]) ["jan-v1"]
           staleCacheRemoved "other-v1" ["http://jan-inference:8101/v1"]
           H1 eq_refl H2 H3 (list_elem_of_here _ _)).
Defined.

(** C7: a second [SetModels S L] right after a successful one finds the
    cached identifiers of [S] unchanged, returns [nil], and issues a single
    read of the entry of [S]: the writes and deletions issued are those
    issued before, and every entry of the cache is as it was. *)
Theorem SetModels_idempotent r S L c c1 :
  SetModels r S L c = (None, c1) →
  fst (hasModelsChanged S L c1) = false
  ∧ ∃ c2, SetModels r S L c1 = (None, c2)
          ∧ calls c2 = calls c1 ++ [OpGet (RegistryEndpointModelsKey S)]
          ∧ writes c2 = writes c1
          ∧ modelsList c2 = modelsList c1
          ∧ modelEndpoints c2 = modelEndpoints c1
          ∧ endpointModels c2 = endpointModels c1.
Proof.
  intros H1.
  assert (changedFrom (endpointModels c1 !! S) L = false) as Hsame.
  { unfold SetModels in H1.
    destruct (isEmpty (TrimSpace S)); [done|].
    rewrite hasModelsChanged_eq in H1.
    destruct (changedFrom (endpointModels c !! S) L) eqn:Hch; simpl in H1.
    - apply rebuildModelToEndpointsMapping_keeps in H1 as [-> _]; simpl.
      rewrite lookup_insert_eq. apply changedFrom_same.
    - by injection H1 as <-. }
  split; [by rewrite hasModelsChanged_eq|].
  unfold SetModels in *.
  destruct (isEmpty (TrimSpace S)); [done|].
  rewrite hasModelsChanged_eq, Hsame; simpl.
  eexists. split; [done|]. simpl. split; [done|]. split; [|done].
  unfold writes; simpl. by rewrite filter_app, app_nil_r.
Qed.

Definition warmCache : RedisCacheService :=
  snd (SetModels janRegistry "http://jan-inference:8101/v1" [janModel; otherModel]
                 emptyCache).

Lemma SetModels_idempotent_witness :
  SetModels janRegistry "http://jan-inference:8101/v1" [janModel; otherModel] emptyCache
  = (None, warmCache)
  ∧ fst (hasModelsChanged "http://jan-inference:8101/v1" [janModel; otherModel] warmCache)
    = false
  ∧ ∃ c2, SetModels janRegistry "http://jan-inference:8101/v1"
                    [janModel; otherModel] warmCache = (None, c2)
          ∧ calls c2 = calls warmCache
                       ++ [OpGet (RegistryEndpointModelsKey "http://jan-inference:8101/v1")]
          ∧ writes c2 = writes warmCache
          ∧ modelsList c2 = modelsList warmCache
          ∧ modelEndpoints c2 = modelEndpoints warmCache
          ∧ endpointModels c2 = endpointModels warmCache.
Proof.
  assert (SetModels janRegistry "http://jan-inference:8101/v1" [janModel; otherModel]
            emptyCache = (None, warmCache)) as H1 by (by vm_compute).
  split; [exact H1|].
  exact (SetModels_idempotent janRegistry "http://jan-inference:8101/v1"
           [janModel; otherModel] emptyCache warmCache H1).
Defined.

End CacheProperties.

Module RegistryProperties.
Import GoStrings GoStringsFacts ProviderRegistry.

(** *** A platform to run the service on *)

(** Decimals are multiplied exactly and truncated to their coefficient; a
    URL is accepted when it starts with [http]; the n-th secure identifier
    is the prefix followed by n, and the draw numbered [failing] fails; the
    default organization is organization 1. *)
Definition platform (failing : option N) : Externals :=
  mkExternals
    (λ _, None) (λ _, mkDecimal 0 0) (λ _, mkDecimal 0 0) (λ n, mkDecimal n 0)
    (λ a b, mkDecimal (coefficient a * coefficient b) (exponent a + exponent b))
    coefficient (λ _, 0%Z)
    (λ u, if hasPrefix "http" u then None
          else Some (errorString "invalid URI for request"))
    (λ prefix _ n, if bool_decide (failing = Some n)
                   then inl (errorString "entropy source unavailable")
                   else inr (prefix +:+ "_" +:+ pretty n))
    (λ _ plain, inr ("sealed:" +:+ plain))
    "platform-secret" "http://jan-inference:8101/v1" (Some 1%N) 0%Z.

Definition sound : Externals := platform None.

(** *** The pure helpers on examples *)

Example slugify_examples :
  slugify "  Open AI -- GPT_4!  " = "open-ai-gpt-4"
  ∧ slugify (slugCandidate ProviderOpenAI "My Provider") = "openai-my-provider"
  ∧ slugify "!!!" = ""
  ∧ normalizeURL " https://a.example/v1// " = "https://a.example/v1"
  ∧ catalogPublicID (ChatModel.mk "openai/gpt-4o" "" "GPT-4o" []) = "openai-gpt-4o"
  ∧ extractFamily "vendor/model/variant" = Some "vendor"
  ∧ extractFamily "model" = None.
Proof. by vm_compute. Qed.

Example providerKindFromVendor_examples :
  providerKindFromVendor " Google " = ProviderGemini
  ∧ providerKindFromVendor "azure-openai" = ProviderAzureOpenAI
  ∧ providerKindFromVendor "jan" = ProviderCustom
  ∧ providerKindFromVendor "" = ProviderCustom.
Proof. by vm_compute. Qed.

Example apiKeyHint_examples :
  apiKeyHint "  sk-live-abcd " = Some "abcd"
  ∧ apiKeyHint "abcd" = Some "abcd"
  ∧ apiKeyHint " abc " = None
  ∧ apiKeyHint "" = None.
Proof. by vm_compute. Qed.

(** *** The redacted key hint *)

Lemma apiKeyHint_trimmed k : apiKeyHint (TrimSpace k) = apiKeyHint k.
Proof. unfold apiKeyHint. by rewrite TrimSpace_idemp. Qed.

Lemma bind_Ok {E A B} (m : M E A) (k : A → M E B) s b s' :
  bind m k s = (Ok b, s') → ∃ a s1, m s = (Ok a, s1) ∧ k a s1 = (Ok b, s').
Proof.
  unfold bind. destruct (m s) as [[a| | |] s1]; try done. eauto.
Qed.

Lemma orError_Ok {A} code (m : M error A) s a s' :
  orError code m s = (Ok a, s') → m s = (Ok a, s').
Proof.
  unfold orError. destruct (m s) as [[| | |] ?]; congruence.
Qed.

Lemma generateUniqueSlugLoop_store fuel candidate slug counter s r s' :
  generateUniqueSlugLoop fuel candidate slug counter s = (r, s') → s' = s.
Proof.
  revert slug counter. induction fuel as [|fuel IH]; intros slug counter; simpl.
  - by intros [= _ <-].
  - unfold bind, providerRepo.FindByFilter. case_bool_decide.
    + by intros [= _ <-].
    + apply IH.
Qed.

Lemma generateUniqueSlug_store base s r s' :
  generateUniqueSlug base s = (r, s') → s' = s.
Proof. apply generateUniqueSlugLoop_store. Qed.

Lemma length_append a b : String.length (a +:+ b) = String.length a + String.length b.
Proof. induction a as [|c a IH]; simpl; [done|]. by rewrite <- IH. Qed.

Lemma numbered_inj candidate (j k : N) :
  candidate +:+ "-" +:+ pretty j = candidate +:+ "-" +:+ pretty k → j = k.
Proof. intros H. by do 2 apply (inj (String.app _)) in H; apply (inj pretty) in H. Qed.

Lemma numbered_ne candidate (k : N) : candidate +:+ "-" +:+ pretty k ≠ candidate.
Proof.
  intros H. apply (f_equal String.length) in H.
  rewrite !length_append in H. simpl in H. lia.
Qed.

Lemma slug_taken slug s :
  length (providerRepo.limited (Some 1)
            (filter (λ p, providerRepo.matches
                            (ProviderFilter.mk None None (Some slug) None None None None
                                               None None None) p = true)
                    (providers s))) ≠ 0
  → slug ∈ Provider.Slug <$> providers s.
Proof.
  simpl. destruct (filter _ _) as [|p ?] eqn:Hf; [done|]. intros _.
  assert (p ∈ filter (λ p, providerRepo.matches
                             (ProviderFilter.mk None None (Some slug) None None None None
                                                None None None) p = true)
                     (providers s)) as Hp by (rewrite Hf; apply list_elem_of_here).
  apply list_elem_of_filter in Hp as [Hm Hp].
  unfold providerRepo.matches in Hm; simpl in Hm.
  rewrite !andb_true_r in Hm. apply bool_decide_eq_true in Hm as <-.
  by apply list_elem_of_fmap_2.
Qed.

Lemma slug_free slug s :
  length (providerRepo.limited (Some 1)
            (filter (λ p, providerRepo.matches
                            (ProviderFilter.mk None None (Some slug) None None None None
                                               None None None) p = true)
                    (providers s))) = 0
  → slug ∉ Provider.Slug <$> providers s.
Proof.
  simpl. intros Hlen (p & -> & Hp)%list_elem_of_fmap.
  assert (p ∈ filter (λ q, providerRepo.matches
                             (ProviderFilter.mk None None (Some (Provider.Slug p)) None None
                                                None None None None None) q = true)
                     (providers s)) as Hin.
  { apply list_elem_of_filter. split; [|done].
    unfold providerRepo.matches; simpl. by rewrite !andb_true_r, bool_decide_true. }
  destruct (filter _ _); [by apply elem_of_nil in Hin|done].
Qed.

(** The loop ends before its bound: the slugs tried so far are distinct
    slugs of providers, and there are fewer providers than the bound
    allows trials. *)
Lemma generateUniqueSlugLoop_total fuel candidate slug counter s tried :
  NoDup (slug :: tried) →
  (∀ t, t ∈ tried → t ∈ Provider.Slug <$> providers s) →
  (∀ k, (counter < k)%N → candidate +:+ "-" +:+ pretty k ∉ slug :: tried) →
  length (providers s) < length tried + fuel →
  ∃ r, generateUniqueSlugLoop fuel candidate slug counter s = (Ok r, s)
       ∧ r ∉ Provider.Slug <$> providers s.
Proof.
  revert slug counter tried.
  induction fuel as [|fuel IH]; intros slug counter tried Hnodup Htried Hfresh Hfuel.
  - exfalso. apply NoDup_cons in Hnodup as [_ Hnodup].
    pose proof (submseteq_length _ _ (NoDup_submseteq _ _ Hnodup Htried)) as Hle.
    rewrite length_fmap in Hle. lia.
  - simpl. unfold bind, providerRepo.FindByFilter, ret. case_bool_decide as Hlen.
    + exists slug. split; [done|]. by apply slug_free.
    + apply slug_taken in Hlen.
      apply (IH _ _ (slug :: tried)).
      * apply NoDup_cons. split; [|done]. apply Hfresh. lia.
      * intros t [->|Ht]%elem_of_cons; auto.
      * intros k Hk Hin. apply elem_of_cons in Hin as [Hin|Hin].
        { apply numbered_inj in Hin. lia. }
        revert Hin. apply Hfresh. lia.
      * simpl. lia.
Qed.

(** [generateUniqueSlug] returns, with a slug that no provider holds. *)
Lemma generateUniqueSlug_total base s :
  ∃ slug, generateUniqueSlug base s = (Ok slug, s)
          ∧ slug ∉ Provider.Slug <$> providers s.
Proof.
  unfold generateUniqueSlug.
  apply (generateUniqueSlugLoop_total _ _ _ _ _ []).
  - apply NoDup_singleton.
  - by intros t ?%elem_of_nil.
  - intros k _ Hin%list_elem_of_singleton. by apply numbered_ne in Hin.
  - simpl. lia.
Qed.

(** Two stores with the same tables. *)
Definition sameTables (s s' : Store) : Prop :=
  providers s' = providers s
  ∧ providerModels s' = providerModels s
  ∧ modelCatalogs s' = modelCatalogs s.

Lemma secureID_tables X prefix n s r s' :
  secureID X prefix n s = (r, s') → sameTables s s'.
Proof.
  unfold secureID. destruct (GenerateSecureID X prefix n (drawn s));
    intros [= _ <-]; by repeat split.
Qed.

(** [RegisterProvider] always returns: the bound on the slug loop is never
    reached, on any store. *)
Lemma RegisterProvider_returns X input s :
  (RegisterProvider X input s).1 ≠ OutOfFuel.
Proof.
  unfold RegisterProvider, fail.
  destruct (isEmpty _); [done|]. destruct (isEmpty _); [done|].
  destruct (ParseRequestURI _ _); [done|].
  destruct (DEFAULT_ORGANIZATION X) as [defaultID|]; [|done].
  unfold bind at 1.
  match goal with
  | |- context [(if bool_decide ?P then ?a else ?b) s] =>
      assert ((∃ e, (if bool_decide P then a else b) s = (Err e, s))
              ∨ (if bool_decide P then a else b) s = (Ok (), s)) as [[e ->]| ->]
  end.
  { case_bool_decide; [|by right].
    unfold bind, orError, providerRepo.Count, ret, fail.
    destruct (0 <? _)%N; [left; by eexists|by right]. }
  { done. }
  unfold bind at 1, orError at 1.
  destruct (generateUniqueSlug_total
              (slugCandidate (providerKindFromVendor (RegisterProviderInput.Vendor input))
                             (TrimSpace (RegisterProviderInput.Name input))) s)
    as (slug & -> & _).
  unfold bind at 1, orError at 1, secureID.
  destruct (GenerateSecureID X "prov" 24 (drawn s)); [done|].
  unfold bind at 1.
  match goal with
  | |- context [(if negb ?c then ?a else ?b) ?s1] =>
      assert ((∃ e, (if negb c then a else b) s1 = (Err e, s1))
              ∨ (∃ k, (if negb c then a else b) s1 = (Ok k, s1))) as [[e ->]|[k ->]]
  end.
  { destruct (negb _); [|right; by eexists].
    destruct (isEmpty _); [left; by eexists|].
    destruct (EncryptString _ _ _); [left|right]; by eexists. }
  { done. }
  unfold bind, orError, providerRepo.Create, ret.
  by destruct (existsb _ _).
Qed.

(** What a successful registration has checked and stored. *)
Lemma RegisterProvider_Ok X input s res s' :
  RegisterProvider X input s = (Ok res, s') →
  ∃ defaultID,
    DEFAULT_ORGANIZATION X = Some defaultID
    ∧ Provider.Kind (RegisteredProvider res)
      = providerKindFromVendor (RegisterProviderInput.Vendor input)
    ∧ Provider.OrganizationID (RegisteredProvider res)
      = Some (if bool_decide (RegisterProviderInput.OrganizationID input ≠ 0%N)
              then RegisterProviderInput.OrganizationID input else defaultID)
    ∧ Provider.ProjectID (RegisteredProvider res)
      = (if bool_decide (RegisterProviderInput.ProjectID input ≠ 0%N)
         then Some (RegisterProviderInput.ProjectID input) else None)
    ∧ Provider.APIKeyHint (RegisteredProvider res)
      = apiKeyHint (RegisterProviderInput.APIKey input)
    ∧ Provider.ID (RegisteredProvider res) = N.succ (maxID (Provider.ID <$> providers s))
    ∧ providers s' = providers s ++ [RegisteredProvider res]
    ∧ providerModels s' = providerModels s
    ∧ modelCatalogs s' = modelCatalogs s.
Proof.
  unfold RegisterProvider.
  destruct (isEmpty _); [done|]. destruct (isEmpty _); [done|].
  destruct (ParseRequestURI _ _); [done|].
  destruct (DEFAULT_ORGANIZATION X) as [defaultID|]; [|done].
  intros H. exists defaultID. split; [done|]. unfold ret, fail in H.
  apply bind_Ok in H as (u & s1 & Hcount & H).
  assert (s1 = s) as Hs1.
  { destruct (bool_decide (providerKindFromVendor _ ≠ ProviderCustom));
      [|by injection Hcount].
    apply bind_Ok in Hcount as (count & s0 & Hc & Hcount).
    apply orError_Ok in Hc. unfold providerRepo.Count in Hc. injection Hc as _ <-.
    destruct (0 <? count)%N; [done|]. by injection Hcount. }
  subst s1. clear Hcount.
  apply bind_Ok in H as (slug & s2 & Hslug & H).
  apply orError_Ok, generateUniqueSlug_store in Hslug. subst s2.
  apply bind_Ok in H as (publicID & s3 & Hid & H).
  apply orError_Ok, secureID_tables in Hid as (Hp3 & Hm3 & Hc3).
  apply bind_Ok in H as (cipher & s4 & Henc & H).
  assert (s4 = s3) as Hs4.
  { destruct (negb _); [|by injection Henc].
    destruct (isEmpty _); [done|].
    destruct (EncryptString _ _ _); [done|]. by injection Henc. }
  subst s4. clear Henc.
  apply bind_Ok in H as (p & s5 & Hcreate & H).
  injection H as <- <-. simpl.
  apply orError_Ok in Hcreate. unfold providerRepo.Create in Hcreate.
  destruct (existsb _ _); [done|]. injection Hcreate as <- <-. simpl.
  rewrite apiKeyHint_trimmed, Hp3, Hm3, Hc3. by repeat split.
Qed.

Lemma maxID_ge ids x : x ∈ ids → (x ≤ maxID ids)%N.
Proof.
  induction 1 as [x ids|x y ids _ IH]; simpl; lia.
Qed.








(** *** Catalog status *)

Lemma FindByPublicID_elem publicID s existing :
  modelCatalogRepo.FindByPublicID publicID s = (Ok (Some existing), s) →
  existing ∈ modelCatalogs s ∧ ModelCatalog.PublicID existing = publicID.
Proof.
  intros [= H]. apply head_Some_elem_of, list_elem_of_filter in H. tauto.
Qed.

(** C2: [upsertCatalog] on a model whose catalog entry exists.  An entry
    that is [filled] or [updated] is returned as it is and nothing is
    written, whatever the kind of the provider and the data of the model;
    only an entry that is still [init] is rewritten, in place. *)
Theorem upsertCatalog_status_monotonic X kind model s existing :
  modelCatalogRepo.FindByPublicID (catalogPublicID model) s = (Ok (Some existing), s) →
  match ModelCatalog.Status existing with
  | ModelCatalogStatusInit =>
      ∃ catalog s',
        upsertCatalog X kind model s = (Ok catalog, s')
        ∧ ModelCatalog.ID catalog = ModelCatalog.ID existing
        ∧ ModelCatalog.PublicID catalog = catalogPublicID model
        ∧ catalog ∈ modelCatalogs s'
        ∧ length (modelCatalogs s') = length (modelCatalogs s)
  | ModelCatalogStatusFilled | ModelCatalogStatusUpdated =>
      upsertCatalog X kind model s = (Ok existing, s)
  end.
Proof.
  intros Hfind. pose proof (FindByPublicID_elem _ _ _ Hfind) as [Hin _].
  unfold upsertCatalog, bind, orError. rewrite Hfind.
  destruct (ModelCatalog.Status existing) eqn:Hst; simpl; [|done..].
  rewrite andb_false_r.
  eexists _, _. split; [done|]. simpl.
  split; [done|]. split; [done|]. split.
  - apply list_elem_of_fmap. exists existing. split; [|done].
    by rewrite bool_decide_true.
  - by rewrite length_fmap.
Qed.

Definition gpt4oEnriched : ModelCatalog.t :=
  ModelCatalog.mk 7 "openai-gpt-4o"
    (mkSupportedParameters ["temperature"; "top_p"] [("temperature", Some (mkDecimal 1 0))])
    (mkArchitecture "text+image->text" ["text"; "image"] ["text"] "GPT" None)
    (Some "Flagship multimodal model") (Some true)
    [("context_length", AnyInt 128000)] ModelCatalogStatusFilled (Some 100%Z) 50%Z.

Definition enrichedStore : Store := mkStore [] [] [gpt4oEnriched] 0.

(** The same model as a sparse backend reports it. *)
Definition gpt4oSparse : ChatModel.t := ChatModel.mk "openai/gpt-4o" "" "GPT-4o" [].

Lemma upsertCatalog_status_monotonic_witness :
  modelCatalogRepo.FindByPublicID (catalogPublicID gpt4oSparse) enrichedStore
  = (Ok (Some gpt4oEnriched), enrichedStore)
  ∧ upsertCatalog sound ProviderOpenAI gpt4oSparse enrichedStore
    = (Ok gpt4oEnriched, enrichedStore).
Proof.
  assert (modelCatalogRepo.FindByPublicID (catalogPublicID gpt4oSparse) enrichedStore
          = (Ok (Some gpt4oEnriched), enrichedStore)) as H by (by vm_compute).
  split; [exact H|].
  exact (upsertCatalog_status_monotonic sound ProviderOpenAI gpt4oSparse enrichedStore
           gpt4oEnriched H).
Defined.

Lemma NoDup_fmap_eq {A B} (f : A → B) l x y :
  NoDup (f <$> l) → x ∈ l → y ∈ l → f x = f y → x = y.
Proof.
  induction l as [|z l IH]; simpl; [by intros _ ?%elem_of_nil|].
  intros [Hz Hl]%NoDup_cons [->|Hx]%elem_of_cons [->|Hy]%elem_of_cons Hf; auto.
  - exfalso. apply Hz. rewrite Hf. by apply list_elem_of_fmap_2.
  - exfalso. apply Hz. rewrite <- Hf. by apply list_elem_of_fmap_2.
Qed.

(** The same holds through a whole sync, on a catalog table whose rows have
    distinct primary keys: an enriched entry is still there, as it was,
    after [SyncProviderModels] over any batch, successful or not. *)
Lemma upsertCatalog_keeps_enriched X kind model s r s' e :
  NoDup (ModelCatalog.ID <$> modelCatalogs s) →
  e ∈ modelCatalogs s →
  ModelCatalog.Status e ≠ ModelCatalogStatusInit →
  upsertCatalog X kind model s = (r, s') →
  e ∈ modelCatalogs s' ∧ NoDup (ModelCatalog.ID <$> modelCatalogs s').
Proof.
  intros Hnodup He Hst.
  unfold upsertCatalog, bind, orError, ret, modelCatalogRepo.FindByPublicID.
  destruct (head _) as [existing|] eqn:Hhead; simpl.
  - apply head_Some_elem_of, list_elem_of_filter in Hhead as [_ Hex].
    destruct (ModelCatalog.Status existing) eqn:Hstatus; simpl;
      [|by intros [= _ <-]..].
    rewrite andb_false_r. intros [= _ <-]; simpl. split.
    + apply list_elem_of_fmap. exists e. split; [|done].
      rewrite bool_decide_false; [done|]. intros Hid.
      apply (NoDup_fmap_eq _ _ _ _ Hnodup He Hex) in Hid. congruence.
    + rewrite <- list_fmap_compose.
      erewrite list_fmap_ext; [exact Hnodup|]. intros i q _. simpl.
      by case_bool_decide.
  - intros [= _ <-]; simpl. split; [apply elem_of_app; by left|].
    rewrite fmap_app. apply NoDup_app. split; [done|]. split; [|apply NoDup_singleton].
    intros i Hi ->%list_elem_of_singleton. apply maxID_ge in Hi. simpl in Hi. lia.
Qed.

Lemma upsertProviderModel_catalogs X provider catalog model s r s' :
  upsertProviderModel X provider catalog model s = (r, s') →
  modelCatalogs s' = modelCatalogs s.
Proof.
  unfold upsertProviderModel.
  destruct (isEmpty _); [by intros [= _ <-]|].
  unfold bind, orError, ret, providerModelRepo.FindByFilter; simpl.
  destruct (take 1 _) as [|pm ?]; [|by intros [= _ <-]].
  unfold secureID. destruct (GenerateSecureID _ _ _ _); by intros [= _ <-].
Qed.

Lemma syncLoop_keeps_enriched X provider models results s r s' e :
  NoDup (ModelCatalog.ID <$> modelCatalogs s) →
  e ∈ modelCatalogs s →
  ModelCatalog.Status e ≠ ModelCatalogStatusInit →
  syncLoop X provider results models s = (r, s') →
  e ∈ modelCatalogs s'.
Proof.
  revert results s. induction models as [|m models IH]; intros results s Hnodup He Hst.
  - by intros [= _ <-].
  - simpl. unfold bind at 1.
    destruct (upsertCatalog X (Provider.Kind provider) m s) as [o s1] eqn:Hc.
    destruct (upsertCatalog_keeps_enriched _ _ _ _ _ _ e Hnodup He Hst Hc) as [He1 Hnodup1].
    destruct o as [c| | |]; [|by intros [= _ <-]..].
    unfold bind at 1.
    destruct (upsertProviderModel X provider (Some c) m s1) as [o s2] eqn:Hpm.
    apply upsertProviderModel_catalogs in Hpm.
    destruct o as [pm| | |]; [|intros [= _ <-]; by rewrite Hpm..].
    apply IH; by rewrite ?Hpm.
Qed.

Lemma SyncProviderModels_keeps_enriched X provider models s r s' e :
  NoDup (ModelCatalog.ID <$> modelCatalogs s) →
  e ∈ modelCatalogs s →
  ModelCatalog.Status e ≠ ModelCatalogStatusInit →
  SyncProviderModels X provider models s = (r, s') →
  e ∈ modelCatalogs s'.
Proof.
  intros Hnodup He Hst. unfold SyncProviderModels.
  destruct provider as [provider|]; [|by intros [= _ <-]].
  unfold bind at 1, syncModels.
  destruct (syncLoop X provider [] models s) as [o s1] eqn:Hloop.
  apply (syncLoop_keeps_enriched _ _ _ _ _ _ _ e Hnodup He Hst) in Hloop.
  destruct o as [res| | |]; [|by intros [= _ <-]..].
  unfold bind, orError, providerRepo.Update, ret. by intros [= _ <-].
Qed.

(** *** Resolution *)

Definition wfAcc (acc : list Provider.t * gset N) : Prop :=
  ∀ i, i ∈ acc.2 ↔ i ∈ Provider.ID <$> acc.1.

Lemma appendUnique_spec items acc :
  wfAcc acc →
  wfAcc (appendUnique items acc)
  ∧ (∃ extra, (appendUnique items acc).1 = acc.1 ++ extra
              ∧ ∀ x, x ∈ extra → x ∈ items)
  ∧ (∀ x, x ∈ items → Provider.ID x ∈ (appendUnique items acc).2).
Proof.
  revert acc. induction items as [|x items IH]; intros acc Hwf.
  - split; [done|]. split; [|by intros x Hx; apply elem_of_nil in Hx].
    exists []. split; [by rewrite app_nil_r|]. by intros x Hx; apply elem_of_nil in Hx.
  - change (appendUnique (x :: items) acc)
      with (appendUnique items
              (if bool_decide (Provider.ID x ∈ acc.2) then acc
               else (acc.1 ++ [x], {[Provider.ID x]} ∪ acc.2))).
    set (acc1 := if bool_decide (Provider.ID x ∈ acc.2) then acc
                 else (acc.1 ++ [x], {[Provider.ID x]} ∪ acc.2)).
    assert (wfAcc acc1) as Hwf1.
    { unfold acc1. case_bool_decide; [done|]. intros i; simpl.
      rewrite fmap_app, elem_of_app, elem_of_union, elem_of_singleton, (Hwf i).
      simpl. rewrite list_elem_of_singleton. tauto. }
    assert (∃ e1, acc1.1 = acc.1 ++ e1 ∧ ∀ y, y ∈ e1 → y = x) as (e1 & He1 & Hx1).
    { unfold acc1. case_bool_decide.
      - exists []. split; [by rewrite app_nil_r|]. by intros y Hy; apply elem_of_nil in Hy.
      - exists [x]. split; [done|]. by intros y Hy%list_elem_of_singleton. }
    assert (Provider.ID x ∈ acc1.2) as Hin1.
    { unfold acc1. case_bool_decide; [done|]. simpl.
      apply elem_of_union. left. by apply elem_of_singleton. }
    destruct (IH acc1 Hwf1) as (Hwf2 & (extra & Hextra & Hsub) & Hids).
    split; [done|]. split.
    + exists (e1 ++ extra). split; [by rewrite Hextra, He1, app_assoc|].
      intros y [Hy|Hy]%elem_of_app.
      * rewrite (Hx1 y Hy). apply list_elem_of_here.
      * apply list_elem_of_further. by apply Hsub.
    + intros y [->|Hy]%elem_of_cons; [|by apply Hids].
      apply Hwf2. rewrite Hextra, fmap_app, elem_of_app. left. by apply Hwf1.
Qed.

Lemma ListAccessibleProviders_eq X org pids s :
  ListAccessibleProviders X org pids s = (Ok (accessibleProviders X org pids s), s).
Proof.
  unfold accessibleProviders, ListAccessibleProviders, bind, ret, providerRepo.FindByFilter.
  case_bool_decide; destruct (DEFAULT_ORGANIZATION X); reflexivity.
Qed.

Lemma matches_projects org pids q :
  providerRepo.matches
    (ProviderFilter.mk None None None (Some org) None (Some pids) None None None None) q
  = true ↔ projectScoped org pids q.
Proof.
  unfold providerRepo.matches, projectScoped; simpl.
  rewrite !andb_true_r. rewrite andb_true_iff, bool_decide_eq_true.
  destruct (Provider.ProjectID q) as [j|].
  - rewrite bool_decide_eq_true. split.
    + intros [? ?]. eauto.
    + intros [? (j' & [= <-] & ?)]. done.
  - split; [by intros [_ ?]|]. by intros [_ (j & ? & _)].
Qed.

Lemma matches_withoutProject org q :
  providerRepo.matches
    (ProviderFilter.mk None None None (Some org) None None (Some true) None None None) q
  = true ↔ Provider.OrganizationID q = Some org ∧ Provider.ProjectID q = None.
Proof.
  unfold providerRepo.matches; simpl.
  by rewrite !andb_true_r, andb_true_iff, !bool_decide_eq_true.
Qed.

Definition projectRows (org : N) (pids : list N) (s : Store) : list Provider.t :=
  filter (λ p, providerRepo.matches
                 (ProviderFilter.mk None None None (Some org) None (Some pids)
                                    None None None None) p = true)
         (providers s).

Definition withoutProjectRows (org : N) (s : Store) : list Provider.t :=
  filter (λ p, providerRepo.matches
                 (ProviderFilter.mk None None None (Some org) None None (Some true)
                                    None None None) p = true)
         (providers s).

Definition projectAcc (org : N) (pids : list N) (s : Store) : list Provider.t * gset N :=
  if bool_decide (0 < length pids) then appendUnique (projectRows org pids s) ([], ∅)
  else ([], ∅).

Lemma accessibleProviders_unfold X org pids s :
  accessibleProviders X org pids s
  = match DEFAULT_ORGANIZATION X with
    | Some d =>
        (appendUnique (withoutProjectRows d s)
           (appendUnique (withoutProjectRows org s) (projectAcc org pids s))).1
    | None => (appendUnique (withoutProjectRows org s) (projectAcc org pids s)).1
    end.
Proof.
  unfold accessibleProviders, ListAccessibleProviders, bind, ret, providerRepo.FindByFilter,
    projectAcc.
  case_bool_decide; destruct (DEFAULT_ORGANIZATION X); reflexivity.
Qed.

(** The order of [ListAccessibleProviders]: first providers of the caller's
    projects, covering every such provider up to identity, then providers
    without a project. *)
Lemma accessibleProviders_order X org pids s :
  ∃ projectPart rest,
    accessibleProviders X org pids s = projectPart ++ rest
    ∧ (∀ q, q ∈ projectPart → q ∈ providers s ∧ projectScoped org pids q)
    ∧ (∀ q, q ∈ rest → q ∈ providers s ∧ Provider.ProjectID q = None)
    ∧ (∀ q, q ∈ providers s → projectScoped org pids q →
            ∃ y, y ∈ projectPart ∧ Provider.ID y = Provider.ID q).
Proof.
  assert (wfAcc ([], ∅)) as Hwf0.
  { intros i; simpl. split; [by intros ?%not_elem_of_empty|by intros ?%elem_of_nil]. }
  set (acc0 := projectAcc org pids s).
  assert (wfAcc acc0
          ∧ (∀ q, q ∈ acc0.1 → q ∈ providers s ∧ projectScoped org pids q)
          ∧ (∀ q, q ∈ providers s → projectScoped org pids q →
                  ∃ y, y ∈ acc0.1 ∧ Provider.ID y = Provider.ID q))
    as (Hwf1 & Hpart & Hcover).
  { unfold acc0, projectAcc. case_bool_decide as Hlen.
    - destruct (appendUnique_spec (projectRows org pids s) ([], ∅) Hwf0)
        as (Hwf & (extra & Hextra & Hsub) & Hids).
      simpl in Hextra. split; [done|]. split.
      + intros q Hq. rewrite Hextra in Hq.
        apply Hsub, list_elem_of_filter in Hq as [Hm Hq].
        split; [done|]. by apply matches_projects.
      + intros q Hq Hscoped.
        assert (q ∈ projectRows org pids s) as Hrow
          by (apply list_elem_of_filter; split; [by apply matches_projects|done]).
        apply Hids, Hwf, list_elem_of_fmap in Hrow as (y & Hid & Hy). eauto.
    - split; [done|]. split; [by intros q ?%elem_of_nil|].
      intros q _ (_ & j & _ & Hj). destruct pids; [by apply elem_of_nil in Hj|].
      simpl in Hlen. lia. }
  destruct (appendUnique_spec (withoutProjectRows org s) acc0 Hwf1)
    as (Hwf2 & (e2 & He2 & Hsub2) & _).
  assert (∀ o q, q ∈ withoutProjectRows o s → q ∈ providers s ∧ Provider.ProjectID q = None)
    as Hrows.
  { intros o q [Hm Hq]%list_elem_of_filter.
    split; [done|]. by apply matches_withoutProject in Hm as [_ ?]. }
  rewrite accessibleProviders_unfold. fold acc0.
  destruct (DEFAULT_ORGANIZATION X) as [d|].
  - destruct (appendUnique_spec (withoutProjectRows d s)
                (appendUnique (withoutProjectRows org s) acc0) Hwf2)
      as (_ & (e3 & He3 & Hsub3) & _).
    exists acc0.1, (e2 ++ e3). split; [by rewrite He3, He2, app_assoc|].
    split; [done|]. split; [|done].
    intros q [Hq|Hq]%elem_of_app; eauto.
  - exists acc0.1, e2. split; [done|]. split; [done|]. split; [|done]. eauto.
Qed.

Lemma find_first {A} (f : A → bool) l :
  match find f l with
  | Some p => ∃ l1 l2, l = l1 ++ p :: l2 ∧ f p = true ∧ ∀ q, q ∈ l1 → f q = false
  | None => ∀ q, q ∈ l → f q = false
  end.
Proof.
  induction l as [|x l IH]; simpl.
  - by intros q ?%elem_of_nil.
  - destruct (f x) eqn:Hx.
    + exists [], l. split; [done|]. split; [done|]. by intros q ?%elem_of_nil.
    + destruct (find f l) as [p|].
      * destruct IH as (l1 & l2 & -> & Hp & Hl1).
        exists (x :: l1), l2. split; [done|]. split; [done|].
        intros q [->|Hq]%elem_of_cons; auto.
      * intros q [->|Hq]%elem_of_cons; auto.
Qed.

Lemma matches_served ids key pm :
  providerModelRepo.matches
    (ProviderModelFilter.mk None (Some ids) (Some key) (Some true)) pm = true
  ↔ ProviderModel.ProviderID pm ∈ ids
    ∧ ProviderModel.ModelKey pm = key
    ∧ ProviderModel.Active pm = true.
Proof.
  unfold providerModelRepo.matches; simpl.
  rewrite !andb_true_iff, !bool_decide_eq_true. tauto.
Qed.

(** The two outcomes of [GetProviderForModel]: an error, exactly when the
    key is blank or no accessible provider serves it; otherwise the first
    provider, in the order of [ListAccessibleProviders], that serves it.
    The stores are only read. *)
Lemma GetProviderForModel_cases X key org pids s :
  ((isEmpty (TrimSpace key) = true
    ∨ ¬ ∃ q, q ∈ accessibleProviders X org pids s ∧ serves s q key)
   ∧ ∃ e, GetProviderForModel X key org pids s = (Err e, s))
  ∨ (isEmpty (TrimSpace key) = false
     ∧ ∃ p l1 l2,
         GetProviderForModel X key org pids s = (Ok p, s)
         ∧ accessibleProviders X org pids s = l1 ++ p :: l2
         ∧ serves s p key
         ∧ ∀ q, q ∈ l1 → ¬ serves s q key).
Proof.
  unfold GetProviderForModel.
  destruct (isEmpty (TrimSpace key)) eqn:Hkey; [left; split; [by left|by eexists]|].
  unfold bind. rewrite ListAccessibleProviders_eq.
  set (l := accessibleProviders X org pids s).
  case_bool_decide as Hl.
  { left. split; [|by eexists]. right. intros (q & Hq & _).
    destruct l; [by apply elem_of_nil in Hq|done]. }
  case_bool_decide as Hl'; [by rewrite length_fmap in Hl'|].
  unfold providerModelRepo.FindByFilter; simpl.
  set (pms := filter _ (providerModels s)).
  assert (∀ q, q ∈ l →
            bool_decide (Provider.ID q
                         ∈ (list_to_set (ProviderModel.ProviderID <$> pms) : gset N)) = true
            ↔ serves s q key) as Hserves.
  { intros q Hq. rewrite bool_decide_eq_true, elem_of_list_to_set, list_elem_of_fmap.
    split.
    - intros (pm & Hid & [Hm Hpm]%list_elem_of_filter).
      apply matches_served in Hm as (_ & ? & ?). by exists pm.
    - intros (pm & Hpm & Hid & ? & ?). exists pm. split; [done|].
      apply list_elem_of_filter. split; [|done].
      apply matches_served. split; [|done]. rewrite Hid. by apply list_elem_of_fmap_2. }
  case_bool_decide as Hpms.
  { left. split; [|by eexists]. right. intros (q & Hq & pm & Hpm & Hid & ? & ?).
    assert (pm ∈ pms) as Hin.
    { apply list_elem_of_filter. split; [|done].
      apply matches_served. split; [|done]. rewrite Hid. by apply list_elem_of_fmap_2. }
    destruct pms; [by apply elem_of_nil in Hin|done]. }
  pose proof (find_first
                (λ provider,
                   bool_decide (Provider.ID provider
                                ∈ (list_to_set (ProviderModel.ProviderID <$> pms) : gset N)))
                l) as Hfind.
  destruct (find _ l) as [p|].
  - right. split; [done|]. destruct Hfind as (l1 & l2 & Hsplit & Hp & Hl1).
    exists p, l1, l2. split; [done|]. split; [done|]. split.
    + apply Hserves; [|done]. rewrite Hsplit. apply elem_of_app. right.
      apply list_elem_of_here.
    + intros q Hq Hs. apply Hserves in Hs.
      * by rewrite (Hl1 q Hq) in Hs.
      * rewrite Hsplit. apply elem_of_app. by left.
  - exfalso. destruct pms as [|pm pms'] eqn:Epms; [done|].
    assert (pm ∈ pms) as Hin by (rewrite Epms; apply list_elem_of_here).
    unfold pms in Hin. apply list_elem_of_filter in Hin as [Hm _].
    apply matches_served in Hm as (Hid & _ & _).
    apply list_elem_of_fmap in Hid as (q & Hid & Hq).
    specialize (Hfind q Hq). apply bool_decide_eq_false in Hfind. apply Hfind.
    apply elem_of_list_to_set. rewrite <- Hid, <- Epms.
    apply list_elem_of_fmap_2. rewrite Epms. apply list_elem_of_here.
Qed.

(** C4: resolution honours the priority of scopes.  When an
    organization-scoped provider [P1] and a provider [P2] of one of the
    caller's projects, in the same organization, both serve [shared], then
    [GetProviderForModel] returns a provider of the caller's projects that
    serves [shared], never [P1]: the first provider serving [shared] in the
    order of [ListAccessibleProviders] (projects, then organization, then
    platform default, each provider once).  It is [P2] itself when no other
    provider of the caller's projects serves [shared]. *)
Theorem GetProviderForModel_scope_priority X s shared org pids P1 P2 :
  isEmpty (TrimSpace shared) = false →
  P1 ∈ providers s →
  Provider.OrganizationID P1 = Some org →
  Provider.ProjectID P1 = None →
  serves s P1 shared →
  P2 ∈ providers s →
  projectScoped org pids P2 →
  serves s P2 shared →
  ∃ p l1 l2,
    GetProviderForModel X shared org pids s = (Ok p, s)
    ∧ p ≠ P1
    ∧ projectScoped org pids p
    ∧ serves s p shared
    ∧ accessibleProviders X org pids s = l1 ++ p :: l2
    ∧ (∀ q, q ∈ l1 → ¬ serves s q shared)
    ∧ ((∀ q, q ∈ providers s → projectScoped org pids q → serves s q shared → q = P2)
       → p = P2).
Proof.
  intros Hkey _ _ HP1 _ HP2 Hscoped2 Hserves2.
  destruct (accessibleProviders_order X org pids s)
    as (projectPart & rest & Hsplit & Hpart & _ & Hcover).
  destruct (Hcover P2 HP2 Hscoped2) as (y & Hy & Hid).
  assert (serves s y shared) as Hservesy.
  { destruct Hserves2 as (pm & ? & Hpm & ? & ?). exists pm. by rewrite Hid. }
  destruct (GetProviderForModel_cases X shared org pids s)
    as [[[Hblank|Hnone] _]|(_ & p & l1 & l2 & Hres & Hl & Hp & Hfirst)].
  { congruence. }
  { exfalso. apply Hnone. exists y. split; [|done].
    rewrite Hsplit. apply elem_of_app. by left. }
  assert (p ∈ projectPart) as Hin.
  { rewrite Hsplit in Hl. apply app_eq_app in Hl as (l & [[Hl1 Hl2]|[Hl1 Hl2]]).
    - destruct l as [|x l]; simpl in Hl2.
      + exfalso. rewrite app_nil_r in Hl1. apply (Hfirst y); [|done]. by rewrite <- Hl1.
      + injection Hl2 as <- _. rewrite Hl1. apply elem_of_app. right.
        apply list_elem_of_here.
    - exfalso. apply (Hfirst y); [|done]. rewrite Hl1. apply elem_of_app. by left. }
  destruct (Hpart p Hin) as [Hprov Hscoped].
  exists p, l1, l2. split; [done|]. split.
  { intros ->. destruct Hscoped as (_ & j & Hj & _). congruence. }
  split; [done|]. split; [done|]. split; [done|]. split; [done|].
  intros Honly. by apply Honly.
Qed.

(** The scenario: [P1] for the whole organization 1, [P2] for its project
    10, both serving [shared]. *)
Definition scenarioP1 : Provider.t :=
  Provider.mk 1 "prov_0" "custom-p1" (Some 1%N) None "P1" ProviderCustom
              "https://a.example/v1" "" None false true [] None 0%Z 0%Z.

Definition scenarioP2 : Provider.t :=
  Provider.mk 2 "prov_1" "custom-p2" (Some 1%N) (Some 10%N) "P2" ProviderCustom
              "https://b.example/v1" "" None false true [] None 0%Z 0%Z.

Definition sharedOn (id providerID : N) : ProviderModel.t :=
  ProviderModel.mk id "" providerID None "shared" "shared" (mkPricing []) None None
                   false false false true.

Definition scenarioStore : Store :=
  mkStore [scenarioP1; scenarioP2] [sharedOn 1 1; sharedOn 2 2] [] 2.

Lemma GetProviderForModel_scope_priority_witness :
  GetProviderForModel sound "shared" 1 [10%N] scenarioStore = (Ok scenarioP2, scenarioStore).
Proof.
  assert (serves scenarioStore scenarioP1 "shared") as Hs1.
  { exists (sharedOn 1 1). split; [apply list_elem_of_here|done]. }
  assert (serves scenarioStore scenarioP2 "shared") as Hs2.
  { exists (sharedOn 2 2).
    split; [apply list_elem_of_further, list_elem_of_here|done]. }
  assert (projectScoped 1 [10%N] scenarioP2) as Hsc2.
  { split; [done|]. exists 10%N. split; [done|apply list_elem_of_here]. }
  destruct (GetProviderForModel_scope_priority sound scenarioStore "shared" 1 [10%N]
              scenarioP1 scenarioP2 eq_refl (list_elem_of_here _ _) eq_refl eq_refl Hs1
              (list_elem_of_further _ _ _ (list_elem_of_here _ _)) Hsc2 Hs2)
    as (p & l1 & l2 & Hres & _ & _ & _ & _ & _ & Honly).
  rewrite Hres. f_equal. f_equal. apply Honly.
  intros q Hq (_ & j & Hj & _) _.
  apply elem_of_cons in Hq as [->|Hq]; [done|].
  by apply list_elem_of_singleton in Hq.
Defined.


(** With no provider registered the built-in provider answers, flagged; in
    the scenario above the project's provider answers, unflagged. *)
Example GetProviderForModelOrDefault_examples :
  (∃ e, GetProviderForModelOrDefault sound "shared" 1 [10%N] emptyStore
        = (Ok (DefaultProvider sound, true, Some e), emptyStore))
  ∧ (∃ e, GetProviderForModelOrDefault sound "absent" 1 [10%N] scenarioStore
          = (Ok (DefaultProvider sound, true, Some e), scenarioStore))
  ∧ GetProviderForModelOrDefault sound "shared" 1 [10%N] scenarioStore
    = (Ok (scenarioP2, false, None), scenarioStore).
Proof. split; [|split]; [eexists; by vm_compute..|by vm_compute]. Qed.

(** *** One provider of a vendor kind per scope *)






(** *** Synchronisation of a batch *)

Lemma syncLoop_cons X provider results model rest s :
  syncLoop X provider results (model :: rest) s
  = match syncStep X provider model s with
    | (Ok r, s') => syncLoop X provider (results ++ [r]) rest s'
    | (Err e, s') => (Err e, s')
    | (Panic, s') => (Panic, s')
    | (OutOfFuel, s') => (OutOfFuel, s')
    end.
Proof.
  simpl. unfold syncStep, bind, ret.
  destruct (upsertCatalog _ _ _ s) as [[c| | |] s1]; [|done..].
  by destruct (upsertProviderModel _ _ _ _ s1) as [[pm| | |] s2].
Qed.

Lemma syncLoop_app X provider results before after s :
  syncLoop X provider results (before ++ after) s
  = match syncLoop X provider results before s with
    | (Ok results', s') => syncLoop X provider results' after s'
    | other => other
    end.
Proof.
  revert results s. induction before as [|m before IH]; intros results s; [done|].
  rewrite <- app_comm_cons, !syncLoop_cons.
  destruct (syncStep X provider m s) as [[r| | |] s1]; [apply IH|done..].
Qed.

(** [upsertCatalog] returns an entry; it writes to the catalog table only,
    where it keeps every row or rewrites it in place as the entry of the
    model. *)
Lemma upsertCatalog_total X kind model s :
  ∃ c s', upsertCatalog X kind model s = (Ok c, s')
          ∧ providers s' = providers s
          ∧ providerModels s' = providerModels s
          ∧ ∀ c0, c0 ∈ modelCatalogs s →
                  c0 ∈ modelCatalogs s'
                  ∨ ∃ c', c' ∈ modelCatalogs s'
                          ∧ ModelCatalog.ID c' = ModelCatalog.ID c0
                          ∧ ModelCatalog.PublicID c' = catalogPublicID model.
Proof.
  unfold upsertCatalog, bind, orError, ret, modelCatalogRepo.FindByPublicID.
  destruct (head _) as [existing|]; simpl.
  - destruct (bool_decide _ || bool_decide _).
    + eexists _, _. split; [done|]. split; [done|]. split; [done|]. by left.
    + eexists _, _. split; [done|]. simpl. split; [done|]. split; [done|].
      intros c0 Hc0. destruct (decide (ModelCatalog.ID c0 = ModelCatalog.ID existing)) as [Hid|Hid].
      * right. eexists. split.
        { apply list_elem_of_fmap. exists c0. split; [|done].
          rewrite bool_decide_true; [done|].
          by destruct (bool_decide _ && bool_decide _). }
        by destruct (bool_decide _ && bool_decide _).
      * left. apply list_elem_of_fmap. exists c0. split; [|done].
        rewrite bool_decide_false; [done|].
        by destruct (bool_decide _ && bool_decide _).
  - eexists _, _. split; [done|]. simpl. split; [done|]. split; [done|].
    intros c0 Hc0. left. apply elem_of_app. by left.
Qed.

(** A failing [upsertProviderModel] has written no row. *)
Lemma upsertProviderModel_Err X provider catalog model s e s' :
  upsertProviderModel X provider catalog model s = (Err e, s') → sameTables s s'.
Proof.
  unfold upsertProviderModel.
  destruct (isEmpty _); [by intros [= _ <-]|].
  unfold bind, orError, ret, providerModelRepo.FindByFilter; simpl.
  destruct (take 1 _) as [|pm ?]; [|done].
  destruct (secureID X "pmdl" 32 s) as [[id| | |] s1] eqn:Hid; [done| |done..].
  intros [= _ <-]. by apply secureID_tables in Hid.
Qed.

(** C6, amended: when the models before [model] have been synced and the
    turn of [model] fails, whatever the failure, [syncModels] returns that
    error at once, for any models after it; the stores stay as that turn
    left them: the provider-model and provider rows written so far are all
    there, and every catalog row is there as it was or rewritten in place as
    the entry of [model].  Nothing is rolled back. *)
Theorem syncModels_fails_fast X provider before model after s results s1 e s2 :
  syncModels X provider before s = (Ok results, s1) →
  syncStep X provider model s1 = (Err e, s2) →
  syncModels X provider (before ++ model :: after) s = (Err e, s2)
  ∧ SyncProviderModels X (Some provider) (before ++ model :: after) s = (Err e, s2)
  ∧ providers s2 = providers s1
  ∧ providerModels s2 = providerModels s1
  ∧ ∀ c, c ∈ modelCatalogs s1 →
         c ∈ modelCatalogs s2
         ∨ ∃ c', c' ∈ modelCatalogs s2
                 ∧ ModelCatalog.ID c' = ModelCatalog.ID c
                 ∧ ModelCatalog.PublicID c' = catalogPublicID model.
Proof.
  intros Hbefore Hstep.
  assert (syncModels X provider (before ++ model :: after) s = (Err e, s2)) as Hsync.
  { unfold syncModels in *. by rewrite syncLoop_app, Hbefore, syncLoop_cons, Hstep. }
  split; [done|]. split.
  { unfold SyncProviderModels, bind. by rewrite Hsync. }
  unfold syncStep, bind in Hstep.
  destruct (upsertCatalog_total X (Provider.Kind provider) model s1)
    as (c & s' & Hc & Hp & Hpm & Hrows).
  rewrite Hc in Hstep.
  destruct (upsertProviderModel X provider (Some c) model s') as [[pm| | |] s3] eqn:Hupm;
    try done.
  injection Hstep as <- <-.
  apply upsertProviderModel_Err in Hupm as (Hp' & Hpm' & Hc').
  split; [congruence|]. split; [congruence|]. by rewrite Hc'.
Qed.

Definition discovered (id : string) : ChatModel.t := ChatModel.mk id "" "" [].

Definition customStore : Store := mkStore [scenarioP1] [] [] 0.

(** The platform whose second secure identifier cannot be drawn. *)
Definition flaky : Externals := platform (Some 1%N).

(** C6, as stated, fails: the loop returns on the first error of any kind.
    Here the identifier of the second model's row cannot be generated; the
    sync ends with that error and the third model is never looked at. *)
Lemma syncModels_counterexample :
  ¬ abortsOnlyOnMissingKey flaky scenarioP1
      [discovered "alpha"; discovered "beta"; discovered "gamma"] customStore.
Proof.
  intros H.
  let r := eval vm_compute in
             (syncModels flaky scenarioP1
                [discovered "alpha"; discovered "beta"; discovered "gamma"] customStore) in
  match r with
  | (Err ?e, ?s') =>
      specialize (H e s' ltac:(by vm_compute) ltac:(by vm_compute)
                    (discovered "gamma")
                    ltac:(do 2 apply list_elem_of_further; apply list_elem_of_here))
  end.
  destruct H as (c & Hc & Hid). simpl in Hc.
  apply elem_of_cons in Hc as [->|Hc]; [by vm_compute in Hid|].
  apply list_elem_of_singleton in Hc as ->. by vm_compute in Hid.
Qed.

Definition afterAlpha : Store :=
  snd (syncModels flaky scenarioP1 [discovered "alpha"] customStore).

Definition afterBeta : Store :=
  snd (syncStep flaky scenarioP1 (discovered "beta") afterAlpha).

Definition idgenError : CommonError :=
  NewError (errorString "entropy source unavailable") "62e9b0fb-a7f6-435c-9436-955f57843c73".

Lemma syncModels_fails_fast_witness :
  (∃ results, syncModels flaky scenarioP1 [discovered "alpha"] customStore
              = (Ok results, afterAlpha))
  ∧ syncStep flaky scenarioP1 (discovered "beta") afterAlpha = (Err idgenError, afterBeta)
  ∧ SyncProviderModels flaky (Some scenarioP1)
      ([discovered "alpha"] ++ discovered "beta" :: [discovered "gamma"]) customStore
    = (Err idgenError, afterBeta)
  ∧ length (providerModels afterBeta) = 1
  ∧ length (modelCatalogs afterBeta) = 2.
Proof.
  destruct (syncModels flaky scenarioP1 [discovered "alpha"] customStore)
    as [[results| | |] s1] eqn:H1; try (by vm_compute in H1).
  assert (s1 = afterAlpha) as -> by (unfold afterAlpha; by rewrite H1).
  assert (syncStep flaky scenarioP1 (discovered "beta") afterAlpha
          = (Err idgenError, afterBeta)) as H2 by (by vm_compute).
  split; [by exists results|]. split; [exact H2|].
  destruct (syncModels_fails_fast flaky scenarioP1 [discovered "alpha"]
              (discovered "beta") [discovered "gamma"] customStore results afterAlpha
              idgenError afterBeta H1 H2) as (_ & Hres & _).
  split; [exact Hres|]. split; by vm_compute.
Defined.

End RegistryProperties.

Module RouteProperties.
Import GoStrings ProviderRegistry RegistryProperties.

(** *** The completion route *)

(** C8: a request that binds but carries no message is answered with status
    400 and the message [messages cannot be empty], streaming or not, and
    the handler makes no call at all: the provider is not resolved and no
    backend is contacted. *)
Theorem PostCompletion_rejects_empty_messages
    Response X (C : CompletionAPI.Collaborators Response) request s :
  CompletionAPI.Messages request = [] →
  CompletionAPI.PostCompletion Response X C (inr request) s
  = (Some (CompletionAPI.AbortWithStatusJSON Response 400
             (CompletionAPI.mkErrorResponse "0199600f-2cbe-7518-be5c-9989cce59472"
                                            "messages cannot be empty" None)),
     [])
  ∧ Forall (λ c, CompletionAPI.isBackendCall c = false)
           (CompletionAPI.PostCompletion Response X C (inr request) s).2.
Proof.
  intros Hempty. unfold CompletionAPI.PostCompletion. rewrite Hempty. simpl.
  split; [done|]. apply Forall_nil_2.
Qed.

(** A backend that echoes the model name. *)
Definition echoBackend : CompletionAPI.Collaborators string :=
  CompletionAPI.mkCollaborators string
    (Some (CompletionAPI.mkUser 7))
    (λ _ _, inr [CompletionAPI.mkProject 10 "proj_10"])
    (λ _, None)
    (λ _ request, inr (CompletionAPI.Model request))
    (λ _ _, None).

Lemma PostCompletion_rejects_empty_messages_witness :
  CompletionAPI.PostCompletion string sound echoBackend
    (inr (CompletionAPI.mkRequest "shared" [] true)) scenarioStore
  = (Some (CompletionAPI.AbortWithStatusJSON string 400
             (CompletionAPI.mkErrorResponse "0199600f-2cbe-7518-be5c-9989cce59472"
                                            "messages cannot be empty" None)),
     []).
Proof.
  exact (proj1 (PostCompletion_rejects_empty_messages string sound echoBackend
                  (CompletionAPI.mkRequest "shared" [] true) scenarioStore eq_refl)).
Defined.

(** With a message the same request resolves its provider and reaches the
    backend. *)
Example PostCompletion_with_a_message :
  CompletionAPI.PostCompletion string sound echoBackend
    (inr (CompletionAPI.mkRequest "shared" [CompletionAPI.mkMessage "user" "hello"] false))
    scenarioStore
  = (Some (CompletionAPI.JSON string 200 "shared"),
     [CompletionAPI.CallFindProjects;
      CompletionAPI.CallGetProviderForModelOrDefault "shared";
      CompletionAPI.CallGetChatCompletionClient scenarioP2;
      CompletionAPI.CallCreateChatCompletion scenarioP2]).
Proof. by vm_compute. Qed.

(** *** The provider listing route *)

Section Sorting.

Context {A : Type} (lt : A → A → bool).
Hypothesis lt_asym : ∀ a b, lt a b = true → lt b a = false.

(** [b] may follow [a]. *)
Definition notBefore (a b : A) : Prop := lt b a = false.

Lemma insertBy_perm x l : ProvidersAPI.insertBy lt x l ≡ₚ x :: l.
Proof.
  induction l as [|y l IH]; simpl; [done|].
  destruct (lt x y); [done|]. rewrite IH. apply Permutation_swap.
Qed.

Lemma sortSlice_perm l : ProvidersAPI.sortSlice lt l ≡ₚ l.
Proof.
  induction l as [|x l IH]; simpl; [done|].
  unfold ProvidersAPI.sortSlice in *. simpl. by rewrite insertBy_perm, IH.
Qed.

Lemma insertBy_sorted x l :
  Sorted notBefore l → Sorted notBefore (ProvidersAPI.insertBy lt x l).
Proof.
  induction 1 as [|y l Hl IH Hhd]; simpl.
  - by repeat constructor.
  - destruct (lt x y) eqn:Hxy.
    + constructor; [by constructor|]. constructor. by apply lt_asym.
    + constructor; [done|].
      destruct l as [|z l]; simpl.
      * by constructor.
      * inversion Hhd; subst. destruct (lt x z); by constructor.
Qed.

Lemma sortSlice_sorted l : Sorted notBefore (ProvidersAPI.sortSlice lt l).
Proof.
  induction l as [|x l IH]; [by constructor|]. by apply insertBy_sorted.
Qed.

End Sorting.

Lemma Sorted_restrict {A} (R R' : A → A → Prop) (P : A → Prop) l :
  (∀ a b, P a → P b → R a b → R' a b) →
  Forall P l → Sorted R l → Sorted R' l.
Proof.
  intros HR HP. induction 1 as [|x l Hl IH Hhd]; [by constructor|].
  apply Forall_cons in HP as [Hx HP]. constructor; [by apply IH|].
  destruct Hhd as [|y l' Hxy]; constructor.
  apply Forall_cons in HP as [Hy _]. by apply HR.
Qed.

Lemma ltb_false_le a b : String.ltb a b = false → String.le b a.
Proof.
  unfold String.ltb, String.le, String.leb. rewrite (String.compare_antisym a b).
  by destruct (String.compare b a).
Qed.

Lemma less_asym a b : ProvidersAPI.less a b = true → ProvidersAPI.less b a = false.
Proof.
  unfold ProvidersAPI.less. case_bool_decide as Hab.
  - rewrite bool_decide_true by done. unfold String.ltb.
    rewrite (String.compare_antisym (ProvidersAPI.Name a) (ProvidersAPI.Name b)).
    by destruct (String.compare _ _).
  - rewrite bool_decide_false by done. intros ?%Nat.ltb_lt. apply Nat.ltb_ge. lia.
Qed.

Lemma scopeOrder_labels a b :
  a ∈ ProvidersAPI.scopeLabels → b ∈ ProvidersAPI.scopeLabels →
  ProvidersAPI.getScopeOrder a = ProvidersAPI.getScopeOrder b → a = b.
Proof.
  unfold ProvidersAPI.scopeLabels. rewrite !elem_of_cons, !elem_of_nil.
  intros [->|[->|[->|[]]]] [->|[->|[->|[]]]]; by vm_compute.
Qed.

Lemma notBefore_scopeNameLe a b :
  ProvidersAPI.Scope a ∈ ProvidersAPI.scopeLabels →
  ProvidersAPI.Scope b ∈ ProvidersAPI.scopeLabels →
  notBefore ProvidersAPI.less a b → ProvidersAPI.scopeNameLe a b.
Proof.
  intros Ha Hb. unfold notBefore, ProvidersAPI.less, ProvidersAPI.scopeNameLe.
  case_bool_decide as Hba.
  - intros ?%ltb_false_le. right. by rewrite Hba.
  - intros Hge%Nat.ltb_ge. left.
    destruct (decide (ProvidersAPI.getScopeOrder (ProvidersAPI.Scope a)
                      = ProvidersAPI.getScopeOrder (ProvidersAPI.Scope b))) as [Heq|];
      [|lia].
    by apply scopeOrder_labels in Heq.
Qed.

#[local] Instance scopeNameLe_trans : Transitive ProvidersAPI.scopeNameLe.
Proof.
  intros a b c [Hab|[Hab Hab']] [Hbc|[Hbc Hbc']]; unfold ProvidersAPI.scopeNameLe.
  - left; lia.
  - left; lia.
  - left; lia.
  - right. split; [lia|]. by etrans.
Qed.

Lemma summarize_label scope ids p :
  scope p ∈ ProvidersAPI.scopeLabels →
  ProvidersAPI.Scope (ProvidersAPI.summarize scope ids p) ∈ ProvidersAPI.scopeLabels.
Proof. done. Qed.

Lemma scopeOf_label p : ProvidersAPI.scopeOf p ∈ ProvidersAPI.scopeLabels.
Proof.
  unfold ProvidersAPI.scopeOf, ProvidersAPI.scopeLabels.
  destruct (Provider.ProjectID p), (Provider.OrganizationID p);
    rewrite !elem_of_cons; auto.
Qed.

Lemma scopeOfV1_label d org p : ProvidersAPI.scopeOfV1 d org p ∈ ProvidersAPI.scopeLabels.
Proof.
  unfold ProvidersAPI.scopeOfV1, ProvidersAPI.scopeLabels.
  destruct (Provider.ProjectID p), (Provider.OrganizationID p), d;
    try destruct (bool_decide _ && bool_decide _); rewrite !elem_of_cons; auto.
Qed.

(** The listing of the summaries [data] under either route. *)
Lemma sortSlice_listing (data : list ProvidersAPI.providerSummary) :
  Forall (λ d, ProvidersAPI.Scope d ∈ ProvidersAPI.scopeLabels) data →
  ProvidersAPI.sortSlice ProvidersAPI.less data ≡ₚ data
  ∧ StronglySorted ProvidersAPI.scopeNameLe (ProvidersAPI.sortSlice ProvidersAPI.less data).
Proof.
  intros Hlabels. split; [apply sortSlice_perm|].
  apply Sorted_StronglySorted; [apply scopeNameLe_trans|].
  apply (Sorted_restrict (notBefore ProvidersAPI.less) _
           (λ d, ProvidersAPI.Scope d ∈ ProvidersAPI.scopeLabels)).
  - intros a b. apply notBefore_scopeNameLe.
  - by rewrite sortSlice_perm.
  - apply sortSlice_sorted, less_asym.
Qed.

Lemma StronglySorted_lookup {A} (R : A → A → Prop) l i j a b :
  StronglySorted R l → i < j → l !! i = Some a → l !! j = Some b → R a b.
Proof.
  intros Hl. revert i j. induction Hl as [|x l Hl IH Hx]; intros i j Hij Hi Hj.
  - by rewrite lookup_nil in Hi.
  - destruct j as [|j]; [lia|]. simpl in Hj. destruct i as [|i]; simpl in Hi.
    + injection Hi as <-. rewrite Forall_forall in Hx.
      by eapply Hx, list_elem_of_lookup_2.
    + apply (IH i j); [lia|done..].
Qed.

Lemma listing_sortSlice scope ids providers_ :
  (∀ p, scope p ∈ ProvidersAPI.scopeLabels) →
  ProvidersAPI.listing scope ids providers_
    (ProvidersAPI.sortSlice ProvidersAPI.less
       (ProvidersAPI.summarize scope ids <$> providers_)).
Proof.
  intros Hscope.
  assert (Forall (λ d, ProvidersAPI.Scope d ∈ ProvidersAPI.scopeLabels)
                 (ProvidersAPI.summarize scope ids <$> providers_)) as Hlabels.
  { apply Forall_fmap, Forall_forall. intros p _. apply Hscope. }
  destruct (sortSlice_listing _ Hlabels) as [Hperm Hsorted].
  split; [done|]. split; [by rewrite Hperm|].
  intros i j a b Hij Hi Hj.
  assert (ProvidersAPI.Scope a ∈ ProvidersAPI.scopeLabels
          ∧ ProvidersAPI.Scope b ∈ ProvidersAPI.scopeLabels) as [Ha Hb].
  { rewrite <- Hperm in Hlabels. rewrite Forall_forall in Hlabels.
    split; apply Hlabels; by eapply list_elem_of_lookup_2. }
  destruct (StronglySorted_lookup _ _ i j a b Hsorted Hij Hi Hj) as [Hlt|[Heq Hname]].
  - split; [lia|]. intros Hsame. rewrite Hsame in Hlt. lia.
  - split; [lia|done].
Qed.

(** C9, as stated, fails: the rank of [project] is the largest, so that an
    organization-scoped provider is listed before a project-scoped one. *)
Lemma listProviders_counterexample : ¬ ProvidersAPI.listedByScopePriority.
Proof.
  intros H.
  specialize (H ∅ [scenarioP2; scenarioP1] 200 "list" _ eq_refl 1 0
                (ProvidersAPI.summarize ProvidersAPI.scopeOf ∅ scenarioP2)
                (ProvidersAPI.summarize ProvidersAPI.scopeOf ∅ scenarioP1)
                eq_refl eq_refl eq_refl eq_refl).
  lia.
Qed.

(** C9, amended: the listing returns the accessible providers, each once
    and tagged [project], [organization] or [jan] (the platform default),
    sorted by scope in the order platform default, organization, project,
    and by name within a scope.  This holds for the current route, on the
    providers resolved for the caller, and for the earlier route, on the
    providers that [ListAccessibleProviders] returns. *)
Theorem listProviders_sorted X projectPublicIDs providers_ user findProjects s :
  (∃ data,
      ProvidersAPI.listProviders (Some (projectPublicIDs, providers_))
      = Some (ProvidersAPI.JSON 200 "list" data)
      ∧ ProvidersAPI.listing ProvidersAPI.scopeOf projectPublicIDs providers_ data)
  ∧ match ProvidersAPI.listProvidersV1 X user findProjects s with
    | Some (ProvidersAPI.JSON status object data) =>
        status = 200 ∧ object = "list"
        ∧ ∃ u orgID projects ids,
            user = Some u
            ∧ DEFAULT_ORGANIZATION X = Some orgID
            ∧ findProjects orgID (CompletionAPI.UserID u) = inr projects
            ∧ ProvidersAPI.listing
                (ProvidersAPI.scopeOfV1 (DEFAULT_ORGANIZATION X) orgID) ids
                (accessibleProviders X orgID (CompletionAPI.ProjectID <$> projects) s)
                data
    | _ => True
    end.
Proof.
  split.
  - eexists. split; [done|]. apply listing_sortSlice, scopeOf_label.
  - unfold ProvidersAPI.listProvidersV1.
    destruct user as [u|]; [|done].
    destruct (DEFAULT_ORGANIZATION X) as [orgID|] eqn:Hd; [|done].
    destruct (findProjects orgID (CompletionAPI.UserID u)) as [[msg]|projects] eqn:Hfind;
      [done|].
    rewrite ListAccessibleProviders_eq.
    split; [done|]. split; [done|].
    eexists u, orgID, projects, _. split; [done|]. split; [done|]. split; [done|].
    rewrite <- Hd. apply listing_sortSlice. intros p. apply scopeOfV1_label.
Qed.

(** The listing of the scenario: the organization's provider first. *)
Example listProviders_scenario :
  ProvidersAPI.listProviders (Some (∅, [scenarioP2; scenarioP1]))
  = Some (ProvidersAPI.JSON 200 "list"
            [ProvidersAPI.summarize ProvidersAPI.scopeOf ∅ scenarioP1;
             ProvidersAPI.summarize ProvidersAPI.scopeOf ∅ scenarioP2]).
Proof. reflexivity. Qed.

End RouteProperties.

(** * Further properties of the code *)

Module KeyProperties.
Import Base64.

Example EncodeToString_rfc4648 :
  EncodeToString "" = "" ∧ EncodeToString "f" = "Zg" ∧ EncodeToString "fo" = "Zm8"
  ∧ EncodeToString "foo" = "Zm9v" ∧ EncodeToString "foob" = "Zm9vYg"
  ∧ EncodeToString "fooba" = "Zm9vYmE" ∧ EncodeToString "foobar" = "Zm9vYmFy".
Proof. by vm_compute. Qed.

(** *** Facts about bytes, by enumeration *)

Definition allBytes : list ascii := ascii_of_nat <$> seq 0 256.

Lemma elem_of_allBytes a : a ∈ allBytes.
Proof.
  rewrite <- (ascii_nat_embedding a). apply list_elem_of_fmap_2, elem_of_seq.
  pose proof (nat_ascii_bounded a). lia.
Qed.

Lemma forall_bytes (P : ascii → bool) : forallb P allBytes = true → ∀ a, P a = true.
Proof.
  intros H a. rewrite forallb_forall in H. apply H, list_elem_of_In, elem_of_allBytes.
Qed.

Lemma forall_bytes2 (P : ascii → ascii → bool) :
  forallb (λ a, forallb (P a) allBytes) allBytes = true → ∀ a b, P a b = true.
Proof.
  intros H a b. apply (forall_bytes (P a)). by apply (forall_bytes _ H).
Qed.

Lemma N_of_ascii_inj a b : N_of_ascii a = N_of_ascii b → a = b.
Proof. intros H. by rewrite <- (ascii_N_embedding a), H, ascii_N_embedding. Qed.

(** *** The six-bit groups *)

Definition idx (val shift : N) : N := N.land (N.shiftr val shift) 63.

Definition val3 (a b c : ascii) : N :=
  N.lor (N.lor (N.shiftl (N_of_ascii a) 16) (N.shiftl (N_of_ascii b) 8)) (N_of_ascii c).

Lemma idx_lt val shift : (idx val shift < 64)%N.
Proof.
  unfold idx. change 63%N with (N.ones 6). rewrite N.land_ones. by apply N.mod_lt.
Qed.

Lemma idx_lor x y k : idx (N.lor x y) k = N.lor (idx x k) (idx y k).
Proof. unfold idx. by rewrite N.shiftr_lor, N.land_lor_distr_l. Qed.

Lemma byte_fact (f g : ascii → N) :
  forallb (λ a, f a =? g a)%N allBytes = true → ∀ a, f a = g a.
Proof. intros H a. apply N.eqb_eq. by apply (forall_bytes (λ a, f a =? g a)%N). Qed.

Lemma byte_fact2 (f g : ascii → ascii → N) :
  forallb (λ a, forallb (λ b, f a b =? g a b)%N allBytes) allBytes = true →
  ∀ a b, f a b = g a b.
Proof. intros H a b. apply N.eqb_eq. by apply (forall_bytes2 (λ a b, f a b =? g a b)%N). Qed.

(** The part of each byte in each group. *)
Definition hi (k : N) (a : ascii) : N := idx (N.shiftl (N_of_ascii a) 16) k.
Definition mid (k : N) (b : ascii) : N := idx (N.shiftl (N_of_ascii b) 8) k.
Definition lo (k : N) (c : ascii) : N := idx (N_of_ascii c) k.

Lemma idx_val3 a b c k : idx (val3 a b c) k = N.lor (N.lor (hi k a) (mid k b)) (lo k c).
Proof. unfold val3, hi, mid, lo. by rewrite !idx_lor. Qed.

Lemma mid18 b : mid 18 b = 0%N.
Proof. revert b. apply byte_fact. by vm_compute. Qed.
Lemma lo18 c : lo 18 c = 0%N.
Proof. revert c. apply byte_fact. by vm_compute. Qed.
Lemma lo12 c : lo 12 c = 0%N.
Proof. revert c. apply byte_fact. by vm_compute. Qed.
Lemma hi6 a : hi 6 a = 0%N.
Proof. revert a. apply byte_fact. by vm_compute. Qed.
Lemma hi0 a : hi 0 a = 0%N.
Proof. revert a. apply byte_fact. by vm_compute. Qed.
Lemma mid0 b : mid 0 b = 0%N.
Proof. revert b. apply byte_fact. by vm_compute. Qed.

Lemma idx18 a b c : idx (val3 a b c) 18 = hi 18 a.
Proof. by rewrite idx_val3, mid18, lo18, !N.lor_0_r. Qed.
Lemma idx12 a b c : idx (val3 a b c) 12 = N.lor (hi 12 a) (mid 12 b).
Proof. by rewrite idx_val3, lo12, !N.lor_0_r. Qed.
Lemma idx6 a b c : idx (val3 a b c) 6 = N.lor (mid 6 b) (lo 6 c).
Proof. by rewrite idx_val3, hi6, N.lor_0_l. Qed.
Lemma idx0 a b c : idx (val3 a b c) 0 = lo 0 c.
Proof. by rewrite idx_val3, hi0, mid0, !N.lor_0_l. Qed.

(** Each byte is read back from two neighbouring groups. *)
Definition decA (i0 i1 : N) : N := N.lor (N.shiftl i0 2) (N.shiftr i1 4).
Definition decB (i1 i2 : N) : N := N.lor (N.shiftl (N.land i1 15) 4) (N.shiftr i2 2).
Definition decC (i2 i3 : N) : N := N.lor (N.shiftl (N.land i2 3) 6) i3.

Lemma decA_spec a b : decA (hi 18 a) (N.lor (hi 12 a) (mid 12 b)) = N_of_ascii a.
Proof. revert a b. apply byte_fact2. by vm_compute. Qed.
Lemma decB_spec a b c :
  decB (N.lor (hi 12 a) (mid 12 b)) (N.lor (mid 6 b) (lo 6 c)) = N_of_ascii b.
Proof.
  unfold decB.
  replace (N.land (N.lor (hi 12 a) (mid 12 b)) 15) with (N.land (mid 12 b) 15).
  - revert b c. apply byte_fact2. by vm_compute.
  - symmetry. revert a b. apply byte_fact2. by vm_compute.
Qed.
Lemma decC_spec b c : decC (N.lor (mid 6 b) (lo 6 c)) (lo 0 c) = N_of_ascii c.
Proof. revert b c. apply byte_fact2. by vm_compute. Qed.

Lemma groups_A a b c a' b' c' :
  idx (val3 a b c) 18 = idx (val3 a' b' c') 18 →
  idx (val3 a b c) 12 = idx (val3 a' b' c') 12 →
  a = a'.
Proof.
  rewrite !idx18, !idx12. intros H0 H1. apply N_of_ascii_inj.
  by rewrite <- (decA_spec a b), <- (decA_spec a' b'), H0, H1.
Qed.

Lemma groups_B a b c a' b' c' :
  idx (val3 a b c) 12 = idx (val3 a' b' c') 12 →
  idx (val3 a b c) 6 = idx (val3 a' b' c') 6 →
  b = b'.
Proof.
  rewrite !idx12, !idx6. intros H1 H2. apply N_of_ascii_inj.
  by rewrite <- (decB_spec a b c), <- (decB_spec a' b' c'), H1, H2.
Qed.

Lemma groups_C a b c a' b' c' :
  idx (val3 a b c) 6 = idx (val3 a' b' c') 6 →
  idx (val3 a b c) 0 = idx (val3 a' b' c') 0 →
  c = c'.
Proof.
  rewrite !idx6, !idx0. intros H2 H3. apply N_of_ascii_inj.
  by rewrite <- (decC_spec b c), <- (decC_spec b' c'), H2, H3.
Qed.


(** *** The alphabet *)

Lemma get_elem_of n s c : String.get n s = Some c → c ∈ String.list_ascii_of_string s.
Proof.
  revert n. induction s as [|d s IH]; intros [|n]; simpl; try done.
  - intros [= ->]. apply list_elem_of_here.
  - intros H. apply list_elem_of_further. by apply (IH n).
Qed.

Lemma encode_alphabet i : encode i ∈ String.list_ascii_of_string encodeURL.
Proof.
  unfold encode. destruct (String.get (N.to_nat i) encodeURL) as [c|] eqn:E; simpl.
  - by apply get_elem_of in E.
  - apply list_elem_of_here.
Qed.

Lemma encode_inj i j : (i < 64)%N → (j < 64)%N → encode i = encode j → i = j.
Proof.
  intros Hi Hj.
  assert (∀ k, (k < 64)%N → k ∈ N.of_nat <$> seq 0 64) as Hin.
  { intros k Hk. rewrite <- (N2Nat.id k). apply list_elem_of_fmap_2, elem_of_seq. lia. }
  assert (forallb (λ i, forallb (λ j, implb (Ascii.eqb (encode i) (encode j)) (i =? j)%N)
                                (N.of_nat <$> seq 0 64))
                  (N.of_nat <$> seq 0 64) = true) as H by (by vm_compute).
  rewrite forallb_forall in H. specialize (H i (proj1 (list_elem_of_In _ _) (Hin i Hi))).
  rewrite forallb_forall in H. specialize (H j (proj1 (list_elem_of_In _ _) (Hin j Hj))).
  intros He. apply Ascii.eqb_eq in He. rewrite He in H. by apply N.eqb_eq.
Qed.

Lemma sextet_inj v w k : encode (idx v k) = encode (idx w k) → idx v k = idx w k.
Proof. apply encode_inj; apply idx_lt. Qed.

(** The encoder in terms of the groups of [val3]. *)
Lemma EncodeToString_3 a b c rest :
  EncodeToString (String a (String b (String c rest)))
  = String (encode (idx (val3 a b c) 18))
      (String (encode (idx (val3 a b c) 12))
         (String (encode (idx (val3 a b c) 6))
            (String (encode (idx (val3 a b c) 0)) (EncodeToString rest)))).
Proof. cbn [EncodeToString]. unfold idx. by rewrite N.shiftr_0_r. Qed.

Lemma EncodeToString_2 a b :
  EncodeToString (String a (String b EmptyString))
  = String (encode (idx (val3 a b zero) 18))
      (String (encode (idx (val3 a b zero) 12))
         (String (encode (idx (val3 a b zero) 6)) EmptyString)).
Proof. cbn [EncodeToString]. unfold val3. change (N_of_ascii zero) with 0%N. by rewrite N.lor_0_r. Qed.

Lemma EncodeToString_1 a :
  EncodeToString (String a EmptyString)
  = String (encode (idx (val3 a zero zero) 18))
      (String (encode (idx (val3 a zero zero) 12)) EmptyString).
Proof.
  cbn [EncodeToString]. unfold val3. change (N_of_ascii zero) with 0%N.
  by rewrite N.shiftl_0_l, !N.lor_0_r.
Qed.

Lemma EncodeToString_inj_bounded n s t :
  String.length s ≤ n → EncodeToString s = EncodeToString t → s = t.
Proof.
  revert s t. induction (lt_wf n) as [n _ IH]. intros s t Hn.
  destruct s as [|a [|b [|c s]]], t as [|a' [|b' [|c' t]]];
    rewrite ?EncodeToString_1, ?EncodeToString_2, ?EncodeToString_3;
    try done; intros H.
  - injection H as H0 H1. apply sextet_inj in H0, H1.
    by rewrite (groups_A _ _ _ _ _ _ H0 H1).
  - injection H as H0 H1 H2. apply sextet_inj in H0, H1, H2.
    by rewrite (groups_A _ _ _ _ _ _ H0 H1), (groups_B _ _ _ _ _ _ H1 H2).
  - injection H as H0 H1 H2 H3 Hrest. apply sextet_inj in H0, H1, H2, H3.
    rewrite (groups_A _ _ _ _ _ _ H0 H1), (groups_B _ _ _ _ _ _ H1 H2),
      (groups_C _ _ _ _ _ _ H2 H3).
    do 3 f_equal. apply (IH (String.length s)); simpl in *; [lia|done|done].
Qed.


(** *** The keys *)

Import RegistryKeys InferenceModelRegistry.

Lemma EncodeToString_inj s t : EncodeToString s = EncodeToString t → s = t.
Proof. by apply (EncodeToString_inj_bounded (String.length s)). Qed.

(** X1: [sanitizeKeyPart] is injective: service names with the same
    encoded key part are the same name, so that no two services share a
    per-service key. *)
Theorem sanitizeKeyPart_inj s t : sanitizeKeyPart s = sanitizeKeyPart t ↔ s = t.
Proof. split; [apply EncodeToString_inj|by intros ->]. Qed.

Lemma EncodeToString_alphabet_bounded n s :
  String.length s ≤ n →
  Forall (λ c, c ∈ String.list_ascii_of_string encodeURL)
         (String.list_ascii_of_string (EncodeToString s)).
Proof.
  revert s. induction (lt_wf n) as [n _ IH]. intros s Hn.
  destruct s as [|a [|b [|c s]]]; cbn [EncodeToString String.list_ascii_of_string];
    repeat (apply Forall_cons; split; [apply encode_alphabet|]); try by apply Forall_nil_2.
  apply (IH (String.length s)); simpl in *; [lia|done].
Qed.

(** X2: the encoded key part is made of the letters, digits, hyphen
    and underscore of the URL-safe alphabet only; it has no colon, which
    separates the parts of a key, and none of the characters that are
    special in a pattern of the store: star, question mark, the two
    brackets and the backslash. *)
Theorem sanitizeKeyPart_alphabet s :
  Forall (λ c, c ∈ String.list_ascii_of_string Base64.encodeURL
               ∧ c ∉ String.list_ascii_of_string ":*?[]\")
         (String.list_ascii_of_string (sanitizeKeyPart s)).
Proof.
  eapply Forall_impl; [exact (EncodeToString_alphabet_bounded _ s (le_n _))|].
  intros c Hc. split; [done|]. revert c Hc. apply Forall_forall. compute_done.
Qed.

(** X3: the text of a key of the registry identifies the key:
    different keys have different texts, and the text starts with the prefix
    that [SetModels] deletes by pattern exactly when the key is the
    per-service key of some service. *)
Theorem registry_keys k :
  (∀ k', keyString k = keyString k' → k = k')
  ∧ ((∃ rest, keyString k = endpointModelsPrefix +:+ rest)
     ↔ ∃ serviceName, k = RegistryEndpointModelsKey serviceName).
Proof.
  split.
  - intros k'. destruct k as [| |S], k' as [| |S']; try done;
      unfold keyString, Cache.RegistryEndpointModelsKey, Cache.RegistryModelEndpointsKey,
        Cache.ModelsCacheKey; simpl; try done.
    intros H. repeat injection H as H. by rewrite (EncodeToString_inj S S').
  - split.
    + intros [rest H]. destruct k as [| |S]; [done|done|by exists S].
    + intros [S ->]. by exists (sanitizeKeyPart S).
Qed.

End KeyProperties.

Module CacheBehaviour.
Import GoStrings GoStringsFacts InferenceModelRegistry CacheProperties.

Lemma existsb_negb_elem (ids : list string) (new : list string) :
  existsb (λ id, negb (bool_decide (id ∈ (list_to_set ids : gset string)))) new = false
  ↔ ∀ id, id ∈ new → id ∈ ids.
Proof.
  split.
  - intros H id Hid. destruct (decide (id ∈ ids)) as [|Hn]; [done|]. exfalso.
    apply not_true_iff_false in H. apply H.
    apply existsb_exists. exists id. split; [by apply list_elem_of_In|].
    apply negb_true_iff, bool_decide_eq_false. by rewrite elem_of_list_to_set.
  - intros H. apply not_true_is_false. intros (id & Hin & Hid)%existsb_exists.
    apply negb_true_iff, bool_decide_eq_false in Hid.
    apply Hid, elem_of_list_to_set, H, list_elem_of_In, Hin.
Qed.

Lemma changedFrom_false cached L :
  changedFrom cached L = false
  ↔ ∃ v ids, cached = Some v ∧ unmarshalStrings v = Some ids
             ∧ length ids = length L ∧ ∀ id, id ∈ map ID L → id ∈ ids.
Proof.
  unfold changedFrom. destruct cached as [v|]; [|split; [done|by intros (? & ? & ? & _)]].
  destruct (unmarshalStrings v) as [ids|] eqn:Hv;
    [|split; [done|by intros (? & ? & [= <-] & ? & _); congruence]].
  destruct (length ids =? length L) eqn:Hlen; simpl.
  - apply Nat.eqb_eq in Hlen. rewrite existsb_negb_elem. split.
    + intros H. by exists v, ids.
    + intros (? & ? & [= <-] & Hv' & _ & H). rewrite Hv in Hv'. by injection Hv' as <-.
  - apply Nat.eqb_neq in Hlen. split; [done|].
    intros (? & ? & [= <-] & Hv' & Hl & _). rewrite Hv in Hv'. injection Hv' as <-. done.
Qed.

(** X4: for models with distinct identifiers, [hasModelsChanged]
    reports no change exactly when the per-service entry of the service
    decodes to the identifiers of the models in some order. *)
Theorem hasModelsChanged_distinct S L c :
  NoDup (map ID L) →
  fst (hasModelsChanged S L c) = false
  ↔ ∃ v ids, endpointModels c !! S = Some v
             ∧ unmarshalStrings v = Some ids
             ∧ ids ≡ₚ map ID L.
Proof.
  intros Hnd. rewrite hasModelsChanged_eq; simpl. rewrite changedFrom_false.
  split; intros (v & ids & Hv & Hids & H); exists v, ids; (split; [done|]); (split; [done|]).
  - destruct H as [Hlen Hsub]. symmetry.
    apply submseteq_length_Permutation.
    + by apply NoDup_submseteq.
    + rewrite length_map. lia.
  - split.
    + apply Permutation_length in H. by rewrite length_map in H.
    + intros id Hid. by rewrite H.
Qed.


(** A non-blank service name and a detected change: what [SetModels] leaves. *)
Lemma SetModels_changed r S L c :
  isEmpty (TrimSpace S) = false →
  changedFrom (endpointModels c !! S) L = true →
  ∃ c1 m, SetModels r S L c = (None, c1)
          ∧ modelsList c1 = Some (JModels L)
          ∧ endpointModels c1 = {[ S := JStrings (map ID L) ]}
          ∧ modelEndpoints c1 = Some (JEndpoints m)
          ∧ attributed (serviceBaseURL r) (map ID L) m.
Proof.
  intros HS Hch. unfold SetModels. rewrite HS, hasModelsChanged_eq, Hch; simpl.
  unfold rebuildModelToEndpointsMapping, Get; simpl.
  eexists _, _. split; [done|]. simpl. split; [done|]. split; [|split; [done|]].
  - by rewrite insert_empty.
  - apply (attributed_foldl _ _ L []), attributed_empty.
Qed.

Lemma SetModels_unchanged r S L c :
  isEmpty (TrimSpace S) = false →
  changedFrom (endpointModels c !! S) L = false →
  SetModels r S L c = (None, record (OpGet (RegistryEndpointModelsKey S)) c).
Proof.
  intros HS Hch. unfold SetModels. by rewrite HS, hasModelsChanged_eq, Hch.
Qed.

Lemma SetModels_None_nonblank r S L c c1 :
  SetModels r S L c = (None, c1) → isEmpty (TrimSpace S) = false.
Proof. unfold SetModels. by destruct (isEmpty _). Qed.

Lemma GetEndpointToModels_entry S c v ids :
  endpointModels c !! S = Some v →
  unmarshalStrings v = Some ids →
  fst (GetEndpointToModels S c) = (ids, bool_decide (0 < length ids)).
Proof. intros Hv Hids. unfold GetEndpointToModels, Get; simpl. by rewrite Hv, Hids. Qed.

(** X5: after a successful [SetModels S L],
    [GetEndpointToModels S] returns as many identifiers as [L] has models,
    among them the identifier of every model of [L], and reports a
    registered service exactly when [L] is not empty.  When the call found a
    change the identifiers are those of [L], in the order of [L]. *)
Theorem SetModels_then_GetEndpointToModels r S L c c1 :
  SetModels r S L c = (None, c1) →
  ∃ ids, fst (GetEndpointToModels S c1) = (ids, bool_decide (0 < length L))
         ∧ length ids = length L
         ∧ (∀ m, m ∈ L → ID m ∈ ids)
         ∧ (fst (hasModelsChanged S L c) = true → ids = map ID L).
Proof.
  intros H. pose proof (SetModels_None_nonblank _ _ _ _ _ H) as HS.
  rewrite hasModelsChanged_eq; simpl.
  destruct (changedFrom (endpointModels c !! S) L) eqn:Hch.
  - destruct (SetModels_changed r S L c HS Hch) as (c1' & m & H' & _ & He & _).
    rewrite H in H'. injection H' as <-.
    exists (map ID L). rewrite (GetEndpointToModels_entry S c1 (JStrings (map ID L)) (map ID L)).
    + rewrite length_map. split; [done|]. split; [done|]. split; [|done].
      intros m0 Hm. by apply list_elem_of_fmap_2.
    + rewrite He. apply lookup_singleton_eq.
    + done.
  - rewrite (SetModels_unchanged r S L c HS Hch) in H. injection H as <-.
    apply changedFrom_false in Hch as (v & ids & Hv & Hids & Hlen & Hsub).
    exists ids. rewrite (GetEndpointToModels_entry S _ v ids); [|done|done].
    rewrite Hlen. split; [done|]. split; [done|]. split; [|done].
    intros m0 Hm. by apply Hsub, list_elem_of_fmap_2.
Qed.

Lemma ListModels_entry r c ms :
  modelsList c = Some (JModels ms) →
  ListModels r c = (ms, record (OpGet ModelsCacheKey) c).
Proof. intros H. unfold ListModels, Get; simpl. by rewrite H. Qed.

(** X6: a [SetModels S L] that finds a change replaces the registry:
    afterwards the model list is [L], no other service has a per-service
    entry, and the mapping from models to endpoints has models of [L] only,
    each with the configured base URL as its one endpoint, whatever [S]
    is. *)
Theorem SetModels_replaces r S L c c1 :
  fst (hasModelsChanged S L c) = true →
  SetModels r S L c = (None, c1) →
  fst (ListModels r c1) = L
  ∧ (∀ S', S' ≠ S → fst (GetEndpointToModels S' c1) = ([], false))
  ∧ ∀ M urls, fst (GetModelToEndpoints r c1) !! M = Some urls →
              M ∈ map ID L ∧ ∀ u, u ∈ urls → u = serviceBaseURL r.
Proof.
  rewrite hasModelsChanged_eq; simpl. intros Hch H.
  pose proof (SetModels_None_nonblank _ _ _ _ _ H) as HS.
  destruct (SetModels_changed r S L c HS Hch) as (c1' & m & H' & Hl & He & Hm & Hatt).
  rewrite H in H'. injection H' as <-.
  split; [by rewrite (ListModels_entry r c1 L)|]. split.
  - intros S' HS'. unfold GetEndpointToModels, Get; simpl.
    by rewrite He, lookup_singleton_ne.
  - intros M urls. rewrite (GetModelToEndpoints_hit r c1 m Hm). apply Hatt.
Qed.


Lemma ListModels_nilable r c ms :
  modelsList c = Some (marshalNilableModels ms) →
  ListModels r c = (ms, record (OpGet ModelsCacheKey) c).
Proof. intros H. unfold ListModels, Get; simpl. rewrite H. by destruct ms. Qed.

(** The removal that finds a decodable entry, step by step. *)
Lemma RemoveServiceModels_run partialModels r S c v ids :
  isEmpty (TrimSpace S) = false →
  endpointModels c !! S = Some v →
  unmarshalStrings v = Some ids →
  ∃ c1, RemoveServiceModels partialModels r S c = (None, c1)
        ∧ modelsList c1
          = Some (marshalNilableModels
                    (filter (λ m, ID m ∉ ids)
                       match modelsList c with
                       | None => []
                       | Some t =>
                           if isEmptyText t then []
                           else match unmarshalModels t with
                                | Some ms => ms
                                | None => partialModels t
                                end
                       end))
        ∧ endpointModels c1 = delete S (endpointModels c).
Proof.
  intros HS Hv Hids. unfold RemoveServiceModels. rewrite HS.
  unfold Get at 1; simpl. rewrite Hv, Hids; simpl.
  unfold rebuildModelToEndpointsMapping, Get; simpl.
  match goal with
  | |- context [unmarshalModels (marshalNilableModels ?k)] =>
      replace (unmarshalModels (marshalNilableModels k)) with (Some k) by by destruct k
  end.
  eexists. split; [done|]. simpl. split; [|done].
  do 2 f_equal. apply list_filter_iff. intros m. by rewrite elem_of_list_to_set.
Qed.

(** X7: when the service [S] has a per-service entry and the model
    list decodes, a successful [RemoveServiceModels S] leaves in the model
    list the models whose identifier is not in the entry of [S], in their
    order, removes the entry of [S] and keeps the entry of every other
    service. *)
Theorem RemoveServiceModels_filters partialModels r S c v ids t ms c1 :
  endpointModels c !! S = Some v →
  unmarshalStrings v = Some ids →
  modelsList c = Some t →
  unmarshalModels t = Some ms →
  RemoveServiceModels partialModels r S c = (None, c1) →
  fst (ListModels r c1) = filter (λ m, ID m ∉ ids) ms
  ∧ fst (GetEndpointToModels S c1) = ([], false)
  ∧ ∀ S', S' ≠ S → fst (GetEndpointToModels S' c1) = fst (GetEndpointToModels S' c).
Proof.
  intros Hv Hids Ht Hms H.
  destruct (isEmpty (TrimSpace S)) eqn:HS.
  { unfold RemoveServiceModels in H. by rewrite HS in H. }
  destruct (RemoveServiceModels_run partialModels r S c v ids HS Hv Hids)
    as (c1' & H' & Hl & He).
  rewrite H in H'. injection H' as <-.
  rewrite Ht, Hms in Hl.
  replace (isEmptyText t) with false in Hl by by destruct t.
  split; [by rewrite (ListModels_nilable r c1 _ Hl)|]. split.
  - unfold GetEndpointToModels, Get; simpl. by rewrite He, lookup_delete_eq.
  - intros S' HS'. unfold GetEndpointToModels, Get; simpl.
    rewrite He, lookup_delete_ne by congruence.
    destruct (endpointModels c !! S') as [w|]; [|done].
    by destruct (unmarshalStrings w).
Qed.

Lemma foldl_appendEndpoint_dom url models (m : gmap string (list string)) M :
  is_Some (foldl (λ m model, appendEndpoint (ID model) url m) m models !! M)
  ↔ is_Some (m !! M) ∨ M ∈ map ID models.
Proof.
  revert m. induction models as [|x models IH]; intros m; simpl.
  - rewrite elem_of_nil. tauto.
  - rewrite IH. unfold appendEndpoint. rewrite elem_of_cons.
    destruct (decide (ID x = M)) as [->|Hne].
    + rewrite lookup_insert_eq. split; [intros [_|?]; auto|intros _; left; eauto].
    + rewrite lookup_insert_ne by done. split; intros [?|?]; auto.
      * destruct H as [H|H]; [congruence|auto].
Qed.

(** X8: on a cache without model list, with a provider that answers a
    non-empty list and a base URL that is not blank, [ListModels] returns
    the models of the provider and fills the cache: the next [ListModels]
    returns the same models without writing, the entry of the base URL
    lists their identifiers, and the mapping from models to endpoints has
    exactly their identifiers. *)
Theorem ListModels_cold r p models c :
  provider r = Some p →
  GetModels p = Some models →
  models ≠ [] →
  isEmpty (TrimSpace (serviceBaseURL r)) = false →
  modelsList c = None →
  ∃ c1, ListModels r c = (models, c1)
        ∧ fst (ListModels r c1) = models
        ∧ writes (snd (ListModels r c1)) = writes c1
        ∧ fst (GetEndpointToModels (serviceBaseURL r) c1) = (map ID models, true)
        ∧ ∀ M, is_Some (fst (GetModelToEndpoints r c1) !! M) ↔ M ∈ map ID models.
Proof.
  intros Hp Hm Hne Hb Hc.
  unfold ListModels at 1, Get; simpl. rewrite Hc.
  unfold rebuildModelsFromProvider. rewrite Hp, Hb, Hm.
  destruct models as [|x models]; [done|]. set (ms := x :: models) in *.
  eexists. split; [done|].
  split; [by rewrite (ListModels_entry r _ ms)|]. split.
  { rewrite (ListModels_entry r _ ms) by done. unfold writes; simpl.
    by rewrite filter_app, app_nil_r. }
  split.
  { rewrite (GetEndpointToModels_entry _ _ (JStrings (map ID ms)) (map ID ms));
      [done| |done]. simpl. apply lookup_insert_eq. }
  intros M. erewrite GetModelToEndpoints_hit by done.
  rewrite foldl_appendEndpoint_dom, lookup_empty. split; [intros [[? [=]]|?]; done|auto].
Qed.

Section Cron.

Variable partialModels : JSONText → list Model.

(** X9: when the provider answers, a second
    [CheckInferenceModels] right after a first one leaves the cache as it
    is: it writes and deletes nothing, and reads the cache once at most. *)
Theorem CheckInferenceModels_steady r p models c :
  provider r = Some p →
  GetModels p = Some models →
  let c1 := CheckInferenceModels partialModels r c in
  let c2 := CheckInferenceModels partialModels r c1 in
  writes c2 = writes c1
  ∧ modelsList c2 = modelsList c1
  ∧ modelEndpoints c2 = modelEndpoints c1
  ∧ endpointModels c2 = endpointModels c1
  ∧ length (calls c2) ≤ S (length (calls c1)).
Proof.
  intros Hp Hm c1 c2. subst c1 c2. unfold CheckInferenceModels. rewrite Hp, Hm.
  destruct (isEmpty (TrimSpace (serviceBaseURL r))) eqn:Hb; [repeat split; lia|].
  set (S := serviceBaseURL r) in *.
  assert (∃ c1, SetModels r S models c = (None, c1)
                ∧ changedFrom (endpointModels c1 !! S) models = false)
    as (c1 & H1 & Hsame).
  { destruct (changedFrom (endpointModels c !! S) models) eqn:Hch.
    - destruct (SetModels_changed r S models c Hb Hch) as (c1 & m & H' & _ & He & _).
      exists c1. split; [done|]. rewrite He, lookup_singleton_eq. apply changedFrom_same.
    - exists (record (OpGet (RegistryEndpointModelsKey S)) c).
      split; [by apply SetModels_unchanged|done]. }
  rewrite H1; simpl. rewrite (SetModels_unchanged r S models c1 Hb Hsame); simpl.
  unfold writes; simpl. rewrite filter_app, app_nil_r, length_app; simpl.
  repeat split; lia.
Qed.

(** X10: when the provider does not answer and the
    base URL has a per-service entry, [CheckInferenceModels] withdraws the
    service: its entry is removed, and the model list that [ListModels]
    serves next, from the cache and without writing, has none of the models
    of that entry. *)
Theorem CheckInferenceModels_provider_down r p c v ids :
  provider r = Some p →
  GetModels p = None →
  isEmpty (TrimSpace (serviceBaseURL r)) = false →
  endpointModels c !! serviceBaseURL r = Some v →
  unmarshalStrings v = Some ids →
  let c1 := CheckInferenceModels partialModels r c in
  fst (GetEndpointToModels (serviceBaseURL r) c1) = ([], false)
  ∧ (∀ m, m ∈ fst (ListModels r c1) → ID m ∉ ids)
  ∧ writes (snd (ListModels r c1)) = writes c1.
Proof.
  intros Hp Hm Hb Hv Hids c1. subst c1. unfold CheckInferenceModels. rewrite Hp, Hb, Hm.
  destruct (RemoveServiceModels_run partialModels r _ c v ids Hb Hv Hids)
    as (c1 & -> & Hl & He); simpl.
  rewrite (ListModels_nilable r c1 _ Hl); simpl. split; [|split].
  - unfold GetEndpointToModels, Get; simpl. by rewrite He, lookup_delete_eq.
  - by intros m [Hm' _]%list_elem_of_filter.
  - unfold writes; simpl. by rewrite filter_app, app_nil_r.
Qed.

End Cron.


(** *** The properties on a small deployment *)

Definition llama : Model := mkModel "llama-3" "model" 0 "meta".
Definition qwen : Model := mkModel "qwen-2" "model" 0 "alibaba".

Definition inference : string := "http://inference:8101/v1".

Definition gateway : InferenceModelRegistry :=
  NewInferenceModelRegistry (Some {| GetModels := Some [llama; qwen] |}) (Some inference).

Definition gatewayDown : InferenceModelRegistry :=
  NewInferenceModelRegistry (Some {| GetModels := None |}) (Some inference).

(** The cache after a sync that listed the models in the other order. *)
Definition swapped : RedisCacheService :=
  mkCache (Some (JModels [qwen; llama])) None {[ inference := JStrings ["qwen-2"; "llama-3"] ]} [].

(** A cache that also knows a second service. *)
Definition shared : RedisCacheService :=
  mkCache (Some (JModels [llama; qwen])) None
          {[ inference := JStrings ["llama-3"]; "http://other:9000" := JStrings ["qwen-2"] ]} [].

Lemma hasModelsChanged_distinct_witness :
  fst (hasModelsChanged inference [llama; qwen] swapped) = false.
Proof.
  apply (hasModelsChanged_distinct inference [llama; qwen] swapped).
  - compute_done.
  - exists (JStrings ["qwen-2"; "llama-3"]), ["qwen-2"; "llama-3"].
    split; [by vm_compute|]. split; [done|]. apply perm_swap.
Defined.

Lemma SetModels_then_GetEndpointToModels_witness :
  SetModels gateway inference [llama; qwen] emptyCache
  = (None, snd (SetModels gateway inference [llama; qwen] emptyCache))
  ∧ ∃ ids,
      fst (GetEndpointToModels inference
             (snd (SetModels gateway inference [llama; qwen] emptyCache)))
      = (ids, bool_decide (0 < length [llama; qwen]))
      ∧ length ids = length [llama; qwen]
      ∧ (∀ m, m ∈ [llama; qwen] → ID m ∈ ids)
      ∧ (fst (hasModelsChanged inference [llama; qwen] emptyCache) = true
         → ids = map ID [llama; qwen]).
Proof.
  assert (SetModels gateway inference [llama; qwen] emptyCache
          = (None, snd (SetModels gateway inference [llama; qwen] emptyCache))) as H
    by (by vm_compute).
  split; [exact H|].
  exact (SetModels_then_GetEndpointToModels gateway inference [llama; qwen] emptyCache _ H).
Defined.

Lemma SetModels_replaces_witness :
  fst (hasModelsChanged inference [qwen] shared) = true
  ∧ SetModels gateway inference [qwen] shared
    = (None, snd (SetModels gateway inference [qwen] shared))
  ∧ fst (ListModels gateway (snd (SetModels gateway inference [qwen] shared))) = [qwen]
  ∧ (∀ S', S' ≠ inference →
           fst (GetEndpointToModels S' (snd (SetModels gateway inference [qwen] shared)))
           = ([], false))
  ∧ ∀ M urls,
      fst (GetModelToEndpoints gateway (snd (SetModels gateway inference [qwen] shared)))
        !! M = Some urls →
      M ∈ map ID [qwen] ∧ ∀ u, u ∈ urls → u = serviceBaseURL gateway.
Proof.
  assert (fst (hasModelsChanged inference [qwen] shared) = true) as H1 by (by vm_compute).
  assert (SetModels gateway inference [qwen] shared
          = (None, snd (SetModels gateway inference [qwen] shared))) as H2
    by (by vm_compute).
  split; [exact H1|]. split; [exact H2|].
  exact (SetModels_replaces gateway inference [qwen] shared _ H1 H2).
Defined.

Lemma RemoveServiceModels_filters_witness :
  fst (ListModels gateway
         (snd (RemoveServiceModels (λ _, []) gateway "http://other:9000" shared)))
  = [llama]
  ∧ fst (GetEndpointToModels "http://other:9000"
           (snd (RemoveServiceModels (λ _, []) gateway "http://other:9000" shared)))
    = ([], false)
  ∧ ∀ S', S' ≠ "http://other:9000" →
          fst (GetEndpointToModels S'
                 (snd (RemoveServiceModels (λ _, []) gateway "http://other:9000" shared)))
          = fst (GetEndpointToModels S' shared).
Proof.
  assert (endpointModels shared !! "http://other:9000" = Some (JStrings ["qwen-2"])) as H1
    by (by vm_compute).
  assert (RemoveServiceModels (λ _, []) gateway "http://other:9000" shared
          = (None, snd (RemoveServiceModels (λ _, []) gateway "http://other:9000" shared)))
    as H2 by (by vm_compute).
  exact (RemoveServiceModels_filters (λ _, []) gateway "http://other:9000" shared
           (JStrings ["qwen-2"]) ["qwen-2"] (JModels [llama; qwen]) [llama; qwen] _
           H1 eq_refl eq_refl eq_refl H2).
Defined.

Lemma ListModels_cold_witness :
  ∃ c1, ListModels gateway emptyCache = ([llama; qwen], c1)
        ∧ fst (ListModels gateway c1) = [llama; qwen]
        ∧ writes (snd (ListModels gateway c1)) = writes c1
        ∧ fst (GetEndpointToModels (serviceBaseURL gateway) c1)
          = (map ID [llama; qwen], true)
        ∧ ∀ M, is_Some (fst (GetModelToEndpoints gateway c1) !! M)
               ↔ M ∈ map ID [llama; qwen].
Proof.
  exact (ListModels_cold gateway {| GetModels := Some [llama; qwen] |} [llama; qwen]
           emptyCache eq_refl eq_refl ltac:(discriminate) eq_refl eq_refl).
Defined.

Lemma CheckInferenceModels_steady_witness :
  writes (CheckInferenceModels (λ _, []) gateway
            (CheckInferenceModels (λ _, []) gateway emptyCache))
  = writes (CheckInferenceModels (λ _, []) gateway emptyCache)
  ∧ length (writes (CheckInferenceModels (λ _, []) gateway emptyCache)) = 6.
Proof.
  split; [|by vm_compute].
  exact (proj1 (CheckInferenceModels_steady (λ _, []) gateway
                  {| GetModels := Some [llama; qwen] |} [llama; qwen] emptyCache
                  eq_refl eq_refl)).
Defined.

Lemma CheckInferenceModels_provider_down_witness :
  fst (GetEndpointToModels (serviceBaseURL gatewayDown)
         (CheckInferenceModels (λ _, []) gatewayDown shared)) = ([], false)
  ∧ (∀ m, m ∈ fst (ListModels gatewayDown
                     (CheckInferenceModels (λ _, []) gatewayDown shared)) →
          ID m ∉ ["llama-3"])
  ∧ writes (snd (ListModels gatewayDown
                   (CheckInferenceModels (λ _, []) gatewayDown shared)))
    = writes (CheckInferenceModels (λ _, []) gatewayDown shared).
Proof.
  assert (endpointModels shared !! serviceBaseURL gatewayDown = Some (JStrings ["llama-3"]))
    as H by (by vm_compute).
  exact (CheckInferenceModels_provider_down (λ _, []) gatewayDown {| GetModels := None |}
           shared (JStrings ["llama-3"]) ["llama-3"] eq_refl eq_refl eq_refl H eq_refl).
Defined.

End CacheBehaviour.

Module HelperProperties.
Import GoStrings GoStringsFacts ProviderRegistry.

Local Abbreviation bytes := String.list_ascii_of_string.

(** *** Bytes *)

Lemma isSlugByte_facts c :
  isSlugByte c = true → isSpace c = false ∧ toLowerByte c = c ∧ c ≠ "-"%char.
Proof. destruct c as [[] [] [] [] [] [] [] []]; by vm_compute. Qed.

Lemma dash_facts : isSpace "-" = false ∧ toLowerByte "-" = "-"%char ∧ isSlugByte "-" = false.
Proof. by vm_compute. Qed.

Lemma toLowerByte_facts c :
  toLowerByte (toLowerByte c) = toLowerByte c ∧ isSpace (toLowerByte c) = isSpace c.
Proof. destruct c as [[] [] [] [] [] [] [] []]; by vm_compute. Qed.

(** *** Trimming *)

Lemma app_empty_l s : "" +:+ s = s.
Proof. done. Qed.

Lemma app_cons c s t : String c s +:+ t = String c (s +:+ t).
Proof. done. Qed.

Lemma app_empty_r s : s +:+ "" = s.
Proof. induction s as [|c s IH]; [done|]. by rewrite app_cons, IH. Qed.

Lemma bytes_app s t : bytes (s +:+ t) = bytes s ++ bytes t.
Proof. induction s as [|c s IH]; [done|]. rewrite app_cons. simpl. by rewrite IH. Qed.

Lemma TrimRightByte_split b s :
  ∃ rest, s = TrimRightByte b s +:+ rest
          ∧ Forall (λ c, c = b) (bytes rest)
          ∧ ∀ t, TrimRightByte b s ≠ t +:+ String b "".
Proof.
  induction s as [|c s (rest & Hs & Hrest & Hend)]; simpl.
  - exists "". split; [done|]. split; [by apply Forall_nil_2|]. by intros [|??].
  - destruct (bool_decide (c = b) && isEmpty (TrimRightByte b s)) eqn:E.
    + apply andb_true_iff in E as [->%bool_decide_eq_true Hemp%isEmpty_spec].
      rewrite Hemp, app_empty_l in Hs. subst rest.
      exists (String b s). split; [done|]. split; [by apply Forall_cons|]. by intros [|??].
    + exists rest. rewrite app_cons, <- Hs. split; [done|]. split; [done|].
      intros [|d t]; rewrite ?app_empty_l, ?app_cons.
      * intros [= -> Hemp]. by rewrite bool_decide_true, Hemp in E.
      * intros [= -> Ht]. by apply (Hend t).
Qed.

Lemma TrimLeftByte_split b s :
  ∃ rest, s = rest +:+ TrimLeftByte b s
          ∧ Forall (λ c, c = b) (bytes rest)
          ∧ ∀ t, TrimLeftByte b s ≠ String b t.
Proof.
  induction s as [|c s (rest & Hs & Hrest & Hhead)]; simpl.
  - exists "". split; [done|]. split; [by apply Forall_nil_2|done].
  - case_bool_decide as Hc.
    + subst c. exists (String b rest). rewrite app_cons, <- Hs.
      split; [done|]. split; [by apply Forall_cons|done].
    + exists "". split; [done|]. split; [by apply Forall_nil_2|]. intros t [= ? _]. done.
Qed.

(** X11: [normalizeURL] removes the white space around the URL and
    then every trailing slash, and nothing else: the trimmed input is the
    result followed by slashes only, and the result does not end with a
    slash. *)
Theorem normalizeURL_spec baseURL :
  ∃ rest, TrimSpace baseURL = normalizeURL baseURL +:+ rest
          ∧ Forall (λ c, c = "/"%char) (bytes rest)
          ∧ ∀ t, normalizeURL baseURL ≠ t +:+ "/".
Proof. apply TrimRightByte_split. Qed.

(** *** Slugs *)

(** Slug bytes with single dashes between them; [afterDash] tells that the
    byte before was a dash (or that the text starts here), and then a slug
    byte must follow.  [runsOK] allows a final dash, [slugLike] does not. *)
Fixpoint runsOK (afterDash : bool) (s : string) : bool :=
  match s with
  | EmptyString => true
  | String c s' =>
      if isSlugByte c then runsOK false s'
      else bool_decide (c = "-"%char) && negb afterDash && runsOK true s'
  end.

Fixpoint slugLike (afterDash : bool) (s : string) : bool :=
  match s with
  | EmptyString => negb afterDash
  | String c s' =>
      if isSlugByte c then slugLike false s'
      else bool_decide (c = "-"%char) && negb afterDash && slugLike true s'
  end.

Lemma replaceRuns_ok b s : runsOK b (replaceRuns b s) = true.
Proof.
  revert b. induction s as [|c s IH]; intros b; simpl; [done|].
  destruct (isSlugByte c) eqn:Hc; simpl.
  - by rewrite Hc.
  - destruct b; simpl; [done|]. by rewrite IH.
Qed.

Lemma runsOK_weaken b s : runsOK b s = true → runsOK false s = true.
Proof.
  destruct s as [|c s]; simpl; [done|]. destruct (isSlugByte c); [done|].
  destruct b; simpl; [by rewrite andb_false_r|done].
Qed.

Lemma runsOK_head b s :
  runsOK b s = true → (∀ t, s ≠ String "-" t) → runsOK true s = true.
Proof.
  destruct s as [|c s]; simpl; [done|]. destruct (isSlugByte c); [done|].
  intros [[->%bool_decide_eq_true _]%andb_true_iff _]%andb_true_iff H.
  by destruct (H s).
Qed.

Lemma runsOK_suffix b rest s : runsOK b (rest +:+ s) = true → runsOK false s = true.
Proof.
  revert b. induction rest as [|c rest IH]; intros b; rewrite ?app_empty_l, ?app_cons.
  - apply runsOK_weaken.
  - simpl. destruct (isSlugByte c); [apply IH|].
    intros [_ H]%andb_true_iff. by apply IH in H.
Qed.

Lemma slugLike_nonempty s : slugLike true s = true → isEmpty s = false.
Proof. by destruct s. Qed.

Lemma TrimRightByte_slugLike b s :
  runsOK b s = true →
  TrimRightByte "-" s = "" ∨ slugLike b (TrimRightByte "-" s) = true.
Proof.
  revert b. induction s as [|c s IH]; intros b; simpl; [by left|].
  destruct (isSlugByte c) eqn:Hc.
  - intros H. right. destruct (isSlugByte_facts c Hc) as (_ & _ & Hd).
    rewrite (bool_decide_false _ Hd); simpl. rewrite Hc.
    destruct (IH false H) as [->|H']; done.
  - intros [[->%bool_decide_eq_true Hb]%andb_true_iff H]%andb_true_iff.
    rewrite bool_decide_true by done; simpl.
    destruct (IH true H) as [->|H']; [by left|]. right.
    rewrite (slugLike_nonempty _ H'); simpl. by rewrite Hb, H'.
Qed.

(** A text is a slug when it is empty or [slugLike]. *)
Lemma slugify_slugLike input : slugify input = "" ∨ slugLike true (slugify input) = true.
Proof.
  unfold slugify, TrimByte. apply TrimRightByte_slugLike.
  pose proof (replaceRuns_ok false (ToLower (TrimSpace input))) as H.
  destruct (TrimLeftByte_split "-" (replaceRuns false (ToLower (TrimSpace input))))
    as (rest & Hs & _ & Hhead).
  rewrite Hs in H. apply runsOK_suffix in H. by apply runsOK_head with (b := false).
Qed.

Lemma slugLike_bytes b s :
  slugLike b s = true → Forall (λ c, isSlugByte c = true ∨ c = "-"%char) (bytes s).
Proof.
  revert b. induction s as [|c s IH]; intros b; simpl; [intros; by apply Forall_nil_2|].
  destruct (isSlugByte c) eqn:Hc.
  - intros H. apply Forall_cons. split; [by left|by apply (IH false)].
  - intros [[->%bool_decide_eq_true _]%andb_true_iff H]%andb_true_iff.
    apply Forall_cons. split; [by right|by apply (IH true)].
Qed.

Lemma slugLike_end b s : slugLike b s = true → ∀ t, s ≠ t +:+ "-".
Proof.
  revert b. induction s as [|c s IH]; intros b; simpl.
  - by intros _ [|??].
  - destruct (isSlugByte c) eqn:Hc.
    + intros H [|d t]; rewrite ?app_empty_l, ?app_cons.
      * intros [= -> _]. by vm_compute in Hc.
      * intros [= _ Ht]. by apply (IH false H t).
    + intros [_ H]%andb_true_iff [|d t]; rewrite ?app_empty_l, ?app_cons.
      * intros [= _ ->]. done.
      * intros [= _ Ht]. by apply (IH true H t).
Qed.

Lemma slugLike_double b s : slugLike b s = true → ∀ t u, s ≠ t +:+ "--" +:+ u.
Proof.
  revert b. induction s as [|c s IH]; intros b; simpl.
  - by intros _ [|??] ?.
  - destruct (isSlugByte c) eqn:Hc.
    + intros H [|d t] u; rewrite ?app_empty_l, ?app_cons.
      * intros [= -> _]. by vm_compute in Hc.
      * intros [= _ Ht]. by apply (IH false H t u).
    + intros [_ H]%andb_true_iff [|d t] u; rewrite ?app_empty_l, ?app_cons.
      * intros [= _ ->]. by vm_compute in H.
      * intros [= _ Ht]. by apply (IH true H t u).
Qed.

(** X12: a slug is made of lower-case letters, digits and hyphens; it
    neither starts nor ends with a hyphen and has no two hyphens in a
    row. *)
Theorem slugify_shape input :
  Forall (λ c, isSlugByte c = true ∨ c = "-"%char) (bytes (slugify input))
  ∧ (∀ t, slugify input ≠ String "-" t)
  ∧ (∀ t, slugify input ≠ t +:+ "-")
  ∧ (∀ t u, slugify input ≠ t +:+ "--" +:+ u).
Proof.
  destruct (slugify_slugLike input) as [->|H].
  - split; [by apply Forall_nil_2|]. split; [done|]. split; [by intros [|??]|by intros [|??] ?].
  - split; [by apply (slugLike_bytes true)|]. split; [|split].
    + intros t Ht. by rewrite Ht in H.
    + by apply (slugLike_end true).
    + by apply (slugLike_double true).
Qed.


Lemma TrimLeftSpace_nospace s :
  Forall (λ c, isSpace c = false) (bytes s) → TrimLeftSpace s = s.
Proof. destruct s as [|c s]; simpl; [done|]. intros [-> _]%Forall_cons. done. Qed.

Lemma TrimRightSpace_nospace s :
  Forall (λ c, isSpace c = false) (bytes s) → TrimRightSpace s = s.
Proof.
  induction s as [|c s IH]; simpl; [done|]. intros [-> H]%Forall_cons. simpl.
  by rewrite IH.
Qed.

Lemma ToLower_fixed s : Forall (λ c, toLowerByte c = c) (bytes s) → ToLower s = s.
Proof.
  induction s as [|c s IH]; simpl; [done|]. intros [-> H]%Forall_cons. by rewrite IH.
Qed.

Lemma slugLike_weaken b s : slugLike b s = true → slugLike false s = true.
Proof.
  destruct s as [|c s]; simpl; [done|]. destruct (isSlugByte c); [done|].
  destruct b; simpl; [by rewrite andb_false_r|done].
Qed.

Lemma replaceRuns_slugLike b s : slugLike b s = true → replaceRuns b s = s.
Proof.
  revert b. induction s as [|c s IH]; intros b; simpl; [done|].
  destruct (isSlugByte c).
  - intros H. by rewrite (IH false H).
  - intros [[->%bool_decide_eq_true Hb]%andb_true_iff H]%andb_true_iff.
    destruct b; [done|]. by rewrite (IH true H).
Qed.

Lemma TrimRightByte_slug b s : slugLike b s = true → TrimRightByte "-" s = s.
Proof.
  revert b. induction s as [|c s IH]; intros b; simpl; [done|].
  destruct (isSlugByte c) eqn:Hc.
  - intros H. destruct (isSlugByte_facts c Hc) as (_ & _ & Hd).
    by rewrite (bool_decide_false _ Hd), (IH false H).
  - intros [_ H]%andb_true_iff. rewrite (IH true H), (slugLike_nonempty _ H).
    by rewrite andb_false_r.
Qed.

Lemma slugify_fixed s : slugLike true s = true → slugify s = s.
Proof.
  intros H. pose proof (slugLike_bytes _ _ H) as Hb.
  assert (Forall (λ c, isSpace c = false) (bytes s)) as Hsp.
  { eapply Forall_impl; [exact Hb|]. intros c [Hc| ->]; [|done].
    by destruct (isSlugByte_facts c Hc). }
  assert (Forall (λ c, toLowerByte c = c) (bytes s)) as Hlow.
  { eapply Forall_impl; [exact Hb|]. intros c [Hc| ->]; [|done].
    by destruct (isSlugByte_facts c Hc) as (_ & ? & _). }
  unfold slugify, TrimSpace, TrimByte.
  rewrite (TrimLeftSpace_nospace s Hsp), (TrimRightSpace_nospace s Hsp), (ToLower_fixed s Hlow).
  rewrite (replaceRuns_slugLike false s (slugLike_weaken _ _ H)).
  replace (TrimLeftByte "-" s) with s; [by apply (TrimRightByte_slug true)|].
  destruct s as [|c s]; [done|]. simpl in *.
  destruct (isSlugByte c) eqn:Hc; [|by destruct (bool_decide (c = "-"%char))].
  destruct (isSlugByte_facts c Hc) as (_ & _ & Hd). by rewrite (bool_decide_false _ Hd).
Qed.

(** X13: [slugify] is idempotent: the slug of a slug is the slug
    itself. *)
Theorem slugify_idempotent input : slugify (slugify input) = slugify input.
Proof.
  destruct (slugify_slugLike input) as [->|H]; [done|]. by apply slugify_fixed.
Qed.


(** *** Vendor names *)

Lemma isEmpty_ToLower s : isEmpty (ToLower s) = isEmpty s.
Proof. by destruct s. Qed.

Lemma ToLower_idemp s : ToLower (ToLower s) = ToLower s.
Proof.
  induction s as [|c s IH]; simpl; [done|].
  by rewrite IH, (proj1 (toLowerByte_facts c)).
Qed.

Lemma TrimLeftSpace_ToLower s : TrimLeftSpace (ToLower s) = ToLower (TrimLeftSpace s).
Proof.
  induction s as [|c s IH]; simpl; [done|].
  rewrite (proj2 (toLowerByte_facts c)). by destruct (isSpace c).
Qed.

Lemma TrimRightSpace_ToLower s : TrimRightSpace (ToLower s) = ToLower (TrimRightSpace s).
Proof.
  induction s as [|c s IH]; simpl; [done|].
  rewrite (proj2 (toLowerByte_facts c)), IH, isEmpty_ToLower.
  by destruct (isSpace c && isEmpty (TrimRightSpace s)).
Qed.

Lemma TrimSpace_ToLower s : TrimSpace (ToLower s) = ToLower (TrimSpace s).
Proof. unfold TrimSpace. by rewrite TrimLeftSpace_ToLower, TrimRightSpace_ToLower. Qed.

(** X14: [providerKindFromVendor] ignores the case of the
    vendor and the white space around it.  It maps the name of every kind
    back to that kind, except the name of the built-in kind [jan], which it
    maps to [custom]. *)
Theorem providerKindFromVendor_canonical vendor k :
  providerKindFromVendor (ToLower vendor) = providerKindFromVendor vendor
  ∧ providerKindFromVendor (TrimSpace vendor) = providerKindFromVendor vendor
  ∧ providerKindFromVendor (kindString k)
    = (if bool_decide (k = ProviderJan) then ProviderCustom else k).
Proof.
  split; [|split].
  - unfold providerKindFromVendor. by rewrite TrimSpace_ToLower, ToLower_idemp.
  - unfold providerKindFromVendor. by rewrite TrimSpace_idemp.
  - by destruct k.
Qed.

(** *** Metadata *)







(** *** Model families *)

Lemma Contains_slash s : Contains s "/" = true ↔ "/"%char ∈ bytes s.
Proof.
  induction s as [|c s IH]; simpl.
  - rewrite elem_of_nil. split; [done|tauto].
  - rewrite elem_of_cons, <- IH, orb_true_iff, andb_true_r, bool_decide_eq_true.
    destruct s; simpl; tauto.
Qed.

Lemma beforeByte_split sep s :
  sep ∈ bytes s →
  ∃ rest, s = beforeByte sep s +:+ String sep rest ∧ sep ∉ bytes (beforeByte sep s).
Proof.
  induction s as [|c s IH]; simpl; [by intros ?%elem_of_nil|].
  case_bool_decide as Hc.
  - intros _. subst c. exists s. split; [done|]. apply not_elem_of_nil.
  - intros [?|H]%elem_of_cons; [congruence|]. destruct (IH H) as (rest & Hs & Hno).
    exists rest. rewrite app_cons, <- Hs. split; [done|]. simpl.
    apply not_elem_of_cons. split; [congruence|done].
Qed.

Lemma beforeByte_app sep family rest :
  sep ∉ bytes family → beforeByte sep (family +:+ String sep rest) = family.
Proof.
  induction family as [|c family IH]; rewrite ?app_empty_l, ?app_cons; simpl.
  - intros _. by rewrite bool_decide_true.
  - intros [Hc Hno]%not_elem_of_cons. rewrite bool_decide_false by congruence.
    by rewrite IH.
Qed.

(** X16: the family of a model is what precedes the first slash of
    its identifier; there is none when the identifier has no slash. *)
Theorem extractFamily_spec modelID family :
  extractFamily modelID = Some family
  ↔ ∃ rest, modelID = family +:+ String "/" rest ∧ "/"%char ∉ bytes family.
Proof.
  unfold extractFamily. split.
  - destruct (isEmpty modelID); [done|].
    destruct (Contains modelID "/") eqn:Hc; [|done].
    intros [= <-]. by apply beforeByte_split, Contains_slash.
  - intros (rest & -> & Hno).
    replace (isEmpty (family +:+ String "/" rest)) with false by by destruct family.
    replace (Contains (family +:+ String "/" rest) "/") with true.
    + by rewrite beforeByte_app.
    + symmetry. apply Contains_slash. rewrite bytes_app. simpl.
      apply elem_of_app. right. apply list_elem_of_here.
Qed.

Lemma extractFamily_spec_witness :
  extractFamily "meta-llama/llama-3/instruct" = Some "meta-llama".
Proof.
  apply (extractFamily_spec "meta-llama/llama-3/instruct" "meta-llama").
  exists "llama-3/instruct". split; [done|]. compute_done.
Defined.

(** *** Prices *)

Section Pricing.

Variable X : Externals.

Lemma omap_priceLines (m : RawMap) (mappings : list (string * PriceUnit)) :
  let lines :=
    omap (λ mapping : string * PriceUnit,
            match mapGet mapping.1 m with
            | Some amount =>
                match microUSDFromAny X amount with
                | inr micro => Some (mkPriceLine mapping.2 micro "USD")
                | inl _ => None
                end
            | None => None
            end) mappings in
  sublist (Unit_ <$> lines) (mappings.*2)
  ∧ ∀ line, line ∈ lines ↔
            ∃ key raw, (key, Unit_ line) ∈ mappings
                       ∧ mapGet key m = Some raw
                       ∧ microUSDFromAny X raw = inr (Amount line)
                       ∧ Currency line = "USD".
Proof.
  induction mappings as [|[key unit] mappings [IHs IHm]]; simpl.
  - split; [done|]. intros line. rewrite elem_of_nil. split; [done|].
    by intros (? & ? & ?%elem_of_nil & _).
  - destruct (mapGet key m) as [raw|] eqn:Hraw; simpl.
    + destruct (microUSDFromAny X raw) as [err|micro] eqn:Hmicro; simpl.
      * split; [by apply sublist_cons|]. intros line. rewrite IHm. split.
        -- intros (k & r & Hin & ?). exists k, r. split; [by apply list_elem_of_further|done].
        -- intros (k & r & [[= -> Hu]|Hin]%elem_of_cons & Hk & Hr & ?); [congruence|].
           by exists k, r.
      * split; [by apply sublist_skip|]. intros line. rewrite elem_of_cons, IHm. split.
        -- intros [->|(k & r & Hin & ?)].
           ++ exists key, raw. split; [apply list_elem_of_here|done].
           ++ exists k, r. split; [by apply list_elem_of_further|done].
        -- intros (k & r & [[= -> Hu]|Hin]%elem_of_cons & Hk & Hr & Hc).
           ++ left. destruct line as [u a cur]; simpl in *. congruence.
           ++ right. by exists k, r.
    + split; [by apply sublist_cons|]. intros line. rewrite IHm. split.
      * intros (k & r & Hin & ?). exists k, r. split; [by apply list_elem_of_further|done].
      * intros (k & r & [[= -> Hu]|Hin]%elem_of_cons & Hk & Hr & ?); [congruence|].
        by exists k, r.
Qed.

(** X17: the price lines follow the fixed order prompt, completion,
    request, image, web search, internal reasoning, at most one per unit,
    all in USD; a price is listed exactly when the pricing object has its
    key with an amount that converts. *)
Theorem extractPricing_lines value :
  sublist (Unit_ <$> Lines (extractPricing X value)) (priceMappings.*2)
  ∧ ∀ line, line ∈ Lines (extractPricing X value) ↔
            ∃ pricingMap key raw,
              value = Some (AnyMap pricingMap)
              ∧ (key, Unit_ line) ∈ priceMappings
              ∧ mapGet key pricingMap = Some raw
              ∧ microUSDFromAny X raw = inr (Amount line)
              ∧ Currency line = "USD".
Proof.
  unfold extractPricing.
  destruct value as [[| | | | | | | | |m]|];
    try (split; [apply sublist_nil_l|];
         intros line; simpl; rewrite elem_of_nil; split; [done|];
         by intros (? & ? & ? & [=] & _)).
  destruct (omap_priceLines m priceMappings) as [Hs Hm]. split; [exact Hs|].
  intros line. simpl. rewrite (Hm line). split.
  - intros (k & r & ?). by exists m, k, r.
  - intros (m' & k & r & [= <-] & ?). by exists k, r.
Qed.

End Pricing.

End HelperProperties.

Module ServiceProperties.
Import GoStrings GoStringsFacts ProviderRegistry RegistryProperties.

(** *** Slugs of providers *)

(** The slugs [generateUniqueSlug] tries, in order: the candidate, then the
    candidate numbered from 2. *)
Definition numbered (candidate : string) (k : N) : string :=
  if (k =? 1)%N then candidate else candidate +:+ "-" +:+ pretty k.

Lemma generateUniqueSlugLoop_first fuel candidate counter s r :
  (1 ≤ counter)%N →
  generateUniqueSlugLoop fuel candidate (numbered candidate counter) counter s = (Ok r, s) →
  ∃ k, (counter ≤ k)%N
       ∧ r = numbered candidate k
       ∧ ∀ j, (counter ≤ j < k)%N → numbered candidate j ∈ Provider.Slug <$> providers s.
Proof.
  revert counter. induction fuel as [|fuel IH]; intros counter Hc; simpl; [done|].
  unfold bind, providerRepo.FindByFilter, ret. case_bool_decide as Hlen.
  - intros [= <-]. exists counter. split; [lia|]. split; [done|]. intros j Hj. lia.
  - apply slug_taken in Hlen. intros H.
    replace (candidate +:+ "-" +:+ pretty (counter + 1)%N)
      with (numbered candidate (counter + 1)) in H.
    + apply IH in H as (k & Hk & -> & Hbelow); [|lia]. exists k. split; [lia|].
      split; [done|]. intros j Hj.
      destruct (decide (j = counter)) as [->|Hne]; [done|]. apply Hbelow. lia.
    + unfold numbered. destruct (counter + 1 =? 1)%N eqn:E; [|done].
      apply N.eqb_eq in E. lia.
Qed.

(** X18: [generateUniqueSlug] always succeeds, reads only, and
    returns the first free slug of the sequence candidate, candidate-2,
    candidate-3 and so on, where the candidate is the slug of the base, or
    [provider] when that slug is empty: the returned slug is not the slug of
    a stored provider, and every earlier slug of the sequence is. *)
Theorem generateUniqueSlug_first base s :
  ∃ k, (1 ≤ k)%N
       ∧ generateUniqueSlug base s
         = (Ok (numbered (if isEmpty (slugify base) then "provider" else slugify base) k), s)
       ∧ (numbered (if isEmpty (slugify base) then "provider" else slugify base) k
          ∉ Provider.Slug <$> providers s)
       ∧ ∀ j, (1 ≤ j < k)%N →
              numbered (if isEmpty (slugify base) then "provider" else slugify base) j
              ∈ Provider.Slug <$> providers s.
Proof.
  destruct (generateUniqueSlug_total base s) as (slug & Hrun & Hfree).
  pose proof Hrun as Hrun'. unfold generateUniqueSlug in Hrun'.
  apply (generateUniqueSlugLoop_first _ _ 1%N) in Hrun' as (k & Hk & -> & Hbelow); [|lia].
  exists k. by repeat split.
Qed.


(** *** Registration *)

(** The filter of the uniqueness check of [RegisterProvider]. *)
Lemma matches_kind_scope kind org project q :
  providerRepo.matches
    match project with
    | Some _ =>
        ProviderFilter.mk None None None (Some org) project None None (Some kind) None None
    | None =>
        ProviderFilter.mk None None None (Some org) None None (Some true) (Some kind)
                          None None
    end q = true
  ↔ Provider.OrganizationID q = Some org
    ∧ Provider.ProjectID q = project
    ∧ Provider.Kind q = kind.
Proof.
  destruct project as [j|]; unfold providerRepo.matches; simpl;
    rewrite !andb_true_r, !andb_true_iff, !bool_decide_eq_true; tauto.
Qed.

Lemma existsb_keys p rows :
  existsb (λ q, bool_decide (Provider.PublicID q = Provider.PublicID p)
                || bool_decide (Provider.Slug q = Provider.Slug p)) rows = false →
  (Provider.PublicID p ∉ Provider.PublicID <$> rows)
  ∧ (Provider.Slug p ∉ Provider.Slug <$> rows).
Proof.
  rewrite <- not_true_iff_false, existsb_exists. intros H.
  split; intros (row & Heq & Hin)%list_elem_of_fmap; apply H; exists row;
    (split; [by apply list_elem_of_In in Hin|]); rewrite <- Heq; apply orb_true_iff;
    [left|right]; by apply bool_decide_eq_true.
Qed.

(** Every outcome of [RegisterProvider]. *)
Lemma RegisterProvider_outcome X input s r s' :
  RegisterProvider X input s = (r, s') →
  providerModels s' = providerModels s
  ∧ modelCatalogs s' = modelCatalogs s
  ∧ match r with
    | Ok res =>
        providers s' = providers s ++ [RegisteredProvider res]
        ∧ RegisteredModels res = []
        ∧ (Provider.ID (RegisteredProvider res) ∉ Provider.ID <$> providers s)
        ∧ (Provider.Slug (RegisteredProvider res) ∉ Provider.Slug <$> providers s)
        ∧ (Provider.PublicID (RegisteredProvider res) ∉ Provider.PublicID <$> providers s)
        ∧ (Provider.Kind (RegisteredProvider res) ≠ ProviderCustom →
           ∀ q, q ∈ providers s →
                Provider.Kind q = Provider.Kind (RegisteredProvider res) →
                Provider.OrganizationID q = Provider.OrganizationID (RegisteredProvider res) →
                Provider.ProjectID q ≠ Provider.ProjectID (RegisteredProvider res))
    | _ => providers s' = providers s
    end.
Proof.
  unfold RegisterProvider, fail.
  destruct (isEmpty _); [by intros [= <- <-]|]. destruct (isEmpty _); [by intros [= <- <-]|].
  destruct (ParseRequestURI _ _); [by intros [= <- <-]|].
  destruct (DEFAULT_ORGANIZATION X) as [defaultID|]; [|by intros [= <- <-]].
  set (kind := providerKindFromVendor (RegisterProviderInput.Vendor input)).
  set (org := if bool_decide (RegisterProviderInput.OrganizationID input ≠ 0%N)
              then RegisterProviderInput.OrganizationID input else defaultID).
  set (project := if bool_decide (RegisterProviderInput.ProjectID input ≠ 0%N)
                  then Some (RegisterProviderInput.ProjectID input) else None).
  unfold bind at 1.
  match goal with
  | |- context [(if bool_decide ?P then ?a else ?b) s] =>
      assert ((∃ e, (if bool_decide P then a else b) s = (Err e, s))
              ∨ ((if bool_decide P then a else b) s = (Ok (), s)
                 ∧ (kind ≠ ProviderCustom →
                    ∀ q, q ∈ providers s → Provider.Kind q = kind →
                         Provider.OrganizationID q = Some org →
                         Provider.ProjectID q ≠ project)))
        as [[e ->]|[-> Hunique]]
  end.
  { case_bool_decide as Hkind; [|by right].
    unfold bind, orError, providerRepo.Count, ret, fail.
    destruct (0 <? _)%N eqn:Hcount; [left; by eexists|right].
    split; [done|]. intros _ q Hq Hk Ho Hp.
    apply N.ltb_ge in Hcount.
    assert (q ∈ filter (λ p, providerRepo.matches
                               match project with
                               | Some _ =>
                                   ProviderFilter.mk None None None (Some org) project None
                                                     None (Some kind) None None
                               | None =>
                                   ProviderFilter.mk None None None (Some org) None None
                                                     (Some true) (Some kind) None None
                               end p = true) (providers s)) as Hin.
    { apply list_elem_of_filter. split; [|done]. by apply matches_kind_scope. }
    destruct (filter _ (providers s)); [by apply elem_of_nil in Hin|simpl in Hcount; lia]. }
  { by intros [= <- <-]. }
  unfold bind at 1, orError at 1.
  destruct (generateUniqueSlug_total
              (slugCandidate kind (TrimSpace (RegisterProviderInput.Name input))) s)
    as (slug & -> & Hslug).
  unfold bind at 1, orError at 1, secureID.
  destruct (GenerateSecureID X "prov" 24 (drawn s)) as [err|publicID];
    [by intros [= <- <-]|].
  unfold bind at 1.
  match goal with
  | |- context [(if negb ?c then ?a else ?b) ?s1] =>
      assert ((∃ e, (if negb c then a else b) s1 = (Err e, s1))
              ∨ (∃ k, (if negb c then a else b) s1 = (Ok k, s1))) as [[e ->]|[k ->]]
  end.
  { destruct (negb _); [|right; by eexists].
    destruct (isEmpty _); [left; by eexists|].
    destruct (EncryptString _ _ _); [left|right]; by eexists. }
  { by intros [= <- <-]. }
  unfold bind, orError, providerRepo.Create, ret.
  destruct (existsb _ _) eqn:Hkeys; [by intros [= <- <-]|].
  apply existsb_keys in Hkeys as [HpublicID _]. simpl in *.
  intros [= <- <-]; simpl. repeat split; try done.
  intros Hin%list_elem_of_fmap. destruct Hin as (q & Hid & Hq).
  apply (list_elem_of_fmap_2 Provider.ID) in Hq. apply maxID_ge in Hq. lia.
Qed.

(** X19: a [RegisterProvider] that returns an error has
    stored nothing: the tables of providers, of provider models and of
    catalog entries are as before. *)
Theorem RegisterProvider_failure_persists_nothing X input s e s' :
  RegisterProvider X input s = (Err e, s') →
  providers s' = providers s
  ∧ providerModels s' = providerModels s
  ∧ modelCatalogs s' = modelCatalogs s.
Proof.
  intros H. apply RegisterProvider_outcome in H as (? & ? & ?). by repeat split.
Qed.

(** The primary key, the slug and the public identifier each identify a
    provider. *)
Definition keyed (s : Store) : Prop :=
  NoDup (Provider.ID <$> providers s)
  ∧ NoDup (Provider.Slug <$> providers s)
  ∧ NoDup (Provider.PublicID <$> providers s).

(** A vendor kind other than [custom] has one provider at most in an
    organization without project, and in each project. *)
Definition oneProviderPerKind (s : Store) : Prop :=
  ∀ p q, p ∈ providers s → q ∈ providers s →
         Provider.Kind p ≠ ProviderCustom →
         Provider.Kind p = Provider.Kind q →
         Provider.OrganizationID p = Provider.OrganizationID q →
         Provider.ProjectID p = Provider.ProjectID q →
         p = q.

(** X20: [RegisterProvider], whatever it returns, keeps the
    uniqueness of the stored providers: when primary keys, slugs and public
    identifiers are unique and no organization or project has two providers
    of one vendor kind other than [custom], the same holds afterwards. *)
Theorem RegisterProvider_keeps_uniqueness X input s r s' :
  keyed s →
  oneProviderPerKind s →
  RegisterProvider X input s = (r, s') →
  keyed s' ∧ oneProviderPerKind s'.
Proof.
  intros (Hid & Hslug & Hpub) Hkind H.
  apply RegisterProvider_outcome in H as (_ & _ & H).
  destruct r as [res| | |]; try (unfold keyed, oneProviderPerKind; by rewrite H).
  destruct H as (Hrows & _ & Hnewid & Hnewslug & Hnewpub & Hunique).
  set (new := RegisteredProvider res) in *.
  split.
  - unfold keyed. rewrite Hrows, !fmap_app. simpl.
    repeat split; apply NoDup_app; (split; [done|]);
      (split; [|apply NoDup_singleton]); by intros x Hx ->%list_elem_of_singleton.
  - intros p q. rewrite Hrows, !elem_of_app, !list_elem_of_singleton.
    intros [Hp| ->] [Hq| ->] Hc Hk Ho Hj; [by apply Hkind| | |done].
    + exfalso. apply (Hunique ltac:(congruence) p Hp Hk Ho Hj).
    + exfalso. by apply (Hunique Hc q Hq).
Qed.

(** *** Updates *)

(** Every outcome of [UpdateProvider]. *)
Lemma UpdateProvider_cases X provider input s r s' :
  UpdateProvider X provider input s = (r, s') →
  match r with
  | Ok p =>
      s' = mkStore ((λ q, if bool_decide (Provider.ID q = Provider.ID p) then p else q)
                      <$> providers s)
                   (providerModels s) (modelCatalogs s) (drawn s)
      ∧ Provider.ID p = Provider.ID provider
      ∧ Provider.PublicID p = Provider.PublicID provider
      ∧ Provider.Slug p = Provider.Slug provider
      ∧ Provider.Kind p = Provider.Kind provider
      ∧ Provider.OrganizationID p = Provider.OrganizationID provider
      ∧ Provider.ProjectID p = Provider.ProjectID provider
      ∧ Provider.IsModerated p = Provider.IsModerated provider
      ∧ Provider.LastSyncedAt p = Provider.LastSyncedAt provider
      ∧ Provider.DisplayName p
        = match UpdateProviderInput.Name input with
          | Some name => TrimSpace name
          | None => Provider.DisplayName provider
          end
      ∧ Provider.BaseURL p
        = match UpdateProviderInput.BaseURL input with
          | Some baseURL => normalizeURL baseURL
          | None => Provider.BaseURL provider
          end
      ∧ Provider.Metadata p
        = match UpdateProviderInput.Metadata input with
          | Some meta => sanitizeMetadata meta
          | None => Provider.Metadata provider
          end
      ∧ Provider.Active p
        = match UpdateProviderInput.Active input with
          | Some active => active
          | None => Provider.Active provider
          end
      ∧ match UpdateProviderInput.APIKey input with
        | Some key =>
            if isEmpty (TrimSpace key)
            then Provider.EncryptedAPIKey p = "" ∧ Provider.APIKeyHint p = None
            else EncryptString X (TrimSpace (MODEL_PROVIDER_SECRET X)) (TrimSpace key)
                 = inr (Provider.EncryptedAPIKey p)
                 ∧ Provider.APIKeyHint p = apiKeyHint key
        | None =>
            Provider.EncryptedAPIKey p = Provider.EncryptedAPIKey provider
            ∧ Provider.APIKeyHint p = Provider.APIKeyHint provider
        end
  | _ => s' = s
  end.
Proof.
  unfold UpdateProvider, bind, ret, fail, orError, providerRepo.Update.
  destruct (UpdateProviderInput.Name input) as [name|];
    [destruct (isEmpty (TrimSpace name)); [by intros [= <- <-]|]|];
    (destruct (UpdateProviderInput.BaseURL input) as [baseURL|];
     [destruct (isEmpty (TrimSpace baseURL)); [by intros [= <- <-]|];
      destruct (ParseRequestURI X (TrimSpace baseURL)); [by intros [= <- <-]|]|]);
    (destruct (UpdateProviderInput.APIKey input) as [key|];
     [destruct (isEmpty (TrimSpace key)) eqn:Hkey;
      [|destruct (isEmpty (TrimSpace (MODEL_PROVIDER_SECRET X))); [by intros [= <- <-]|];
        destruct (EncryptString X _ (TrimSpace key)) eqn:Henc; [by intros [= <- <-]|]]|]);
    destruct (UpdateProviderInput.Metadata input), (UpdateProviderInput.Active input);
    intros [= <- <-]; simpl; rewrite ?Hkey;
    unfold normalizeURL; rewrite ?TrimSpace_idemp, ?apiKeyHint_trimmed; by repeat split.
Qed.


(** X22: [UpdateProvider] of a stored provider, whatever it returns,
    keeps the uniqueness of the stored providers: primary keys, slugs and
    public identifiers stay unique, and no organization or project gets two
    providers of one vendor kind other than [custom]. *)
Theorem UpdateProvider_keeps_uniqueness X provider input s r s' :
  keyed s →
  oneProviderPerKind s →
  provider ∈ providers s →
  UpdateProvider X provider input s = (r, s') →
  keyed s' ∧ oneProviderPerKind s'.
Proof.
  intros (Hid & Hslug & Hpub) Hkind Hin H. apply UpdateProvider_cases in H.
  destruct r as [p| | |]; try (by subst s').
  destruct H as (-> & Hi & Hp & Hs & Hk & Ho & Hj & _).
  set (g := λ q, if bool_decide (Provider.ID q = Provider.ID p) then p else q).
  assert (∀ q, q ∈ providers s →
            Provider.ID (g q) = Provider.ID q
            ∧ Provider.Slug (g q) = Provider.Slug q
            ∧ Provider.PublicID (g q) = Provider.PublicID q
            ∧ Provider.Kind (g q) = Provider.Kind q
            ∧ Provider.OrganizationID (g q) = Provider.OrganizationID q
            ∧ Provider.ProjectID (g q) = Provider.ProjectID q) as Hg.
  { intros q Hq. unfold g. case_bool_decide as Heq; [|done].
    rewrite Hi in Heq. apply (NoDup_fmap_eq _ _ _ _ Hid Hq Hin) in Heq. subst q.
    by repeat split. }
  assert (∀ (f : Provider.t → N), (∀ q, q ∈ providers s → f (g q) = f q) →
            f <$> (g <$> providers s) = f <$> providers s) as HextN.
  { intros f Hf. rewrite <- list_fmap_compose. apply list_fmap_ext.
    intros i q Hq. apply Hf. by eapply list_elem_of_lookup_2. }
  assert (∀ (f : Provider.t → string), (∀ q, q ∈ providers s → f (g q) = f q) →
            f <$> (g <$> providers s) = f <$> providers s) as HextS.
  { intros f Hf. rewrite <- list_fmap_compose. apply list_fmap_ext.
    intros i q Hq. apply Hf. by eapply list_elem_of_lookup_2. }
  split.
  - unfold keyed; simpl.
    rewrite (HextN Provider.ID), (HextS Provider.Slug), (HextS Provider.PublicID);
      [done|intros q Hq; by destruct (Hg q Hq) as (? & ? & ? & _)..].
  - intros q1' q2'; simpl.
    intros (q1 & -> & Hq1)%list_elem_of_fmap (q2 & -> & Hq2)%list_elem_of_fmap.
    destruct (Hg q1 Hq1) as (_ & _ & _ & -> & -> & ->).
    destruct (Hg q2 Hq2) as (_ & _ & _ & -> & -> & ->).
    intros Hc Hk' Ho' Hj'. by rewrite (Hkind q1 q2 Hq1 Hq2 Hc Hk' Ho' Hj').
Qed.


(** *** The catalog *)

Lemma head_filter_update (publicID : string) (c : ModelCatalog.t) rows existing :
  head (filter (λ q, ModelCatalog.PublicID q = publicID) rows) = Some existing →
  ModelCatalog.ID c = ModelCatalog.ID existing →
  ModelCatalog.PublicID c = publicID →
  head (filter (λ q, ModelCatalog.PublicID q = publicID)
          ((λ q, if bool_decide (ModelCatalog.ID q = ModelCatalog.ID c) then c else q)
             <$> rows))
  = Some c.
Proof.
  intros Hhead Hid Hpub. induction rows as [|x rows IH]; [done|].
  rewrite fmap_cons. rewrite filter_cons in Hhead. case_bool_decide as Hx.
  - by rewrite filter_cons_True.
  - destruct (decide (ModelCatalog.PublicID x = publicID)) as [Hm|Hm].
    + injection Hhead as ->. by rewrite Hid in Hx.
    + rewrite filter_cons_False by done. by apply IH.
Qed.

Lemma upsertCatalog_cases X kind model s c s' :
  upsertCatalog X kind model s = (Ok c, s') →
  modelCatalogRepo.FindByPublicID (catalogPublicID model) s' = (Ok (Some c), s')
  ∧ ModelCatalog.PublicID c = catalogPublicID model
  ∧ providers s' = providers s
  ∧ providerModels s' = providerModels s
  ∧ drawn s' = drawn s
  ∧ match head (filter (λ q, ModelCatalog.PublicID q = catalogPublicID model)
                       (modelCatalogs s)) with
    | Some existing =>
        ModelCatalog.ID c = ModelCatalog.ID existing
        ∧ ModelCatalog.CreatedAt c = ModelCatalog.CreatedAt existing
        ∧ length (modelCatalogs s') = length (modelCatalogs s)
    | None =>
        modelCatalogs s' = modelCatalogs s ++ [c]
        ∧ (ModelCatalog.ID c ∉ ModelCatalog.ID <$> modelCatalogs s)
        ∧ ModelCatalog.Status c
          = (if bool_decide (kind = ProviderOpenRouter) then ModelCatalogStatusFilled
             else ModelCatalogStatusInit)
    end.
Proof.
  unfold upsertCatalog, bind, orError, ret, modelCatalogRepo.FindByPublicID,
    modelCatalogRepo.Update, modelCatalogRepo.Create.
  destruct (head _) as [existing|] eqn:Hhead; simpl.
  - pose proof Hhead as Hex. apply head_Some_elem_of, list_elem_of_filter in Hex as [Hpub Hex].
    destruct (bool_decide (ModelCatalog.Status existing = ModelCatalogStatusFilled)
              || bool_decide (ModelCatalog.Status existing = ModelCatalogStatusUpdated));
      intros [= <- <-]; simpl.
    + rewrite Hhead. by repeat split.
    + rewrite length_fmap. repeat split; try done.
      * do 2 f_equal. apply head_filter_update with (existing := existing); [done| |];
          by destruct (_ && _).
      * by destruct (_ && _).
      * by destruct (_ && _).
      * by destruct (_ && _).
  - intros [= <- <-]; simpl. repeat split; try done.
    + do 2 f_equal. rewrite filter_app. apply head_None in Hhead. rewrite Hhead; simpl.
      by rewrite filter_cons_True.
    + intros Hin%maxID_ge. simpl in Hin. lia.
Qed.

(** X23: what [upsertCatalog] returns is the entry that
    [FindByPublicID] finds next under the public identifier of the model; a
    model with no entry yet gets a new one, appended under a fresh primary
    key, [filled] for OpenRouter and [init] for any other kind. *)
Theorem upsertCatalog_then_find X kind model s c s' :
  upsertCatalog X kind model s = (Ok c, s') →
  modelCatalogRepo.FindByPublicID (catalogPublicID model) s' = (Ok (Some c), s')
  ∧ ModelCatalog.PublicID c = catalogPublicID model
  ∧ (modelCatalogRepo.FindByPublicID (catalogPublicID model) s = (Ok None, s) →
     modelCatalogs s' = modelCatalogs s ++ [c]
     ∧ (ModelCatalog.ID c ∉ ModelCatalog.ID <$> modelCatalogs s)
     ∧ ModelCatalog.Status c
       = (if bool_decide (kind = ProviderOpenRouter) then ModelCatalogStatusFilled
          else ModelCatalogStatusInit)).
Proof.
  intros H. apply upsertCatalog_cases in H as (Hfind & Hpub & _ & _ & _ & H).
  split; [done|]. split; [done|].
  unfold modelCatalogRepo.FindByPublicID. intros [= Hnone]. by rewrite Hnone in H.
Qed.


(** *** Provider models *)

Lemma matches_provider_key providerID key pm :
  providerModelRepo.matches
    (ProviderModelFilter.mk (Some providerID) None (Some key) None) pm = true
  ↔ ProviderModel.ProviderID pm = providerID ∧ ProviderModel.ModelKey pm = key.
Proof.
  unfold providerModelRepo.matches; simpl.
  by rewrite !andb_true_r, andb_true_iff, !bool_decide_eq_true.
Qed.

(** Every successful [upsertProviderModel]. *)
Lemma upsertProviderModel_cases X provider catalog model s pm s' :
  upsertProviderModel X provider catalog model s = (Ok pm, s') →
  isEmpty (TrimSpace (ChatModel.ID model)) = false
  ∧ providers s' = providers s
  ∧ modelCatalogs s' = modelCatalogs s
  ∧ pm ∈ providerModels s'
  ∧ ProviderModel.ProviderID pm = Provider.ID provider
  ∧ TrimSpace (ProviderModel.ModelKey pm) = TrimSpace (ChatModel.ID model)
  ∧ ProviderModel.ModelCatalogID pm = ModelCatalog.ID <$> catalog
  ∧ ProviderModel.Active pm = Provider.Active provider
  ∧ match filter (λ q, providerModelRepo.matches
                         (ProviderModelFilter.mk (Some (Provider.ID provider)) None
                            (Some (TrimSpace (ChatModel.ID model))) None) q = true)
                 (providerModels s) with
    | existing :: _ =>
        ProviderModel.ID pm = ProviderModel.ID existing
        ∧ ProviderModel.PublicID pm = ProviderModel.PublicID existing
        ∧ ProviderModel.ModelKey pm = TrimSpace (ChatModel.ID model)
        ∧ length (providerModels s') = length (providerModels s)
        ∧ drawn s' = drawn s
    | [] =>
        providerModels s' = providerModels s ++ [pm]
        ∧ ProviderModel.ModelKey pm = ChatModel.ID model
        ∧ drawn s' = N.succ (drawn s)
    end.
Proof.
  unfold upsertProviderModel.
  destruct (isEmpty (TrimSpace (ChatModel.ID model))) eqn:Hkey; [done|].
  unfold bind, orError, ret, providerModelRepo.FindByFilter, providerModelRepo.Update,
    providerModelRepo.Create, secureID; simpl.
  destruct (filter _ (providerModels s)) as [|existing rest] eqn:Hf; simpl.
  - destruct (GenerateSecureID X "pmdl" 32 (drawn s)); [done|].
    intros [= <- <-]; simpl. repeat split; try done.
    apply elem_of_app. right. apply list_elem_of_here.
  - assert (existing ∈ providerModels s
            ∧ ProviderModel.ProviderID existing = Provider.ID provider
            ∧ ProviderModel.ModelKey existing = TrimSpace (ChatModel.ID model))
      as (Hin & Hp & Hk).
    { assert (existing ∈ filter (λ q, providerModelRepo.matches
                                        (ProviderModelFilter.mk (Some (Provider.ID provider))
                                           None (Some (TrimSpace (ChatModel.ID model))) None)
                                        q = true) (providerModels s)) as H
        by (rewrite Hf; apply list_elem_of_here).
      apply list_elem_of_filter in H as [Hm ?]. by apply matches_provider_key in Hm as [? ?]. }
    intros [= <- <-]; simpl. rewrite length_fmap, Hk, TrimSpace_idemp.
    repeat split; try done.
    apply list_elem_of_fmap. exists existing. split; [|done]. by rewrite bool_decide_true.
Qed.



(** *** A whole sync *)

(** What a sync reports for a model: the row of the provider for that
    model, linked to the catalog entry of that model. *)
Definition syncedAs (provider : Provider.t) (r : ProviderModelSyncResult)
    (model : ChatModel.t) : Prop :=
  ProviderModel.ProviderID (SyncedProviderModel r) = Provider.ID provider
  ∧ TrimSpace (ProviderModel.ModelKey (SyncedProviderModel r)) = TrimSpace (ChatModel.ID model)
  ∧ ProviderModel.ModelCatalogID (SyncedProviderModel r)
    = Some (ModelCatalog.ID (SyncedCatalog r))
  ∧ ModelCatalog.PublicID (SyncedCatalog r) = catalogPublicID model.

Lemma syncLoop_results X provider models results s rs s' :
  syncLoop X provider results models s = (Ok rs, s') →
  providers s' = providers s
  ∧ ∃ new, rs = results ++ new ∧ Forall2 (syncedAs provider) new models.
Proof.
  revert results s. induction models as [|m models IH]; intros results s; simpl.
  - intros [= <- <-]. split; [done|]. exists []. by rewrite app_nil_r.
  - intros H. apply bind_Ok in H as (c & s1 & Hc & H).
    apply bind_Ok in H as (pm & s2 & Hpm & H).
    apply upsertCatalog_cases in Hc as (_ & Hpub & Hp1 & _).
    apply upsertProviderModel_cases in Hpm as (_ & Hp2 & _ & _ & Hpid & Hkey & Hcat & _).
    apply IH in H as (Hp3 & new & -> & Hnew). split; [congruence|].
    exists (mkSyncResult pm c :: new). split; [by rewrite <- app_assoc|].
    apply Forall2_cons. split; [|done]. by repeat split.
Qed.

Lemma SyncProviderModels_Ok X provider models s rs s' :
  SyncProviderModels X (Some provider) models s = (Ok rs, s') →
  Forall2 (syncedAs provider) rs models
  ∧ providers s'
    = (λ q, if bool_decide (Provider.ID q = Provider.ID provider)
            then Provider.withLastSyncedAt (Some (now X)) provider else q)
        <$> providers s.
Proof.
  unfold SyncProviderModels, syncModels. intros H.
  apply bind_Ok in H as (rs' & s1 & Hloop & H).
  apply syncLoop_results in Hloop as (Hp & new & -> & Hnew).
  apply bind_Ok in H as (u & s2 & Hupd & H). injection H as <- <-.
  apply orError_Ok in Hupd. unfold providerRepo.Update in Hupd. injection Hupd as Hs2.
  subst s2. simpl. by rewrite Hp.
Qed.

(** X25: a successful [SyncProviderModels] reports one result per
    model, in the order of the models, each the row of the provider for that
    model linked to the catalog entry of that model, and rewrites the row of
    the provider with the provider it was given, stamped with the time of
    the sync. *)
Theorem SyncProviderModels_results X provider models s rs s' :
  SyncProviderModels X (Some provider) models s = (Ok rs, s') →
  Forall2 (syncedAs provider) rs models
  ∧ providers s'
    = (λ q, if bool_decide (Provider.ID q = Provider.ID provider)
            then Provider.withLastSyncedAt (Some (now X)) provider else q)
        <$> providers s.
Proof. apply SyncProviderModels_Ok. Qed.

(** *** Accessible providers *)

Lemma appendUnique_NoDup items acc :
  wfAcc acc →
  NoDup (Provider.ID <$> acc.1) →
  NoDup (Provider.ID <$> (appendUnique items acc).1).
Proof.
  revert acc. induction items as [|x items IH]; intros acc Hwf Hnd; [done|].
  change (appendUnique (x :: items) acc)
    with (appendUnique items
            (if bool_decide (Provider.ID x ∈ acc.2) then acc
             else (acc.1 ++ [x], {[Provider.ID x]} ∪ acc.2))).
  apply IH.
  - destruct (appendUnique_spec [x] acc Hwf) as (Hwf' & _). exact Hwf'.
  - case_bool_decide as Hx; [done|]. simpl. rewrite fmap_app. apply NoDup_app.
    split; [done|]. split; [|apply NoDup_singleton].
    intros i Hi ->%list_elem_of_singleton. by apply Hx, Hwf.
Qed.

(** X26: [ListAccessibleProviders] always succeeds and reads only.
    It lists stored providers only, none twice, each one of the projects, of
    the organization or of the default organization, and it covers, up to
    the primary key, every such provider. *)
Theorem ListAccessibleProviders_distinct X org pids s :
  ∃ l, ListAccessibleProviders X org pids s = (Ok l, s)
       ∧ NoDup (Provider.ID <$> l)
       ∧ (∀ q, q ∈ l →
               q ∈ providers s
               ∧ (projectScoped org pids q
                  ∨ (Provider.ProjectID q = None
                     ∧ (Provider.OrganizationID q = Some org
                        ∨ Provider.OrganizationID q = DEFAULT_ORGANIZATION X))))
       ∧ (∀ q, q ∈ providers s →
               projectScoped org pids q
               ∨ (Provider.ProjectID q = None
                  ∧ (Provider.OrganizationID q = Some org
                     ∨ (Provider.OrganizationID q = DEFAULT_ORGANIZATION X
                        ∧ is_Some (DEFAULT_ORGANIZATION X)))) →
               ∃ y, y ∈ l ∧ Provider.ID y = Provider.ID q).
Proof.
  exists (accessibleProviders X org pids s). split; [apply ListAccessibleProviders_eq|].
  assert (wfAcc ([], ∅)) as Hwf0.
  { intros i; simpl. split; [by intros ?%not_elem_of_empty|by intros ?%elem_of_nil]. }
  assert (∀ o q, q ∈ withoutProjectRows o s
                 ↔ q ∈ providers s ∧ Provider.OrganizationID q = Some o
                   ∧ Provider.ProjectID q = None) as Hrows.
  { intros o q. unfold withoutProjectRows.
    rewrite list_elem_of_filter, matches_withoutProject. tauto. }
  assert (∀ q, q ∈ projectRows org pids s ↔ q ∈ providers s ∧ projectScoped org pids q)
    as Hprows.
  { intros q. unfold projectRows. rewrite list_elem_of_filter, matches_projects. tauto. }
  set (acc0 := projectAcc org pids s).
  assert (wfAcc acc0 ∧ NoDup (Provider.ID <$> acc0.1)
          ∧ (∀ q, q ∈ acc0.1 → q ∈ projectRows org pids s)
          ∧ (∀ q, q ∈ projectRows org pids s → Provider.ID q ∈ acc0.2))
    as (Hwf1 & Hnd1 & Hsub1 & Hcov1).
  { unfold acc0, projectAcc. case_bool_decide as Hlen.
    - destruct (appendUnique_spec (projectRows org pids s) ([], ∅) Hwf0)
        as (Hwf & (extra & Hextra & Hsub) & Hids).
      split; [done|]. split; [apply appendUnique_NoDup; [done|apply NoDup_nil_2]|].
      split; [|done]. intros q. rewrite Hextra. simpl. apply Hsub.
    - split; [done|]. split; [apply NoDup_nil_2|]. split; [by intros q ?%elem_of_nil|].
      intros q [_ (_ & j & _ & Hj)]%Hprows.
      destruct pids; [by apply elem_of_nil in Hj|simpl in Hlen; lia]. }
  set (acc1 := appendUnique (withoutProjectRows org s) acc0).
  destruct (appendUnique_spec (withoutProjectRows org s) acc0 Hwf1)
    as (Hwf2 & (e2 & He2 & Hsub2) & Hcov2). fold acc1 in Hwf2, He2, Hcov2.
  pose proof (appendUnique_NoDup (withoutProjectRows org s) acc0 Hwf1 Hnd1) as Hnd2.
  fold acc1 in Hnd2.
  assert (∀ q, q ∈ projectRows org pids s → Provider.ID q ∈ acc1.2) as Hcov1'.
  { intros q Hq. apply Hwf2. rewrite He2, fmap_app, elem_of_app. left.
    by apply Hwf1, Hcov1. }
  rewrite accessibleProviders_unfold. fold acc0 acc1.
  destruct (DEFAULT_ORGANIZATION X) as [d|].
  - destruct (appendUnique_spec (withoutProjectRows d s) acc1 Hwf2)
      as (Hwf3 & (e3 & He3 & Hsub3) & Hcov3).
    split; [by apply appendUnique_NoDup|]. split.
    + intros q. rewrite He3, He2, !elem_of_app.
      intros [[Hq|Hq]|Hq].
      * apply Hsub1, Hprows in Hq as [? ?]. split; [done|by left].
      * apply Hsub2, Hrows in Hq as (? & ? & ?). split; [done|]. right. split; [done|by left].
      * apply Hsub3, Hrows in Hq as (? & ? & ?). split; [done|]. right. split; [done|by right].
    + intros q Hq Hscope.
      assert (Provider.ID q ∈ (appendUnique (withoutProjectRows d s) acc1).2) as Hid.
      { destruct Hscope as [Hsc|(Hj & [Ho|[Ho _]])].
        - apply Hwf3. rewrite He3, fmap_app, elem_of_app. left. apply Hwf2, Hcov1'.
          by apply Hprows.
        - apply Hwf3. rewrite He3, fmap_app, elem_of_app. left. apply Hwf2, Hcov2.
          by apply Hrows.
        - apply Hcov3. by apply Hrows. }
      apply Hwf3, list_elem_of_fmap in Hid as (y & Hy & Hin). eauto.
  - split; [done|]. split.
    + intros q. rewrite He2, !elem_of_app. intros [Hq|Hq].
      * apply Hsub1, Hprows in Hq as [? ?]. split; [done|by left].
      * apply Hsub2, Hrows in Hq as (? & ? & ?). split; [done|]. right. split; [done|by left].
    + intros q Hq Hscope.
      assert (Provider.ID q ∈ acc1.2) as Hid.
      { destruct Hscope as [Hsc|(Hj & [Ho|[_ [? [=]]]])].
        - apply Hcov1'. by apply Hprows.
        - apply Hcov2. by apply Hrows. }
      apply Hwf2, list_elem_of_fmap in Hid as (y & Hy & Hin). eauto.
Qed.


(** *** The properties on a small deployment *)

(** The platform whose first secure identifier cannot be drawn. *)
Definition noEntropy : Externals := platform (Some 1%N).

Definition mistralInput : RegisterProviderInput.t :=
  RegisterProviderInput.mk 1 0 " Mistral " "Mistral" "https://api.mistral.ai/v1/" "" [] true.

Definition groq : Provider.t :=
  Provider.mk 1 "prov_0" "groq-groq" (Some 1%N) None "Groq" ProviderGroq
              "https://api.groq.com/v1" "sealed:gsk-1234" (Some "1234") false true
              [("tier", "free")] None 0%Z 0%Z.

Definition groqStore : Store := mkStore [groq] [] [] 1.

Definition rename : UpdateProviderInput.t :=
  UpdateProviderInput.mk (Some " Groq Cloud ") None (Some " ") None (Some false).

Definition mixtral : ChatModel.t :=
  ChatModel.mk "mistralai/mixtral-8x7b" "" "Mixtral 8x7B"
               [("context_length", AnyInt 32768)].

Definition gemma : ChatModel.t := ChatModel.mk "google/gemma-7b" "" "" [].

Lemma RegisterProvider_failure_persists_nothing_witness :
  ∃ e s', RegisterProvider noEntropy mistralInput groqStore = (Err e, s')
          ∧ providers s' = providers groqStore
          ∧ providerModels s' = providerModels groqStore
          ∧ modelCatalogs s' = modelCatalogs groqStore.
Proof.
  eexists _, _. split; [vm_compute; reflexivity|].
  eapply (RegisterProvider_failure_persists_nothing noEntropy mistralInput groqStore).
  vm_compute; reflexivity.
Defined.

Lemma groqStore_unique : keyed groqStore ∧ oneProviderPerKind groqStore.
Proof.
  split; [repeat split; apply NoDup_singleton|].
  by intros p q ->%list_elem_of_singleton ->%list_elem_of_singleton.
Qed.

Lemma RegisterProvider_keeps_uniqueness_witness :
  keyed groqStore
  ∧ oneProviderPerKind groqStore
  ∧ keyed (RegisterProvider sound mistralInput groqStore).2
  ∧ oneProviderPerKind (RegisterProvider sound mistralInput groqStore).2
  ∧ length (providers (RegisterProvider sound mistralInput groqStore).2) = 2.
Proof.
  split; [apply groqStore_unique|]. split; [apply groqStore_unique|].
  assert (keyed (RegisterProvider sound mistralInput groqStore).2
          ∧ oneProviderPerKind (RegisterProvider sound mistralInput groqStore).2)
    as [Hkeyed Hkind].
  { apply (RegisterProvider_keeps_uniqueness sound mistralInput groqStore
             (RegisterProvider sound mistralInput groqStore).1);
      [apply groqStore_unique..|].
    by destruct (RegisterProvider sound mistralInput groqStore). }
  split; [exact Hkeyed|]. split; [exact Hkind|]. by vm_compute.
Defined.


Lemma UpdateProvider_keeps_uniqueness_witness :
  keyed (UpdateProvider sound groq rename groqStore).2
  ∧ oneProviderPerKind (UpdateProvider sound groq rename groqStore).2.
Proof.
  apply (UpdateProvider_keeps_uniqueness sound groq rename groqStore
           (UpdateProvider sound groq rename groqStore).1);
    [apply groqStore_unique..|apply list_elem_of_here|].
  by destruct (UpdateProvider sound groq rename groqStore).
Defined.

Lemma upsertCatalog_then_find_witness :
  ∃ c s', upsertCatalog sound ProviderOpenRouter mixtral groqStore = (Ok c, s')
          ∧ modelCatalogRepo.FindByPublicID "mistralai-mixtral-8x7b" s' = (Ok (Some c), s')
          ∧ ModelCatalog.Status c = ModelCatalogStatusFilled.
Proof.
  eexists _, _. split; [vm_compute; reflexivity|].
  destruct (upsertCatalog_then_find sound ProviderOpenRouter mixtral groqStore _ _
              ltac:(vm_compute; reflexivity)) as (Hfind & _ & Hnew).
  split; [exact Hfind|]. by destruct (Hnew eq_refl) as (_ & _ & ->).
Defined.


Lemma SyncProviderModels_results_witness :
  ∃ rs s', SyncProviderModels sound (Some groq) [mixtral; gemma] groqStore = (Ok rs, s')
           ∧ Forall2 (syncedAs groq) rs [mixtral; gemma]
           ∧ providers s' = [Provider.withLastSyncedAt (Some (now sound)) groq].
Proof.
  eexists _, _. split; [vm_compute; reflexivity|].
  destruct (SyncProviderModels_results sound groq [mixtral; gemma] groqStore _ _
              ltac:(vm_compute; reflexivity)) as [Hrs Hrows].
  split; [exact Hrs|]. by rewrite Hrows.
Defined.

End ServiceProperties.

Module RelayProperties.
Import GoStrings GoStringsFacts ProviderRegistry RegistryProperties CompletionAPI RouteProperties.

Section Relay.

Variable Response : Type.
Variable X : Externals.
Variable C : Collaborators Response.

(** The provider a request for [modelKey] is relayed to: the built-in one,
    or the one the registry resolves for the caller. *)
Definition resolvedFor (s : Store) (modelKey : string) (p : Provider.t) : Prop :=
  p = DefaultProvider X
  ∨ ∃ user orgID projects,
      GetUserFromContext Response C = Some user
      ∧ DEFAULT_ORGANIZATION X = Some orgID
      ∧ FindProjects Response C orgID (UserID user) = inr projects
      ∧ GetProviderForModel X modelKey orgID (ProjectID <$> projects) s = (Ok p, s).

Lemma getProviderForModel_resolves modelKey s :
  (∃ p calls, getProviderForModel Response X C modelKey s = (Ok p, calls)
              ∧ resolvedFor s modelKey p
              ∧ Forall (λ c, isBackendCall c = false) calls)
  ∨ (∃ calls, getProviderForModel Response X C modelKey s = (Panic, calls)
              ∧ DEFAULT_ORGANIZATION X = None).
Proof.
  unfold getProviderForModel.
  destruct (GetUserFromContext Response C) as [user|] eqn:Huser;
    [|left; eexists _, _; split; [done|]; split; [by left|apply Forall_nil_2]].
  destruct (DEFAULT_ORGANIZATION X) as [orgID|] eqn:Horg; [|right; by eexists].
  destruct (FindProjects Response C orgID (UserID user)) as [err|projects] eqn:Hprojects;
    [left; eexists _, _; split; [done|]; split; [by left|by repeat constructor]|].
  unfold GetProviderForModelOrDefault.
  destruct (GetProviderForModel_cases X modelKey orgID (ProjectID <$> projects) s)
    as [(_ & e & ->)|(_ & p & l1 & l2 & Hp & _)].
  - left. eexists _, _. split; [done|]. split; [by left|by repeat constructor].
  - rewrite Hp. left. eexists _, _. split; [done|]. split; [|by repeat constructor].
    right. by exists user, orgID, projects.
Qed.

(** X27: a request with messages that is answered is relayed to one
    provider, the resolved one: the handler asks for the client of that
    provider once and, when it gets one, makes the one call that the mode of
    the request asks for.  It answers 200, or streams, when the backend
    succeeds and 400 otherwise. *)
Theorem PostCompletion_relays_once request s written calls :
  Messages request ≠ [] →
  PostCompletion Response X C (inr request) s = (Some written, calls) →
  ∃ p, resolvedFor s (Model request) p
       ∧ filter (λ c, isBackendCall c = true) calls
         = CallGetChatCompletionClient p
           :: match GetChatCompletionClient Response C p with
              | Some _ => []
              | None =>
                  [if Stream request then CallStreamChatCompletionToContext p
                   else CallCreateChatCompletion p]
              end
       ∧ match written with
         | AbortWithStatusJSON _ status _ => status = 400
         | JSON _ status _ => status = 200 ∧ Stream request = false
         | Streamed _ => Stream request = true
         end.
Proof.
  intros Hmsg. unfold PostCompletion.
  rewrite bool_decide_false by (by destruct (Messages request)).
  destruct (getProviderForModel_resolves (Model request) s)
    as [(p & calls0 & -> & Hres & Hcalls)|(calls0 & -> & _)]; [|done].
  assert (filter (λ c, isBackendCall c = true) calls0 = []) as Hnone.
  { clear -Hcalls. induction Hcalls as [|c l Hc _ IH]; [done|].
    by rewrite filter_cons_False by congruence. }
  unfold StreamCompletionResponse, CallCompletionAndGetRestResponse.
  destruct (Stream request) eqn:Hstream;
    destruct (GetChatCompletionClient Response C p) as [err|] eqn:Hclient.
  - intros [= <- <-]. exists p. rewrite filter_app, Hnone, Hclient. by repeat split.
  - destruct (StreamChatCompletionToContext Response C p request);
      intros [= <- <-]; exists p; rewrite filter_app, Hnone, Hclient; by repeat split.
  - intros [= <- <-]. exists p. rewrite filter_app, Hnone, Hclient. by repeat split.
  - destruct (CreateChatCompletion Response C p request);
      intros [= <- <-]; exists p; rewrite filter_app, Hnone, Hclient; by repeat split.
Qed.

End Relay.

Definition hello : ChatCompletionRequest :=
  mkRequest "shared" [mkMessage "user" "hello"] false.

Lemma PostCompletion_relays_once_witness :
  ∃ p, resolvedFor string sound echoBackend scenarioStore "shared" p
       ∧ filter (λ c, isBackendCall c = true)
                (PostCompletion string sound echoBackend (inr hello) scenarioStore).2
         = [CallGetChatCompletionClient p; CallCreateChatCompletion p].
Proof.
  destruct (PostCompletion_relays_once string sound echoBackend hello scenarioStore
              (JSON string 200 "shared")
              (PostCompletion string sound echoBackend (inr hello) scenarioStore).2
              ltac:(done) ltac:(vm_compute; reflexivity)) as (p & Hp & Hcalls & _).
  by exists p.
Defined.

End RelayProperties.

Module InitializerProperties.
Import GoStrings GoStringsFacts ProviderRegistry RegistryProperties ServiceProperties
  DataInitializer.

Lemma accessibleProviders_stored X org pids s q :
  q ∈ accessibleProviders X org pids s → q ∈ providers s.
Proof.
  assert (∀ items acc, wfAcc acc →
            (∀ x, x ∈ items → x ∈ providers s) →
            (∀ x, x ∈ acc.1 → x ∈ providers s) →
            wfAcc (appendUnique items acc)
            ∧ ∀ x, x ∈ (appendUnique items acc).1 → x ∈ providers s) as Hstep.
  { intros items acc Hwf Hitems Hacc.
    destruct (appendUnique_spec items acc Hwf) as (Hwf' & (extra & -> & Hextra) & _).
    split; [done|]. intros x [Hx|Hx]%elem_of_app; auto. }
  assert (∀ o, ∀ x, x ∈ withoutProjectRows o s → x ∈ providers s) as Hrows.
  { intros o x Hx. by apply list_elem_of_filter in Hx as [_ Hx]. }
  assert (wfAcc ([], ∅)) as Hnil.
  { intros i; simpl. split; [by intros ?%elem_of_empty|by intros ?%elem_of_nil]. }
  assert (wfAcc (projectAcc org pids s)
          ∧ ∀ x, x ∈ (projectAcc org pids s).1 → x ∈ providers s) as [Hwf0 Hacc0].
  { unfold projectAcc. case_bool_decide.
    - apply Hstep.
      + done.
      + intros x Hx. by apply list_elem_of_filter in Hx as [_ Hx].
      + intros x Hx. by apply elem_of_nil in Hx.
    - split; [done|]. intros x Hx. by apply elem_of_nil in Hx. }
  destruct (Hstep (withoutProjectRows org s) _ Hwf0 (Hrows org) Hacc0) as [Hwf1 Hacc1].
  rewrite accessibleProviders_unfold. destruct (DEFAULT_ORGANIZATION X) as [d|].
  - apply (Hstep (withoutProjectRows d s) _ Hwf1 (Hrows d) Hacc1).
  - apply Hacc1.
Qed.

(** *** What a sync does to the providers *)

Definition finished {E A} (r : Outcome E A) : Prop :=
  match r with Ok _ | Err _ => True | _ => False end.

Lemma upsertProviderModel_providers X provider catalog model s r s' :
  upsertProviderModel X provider catalog model s = (r, s') →
  providers s' = providers s ∧ finished r.
Proof.
  unfold upsertProviderModel, fail.
  destruct (isEmpty _); [by intros [= <- <-]|].
  unfold bind, orError, ret, providerModelRepo.FindByFilter, providerModelRepo.Update,
    providerModelRepo.Create, secureID; simpl.
  destruct (take 1 _) as [|pm ?]; [|by intros [= <- <-]].
  destruct (GenerateSecureID _ _ _ _); by intros [= <- <-].
Qed.

Lemma syncLoop_providers X provider models results s r s' :
  syncLoop X provider results models s = (r, s') →
  providers s' = providers s ∧ finished r.
Proof.
  revert results s. induction models as [|m models IH]; intros results s.
  - by intros [= <- <-].
  - rewrite syncLoop_cons. unfold syncStep, bind, ret.
    destruct (upsertCatalog_total X (Provider.Kind provider) m s) as (c & s1 & -> & Hp1 & _).
    destruct (upsertProviderModel X provider (Some c) m s1) as [r2 s2] eqn:Hpm.
    apply upsertProviderModel_providers in Hpm as [Hp2 Hfin].
    destruct r2 as [pm|e| |]; try done.
    + intros H. apply IH in H as [Hp3 ?]. split; [congruence|done].
    + intros [= <- <-]. split; [congruence|done].
Qed.

Lemma SyncProviderModels_providers X provider models s r s' :
  SyncProviderModels X (Some provider) models s = (r, s') →
  match r with
  | Ok _ =>
      providers s'
      = (λ q, if bool_decide (Provider.ID q = Provider.ID provider)
              then Provider.withLastSyncedAt (Some (now X)) provider else q)
          <$> providers s
  | Err _ => providers s' = providers s
  | _ => False
  end.
Proof.
  unfold SyncProviderModels, syncModels, bind, orError, ret, providerRepo.Update.
  destruct (syncLoop X provider [] models s) as [r1 s1] eqn:Hloop.
  apply syncLoop_providers in Hloop as [Hp Hfin].
  destruct r1 as [rs|e| |]; try done.
  - intros [= <- <-]; simpl. by rewrite Hp.
  - by intros [= <- <-].
Qed.

Lemma fmap_update_fresh (i : N) (p : Provider.t) (rows : list Provider.t) :
  i ∉ Provider.ID <$> rows →
  (λ q, if bool_decide (Provider.ID q = i) then p else q) <$> rows = rows.
Proof.
  induction rows as [|q rows IH]; [done|]. rewrite fmap_cons, not_elem_of_cons.
  intros [Hq Hrows]. rewrite fmap_cons, IH by done.
  by rewrite bool_decide_false by congruence.
Qed.

(** With a default organization [RegisterProvider] returns a result or an
    error. *)
Lemma RegisterProvider_finished X input s d :
  DEFAULT_ORGANIZATION X = Some d → finished (RegisterProvider X input s).1.
Proof.
  intros Hd. unfold RegisterProvider, fail.
  destruct (isEmpty _); [done|]. destruct (isEmpty _); [done|].
  destruct (ParseRequestURI _ _); [done|].
  rewrite Hd.
  unfold bind at 1.
  match goal with
  | |- context [(if bool_decide ?P then ?a else ?b) s] =>
      assert ((∃ e, (if bool_decide P then a else b) s = (Err e, s))
              ∨ (if bool_decide P then a else b) s = (Ok (), s)) as [[e ->]| ->]
  end.
  { case_bool_decide; [|by right].
    unfold bind, orError, providerRepo.Count, ret, fail.
    destruct (0 <? _)%N; [left; by eexists|by right]. }
  { done. }
  unfold bind at 1, orError at 1.
  destruct (generateUniqueSlug_total
              (slugCandidate (providerKindFromVendor (RegisterProviderInput.Vendor input))
                             (TrimSpace (RegisterProviderInput.Name input))) s)
    as (slug & -> & _).
  unfold bind at 1, orError at 1, secureID.
  destruct (GenerateSecureID X "prov" 24 (drawn s)); [done|].
  unfold bind at 1.
  match goal with
  | |- context [(if negb ?c then ?a else ?b) ?s1] =>
      assert ((∃ e, (if negb c then a else b) s1 = (Err e, s1))
              ∨ (∃ k, (if negb c then a else b) s1 = (Ok k, s1))) as [[e ->]|[k ->]]
  end.
  { destruct (negb _); [|right; by eexists].
    destruct (isEmpty _); [left; by eexists|].
    destruct (EncryptString _ _ _); [left|right]; by eexists. }
  { done. }
  unfold bind, orError, providerRepo.Create, ret.
  by destruct (existsb _ _).
Qed.

(** *** The setup of the built-in provider *)

(** What [setupJanProvider] leaves behind when no provider of the built-in
    kind is stored. *)
Definition registeredAsCustom (X : Externals) (s s' : Store) : Prop :=
  ∃ p, providers s' = providers s ++ [p]
       ∧ Provider.Kind p = ProviderCustom
       ∧ Provider.OrganizationID p = DEFAULT_ORGANIZATION X
       ∧ Provider.ProjectID p = None
       ∧ (Provider.ID p ∉ Provider.ID <$> providers s).

Lemma setupJanProvider_cases X ListModels s r s' :
  (∀ p, p ∈ providers s → Provider.Kind p ≠ ProviderJan) →
  setupJanProvider X ListModels s = (r, s') →
  match r with
  | Ok _ | Err (discoverModelsFailed _) | Err (syncModelsFailed _) =>
      registeredAsCustom X s s'
  | Err defaultOrganizationNotInitialized => DEFAULT_ORGANIZATION X = None ∧ s' = s
  | Err (registerProviderFailed _) => providers s' = providers s
  | _ => False
  end.
Proof.
  intros Hnone. unfold setupJanProvider, fail.
  destruct (DEFAULT_ORGANIZATION X) as [d|] eqn:Hd; [|by intros [= <- <-]].
  unfold bind at 1, orSetupError at 1. cbv beta. rewrite ListAccessibleProviders_eq.
  destruct (existsb _ _) eqn:Hguard.
  { apply existsb_exists in Hguard as (p & Hp & Hjan). apply list_elem_of_In in Hp.
    apply accessibleProviders_stored in Hp.
    apply andb_true_iff in Hjan as [Hjan%bool_decide_eq_true _]. by destruct (Hnone p). }
  unfold bind, orSetupError, ret.
  destruct (RegisterProvider X (janProviderInput X d) s) as [r1 s1] eqn:Hreg.
  pose proof (RegisterProvider_finished X (janProviderInput X d) s d Hd) as Hfin.
  rewrite Hreg in Hfin; simpl in Hfin.
  pose proof (RegisterProvider_outcome X _ _ _ _ Hreg) as (_ & _ & Hout).
  destruct r1 as [res|e| |]; [|by intros [= <- <-]|done..].
  apply RegisterProvider_Ok in Hreg
    as (d' & Hd' & Hkind & Horg & Hproj & _ & _ & Hrows & _).
  destruct Hout as (_ & _ & Hfresh & _).
  assert (Provider.Kind (RegisteredProvider res) = ProviderCustom) as Hcustom.
  { by rewrite Hkind. }
  assert (Provider.OrganizationID (RegisteredProvider res) = Some d) as Horg'.
  { rewrite Horg; simpl. destruct (bool_decide (d ≠ 0%N)); congruence. }
  destruct (ListModels (RegisteredProvider res)) as [err|models].
  { intros [= <- <-]. exists (RegisteredProvider res). by rewrite Hd. }
  destruct (SyncProviderModels X (Some (RegisteredProvider res)) models s1)
    as [r2 s2] eqn:Hsync.
  apply SyncProviderModels_providers in Hsync.
  destruct r2 as [rs|e| |]; try done.
  - intros [= <- <-].
    exists (Provider.withLastSyncedAt (Some (now X)) (RegisteredProvider res)).
    rewrite Hsync, Hrows, fmap_app; simpl.
    rewrite bool_decide_true by done.
    rewrite fmap_update_fresh by done.
    by rewrite Hd.
  - intros [= <- <-]. exists (RegisteredProvider res). rewrite Hsync. by rewrite Hd.
Qed.

(** X28: on a store without provider of the built-in kind,
    [setupJanProvider] never stores one: the vendor it registers under is
    not a vendor that [providerKindFromVendor] knows, so that a run which
    succeeds, or which fails at the discovery or at the sync of the models,
    has appended one provider of kind [custom], of the default organization
    and without project, and any other run has left the providers as they
    were.  The guard of the setup therefore stays false and the next run
    registers again. *)
Theorem setupJanProvider_registers_again X ListModels s r s' :
  (∀ p, p ∈ providers s → Provider.Kind p ≠ ProviderJan) →
  setupJanProvider X ListModels s = (r, s') →
  (∀ p, p ∈ providers s' → Provider.Kind p ≠ ProviderJan)
  ∧ match r with
    | Ok _ | Err (discoverModelsFailed _) | Err (syncModelsFailed _) =>
        ∃ p, providers s' = providers s ++ [p]
             ∧ Provider.Kind p = ProviderCustom
             ∧ Provider.OrganizationID p = DEFAULT_ORGANIZATION X
             ∧ Provider.ProjectID p = None
    | Err _ => providers s' = providers s
    | _ => False
    end.
Proof.
  intros Hnone H. apply setupJanProvider_cases in H; [|done].
  assert (registeredAsCustom X s s' →
          (∀ p, p ∈ providers s' → Provider.Kind p ≠ ProviderJan)
          ∧ ∃ p, providers s' = providers s ++ [p]
                 ∧ Provider.Kind p = ProviderCustom
                 ∧ Provider.OrganizationID p = DEFAULT_ORGANIZATION X
                 ∧ Provider.ProjectID p = None) as Hreg.
  { intros (p & Hrows & Hkind & Horg & Hproj & _). split; [|by exists p].
    intros q. rewrite Hrows, elem_of_app, list_elem_of_singleton.
    intros [Hq| ->]; [by apply Hnone|congruence]. }
  destruct r as [[]|[]| |]; try done; try (by apply Hreg).
  - destruct H as [_ ->]. done.
  - split; [|done]. intros p. rewrite H. apply Hnone.
Qed.

(** *** The setup on a small deployment *)

Definition announce (p : Provider.t) : error + list ChatModel.t := inr [mixtral].

Lemma setupJanProvider_registers_again_witness :
  (∀ p, p ∈ providers groqStore → Provider.Kind p ≠ ProviderJan)
  ∧ (setupJanProvider sound announce groqStore).1 = Ok ()
  ∧ ∃ p, providers (setupJanProvider sound announce groqStore).2 = [groq; p]
         ∧ Provider.Kind p = ProviderCustom.
Proof.
  assert (∀ p, p ∈ providers groqStore → Provider.Kind p ≠ ProviderJan) as Hnone.
  { by intros p ->%list_elem_of_singleton. }
  split; [exact Hnone|]. split; [by vm_compute|].
  destruct (setupJanProvider_registers_again sound announce groqStore (Ok ())
              (setupJanProvider sound announce groqStore).2 Hnone
              ltac:(vm_compute; reflexivity)) as (_ & p & Hrows & Hkind & _).
  by exists p.
Defined.

End InitializerProperties.

Module AdminRouteProperties.
Import GoStrings GoStringsFacts ProviderRegistry RegistryProperties ServiceProperties
  InitializerProperties ModelProviderRoute.

(** What the summary of a synced model shows of the model. *)
Definition summarizes (item : registerProviderModelSummary.t) (model : ChatModel.t) : Prop :=
  TrimSpace (registerProviderModelSummary.ModelKey item) = TrimSpace (ChatModel.ID model)
  ∧ registerProviderModelSummary.CatalogID item = Some (catalogPublicID model).

(** X29: the registration route answers 400 when the registration
    fails, and then no table has changed; 502 when the models of the new
    provider cannot be listed and 500 when their sync fails, and then the
    provider stays registered; and 200 with the public identifier of the
    new provider, which is stored with the time of the sync, and one summary
    per announced model, in order, each with the key of its model and the
    public identifier of its catalog entry.  It does not finish only
    without default organization. *)
Theorem registerProvider_replies X ListModels orgEntityID request s reply s' :
  registerProvider X ListModels (Some orgEntityID) (inr request) s = (reply, s') →
  match reply with
  | AbortWithStatusJSON status _ =>
      (status = 400 ∧ sameTables s s')
      ∨ ∃ p, providers s' = providers s ++ [p]
             ∧ (Provider.PublicID p ∉ Provider.PublicID <$> providers s)
             ∧ ((status = 502 ∧ (∃ err, ListModels p = inl err)
                 ∧ providerModels s' = providerModels s
                 ∧ modelCatalogs s' = modelCatalogs s)
                ∨ (status = 500 ∧ ∃ models, ListModels p = inr models))
  | JSON status body =>
      status = 200
      ∧ ∃ p models,
          ListModels p = inr models
          ∧ providers s' = providers s ++ [Provider.withLastSyncedAt (Some (now X)) p]
          ∧ (Provider.PublicID p ∉ Provider.PublicID <$> providers s)
          ∧ registerProviderResponse.ID body = Provider.PublicID p
          ∧ Forall2 summarizes (registerProviderResponse.Models body) models
  | NoReply => False
  | Unfinished => DEFAULT_ORGANIZATION X = None
  end.
Proof.
  unfold registerProvider.
  match goal with
  | |- context [RegisterProvider X ?i s] => set (input := i)
  end.
  destruct (RegisterProvider X input s) as [r1 s1] eqn:Hreg.
  pose proof (RegisterProvider_outcome X _ _ _ _ Hreg) as (Hpm & Hcat & Hout).
  assert (finished r1 ∨ DEFAULT_ORGANIZATION X = None) as Hfin.
  { destruct (DEFAULT_ORGANIZATION X) as [d|] eqn:Hd; [left|by right].
    pose proof (RegisterProvider_finished X input s d Hd) as H. by rewrite Hreg in H. }
  destruct r1 as [res|e| |].
  - destruct Hout as (Hrows & _ & Hfresh & _ & Hpub & _).
    destruct (ListModels (RegisteredProvider res)) as [err|models] eqn:Hlist.
    { intros [= <- <-]. right. exists (RegisteredProvider res).
      split; [done|]. split; [done|]. left. split; [done|]. split; [by exists err|done]. }
    destruct (SyncProviderModels X (Some (RegisteredProvider res)) models s1)
      as [r2 s2] eqn:Hsync.
    pose proof (SyncProviderModels_providers _ _ _ _ _ _ Hsync) as Hp.
    destruct r2 as [rs|e| |]; try done.
    + intros [= <- <-]. split; [done|]. exists (RegisteredProvider res), models.
      split; [done|]. split.
      { rewrite Hp, Hrows, fmap_app; simpl. rewrite bool_decide_true by done.
        by rewrite fmap_update_fresh by done. }
      split; [done|]. split; [done|]. simpl.
      apply SyncProviderModels_Ok in Hsync as [Hrs _].
      clear -Hrs. induction Hrs as [|r m rs ms (_ & Hkey & _ & Hcat) _ IH]; [constructor|].
      rewrite fmap_cons. constructor; [|done]. split; simpl; [done|by rewrite Hcat].
    + intros [= <- <-]. right. exists (RegisteredProvider res).
      split; [congruence|]. split; [done|]. right. split; [done|]. by exists models.
  - intros [= <- <-]. left. by repeat split.
  - intros [= <- <-]. by destruct Hfin.
  - intros [= <- <-]. by destruct Hfin.
Qed.




(** *** The routes on a small deployment *)

Definition mistralRequest : registerProviderRequest.t :=
  registerProviderRequest.mk "Mistral" "mistral" "https://api.mistral.ai/v1" "" [] None.


Lemma registerProvider_replies_witness :
  ∃ body s',
    registerProvider sound announce (Some 1%N) (inr mistralRequest) groqStore
    = (JSON 200 body, s')
    ∧ length (providers s') = 2
    ∧ length (registerProviderResponse.Models body) = 1.
Proof.
  eexists _, _. split; [vm_compute; reflexivity|].
  destruct (registerProvider_replies sound announce 1%N mistralRequest groqStore _ _
              ltac:(vm_compute; reflexivity))
    as (_ & p & models & Hlist & Hrows & _ & _ & Hmodels).
  split; [by rewrite Hrows, length_app|].
  apply Forall2_length in Hmodels. rewrite Hmodels. by injection Hlist as <-.
Defined.


End AdminRouteProperties.
